(** * Shardy (sdy dialect): op sharding rule builder, bytecode records,
    canonicalization patterns, resharding expectations and propagation.

  The development follows the sources file by file:
  - [Attrs]: the attribute records, with the fields that
    [shardy/dialect/sdy/ir/bytecode.td] lists for each of them;
  - [Enums]: [shardy/dialect/sdy/ir/enums.td] and the [FactorType] cases the
    builder switches on;
  - [RuleBuilder]: [op_sharding_rule_builder.h/.cc];
  - [Bytecode]: the dialect attribute records of [bytecode.td];
  - [Canonicalization]: the rewrite patterns of [canonicalization.td];
  - [ReshardExpectations]: the FileCheck expectations of
    [transforms/export/test/reshard_to_collectives.mlir];
  - [Synthesis], [Propagation]: parts of the system whose implementation is
    not among the sources; they are modelled from the specification and
    say so.

  Definitions come first, theorems after them. *)

From Stdlib Require Import ZArith Lia Bool.
From stdpp Require Import base decidable option numbers list strings sorting.

Local Open Scope Z_scope.
Local Set Warnings "-register-all".

(* ===================================================================== *)
(** ** Attribute records *)
(* ===================================================================== *)

Module Attrs.

(** [SubAxisInfoAttr]: [pre_size], [size]. *)
Record SubAxisInfoAttr := mkSubAxisInfo {
  pre_size : Z;
  size : Z
}.

(** [AxisRefAttr]: [name], optional [sub_axis_info]. *)
Record AxisRefAttr := mkAxisRef {
  name : string;
  sub_axis_info : option SubAxisInfoAttr
}.

(** [DimensionShardingAttr]: [axes], [is_closed], optional [priority]. *)
Record DimensionShardingAttr := mkDimSharding {
  axes : list AxisRefAttr;
  is_closed : bool;
  priority : option Z
}.

(** [MeshAxisAttr]: [name], [size]. *)
Record MeshAxisAttr := mkMeshAxis {
  axis_name : string;
  axis_size : Z
}.

(** [MeshAttr]: [axes], [device_ids]. *)
Record MeshAttr := mkMesh {
  mesh_axes : list MeshAxisAttr;
  device_ids : list Z
}.

(** The [mesh_or_ref] parameter of a tensor sharding is a generic
    [Attribute]: an inlined mesh or a symbol name. *)
Inductive MeshOrRef :=
| MeshRef (sym : string)
| InlinedMesh (m : MeshAttr).

(** [TensorShardingAttr]: [mesh_or_ref], [dim_shardings],
    [replicated_axes], [unreduced_axes]. *)
Record TensorShardingAttr := mkTensorSharding {
  mesh_or_ref : MeshOrRef;
  dim_shardings : list DimensionShardingAttr;
  replicated_axes : list AxisRefAttr;
  unreduced_axes : list AxisRefAttr
}.

(** [DimMappingAttr]: [factor_indices]. *)
Record DimMappingAttr := mkDimMappingAttr {
  factor_indices : list Z
}.

(** [TensorMappingAttr]: [dim_mappings]. *)
Record TensorMappingAttr := mkTensorMappingAttr {
  dim_mappings : list DimMappingAttr
}.

(** [OpShardingRuleAttr], fields in the order of the bytecode record. *)
Record OpShardingRuleAttr := mkOpShardingRule {
  factor_sizes : list Z;
  operand_mappings : list TensorMappingAttr;
  result_mappings : list TensorMappingAttr;
  reduction_factors : list Z;
  need_replication_factors : list Z;
  permutation_factors : list Z;
  blocked_propagation_factors : list Z;
  is_custom_rule : bool
}.

(** [AllToAllParamAttr]: [axes], [src_dim], [tgt_dim]. *)
Record AllToAllParamAttr := mkAllToAllParam {
  param_axes : list AxisRefAttr;
  src_dim : Z;
  tgt_dim : Z
}.

(** [AxisRefListAttr], [ListOfAxisRefListsAttr] and
    [AllToAllParamListAttr] wrap one array each. *)
Abbreviation AxisRefListAttr := (list AxisRefAttr).
Abbreviation ListOfAxisRefListsAttr := (list (list AxisRefAttr)).
Abbreviation AllToAllParamListAttr := (list AllToAllParamAttr).

#[global] Instance SubAxisInfoAttr_eq_dec : EqDecision SubAxisInfoAttr.
Proof. solve_decision. Defined.
#[global] Instance AxisRefAttr_eq_dec : EqDecision AxisRefAttr.
Proof. solve_decision. Defined.
#[global] Instance DimensionShardingAttr_eq_dec : EqDecision DimensionShardingAttr.
Proof. solve_decision. Defined.
#[global] Instance MeshAxisAttr_eq_dec : EqDecision MeshAxisAttr.
Proof. solve_decision. Defined.
#[global] Instance MeshAttr_eq_dec : EqDecision MeshAttr.
Proof. solve_decision. Defined.
#[global] Instance MeshOrRef_eq_dec : EqDecision MeshOrRef.
Proof. solve_decision. Defined.
#[global] Instance TensorShardingAttr_eq_dec : EqDecision TensorShardingAttr.
Proof. solve_decision. Defined.
#[global] Instance DimMappingAttr_eq_dec : EqDecision DimMappingAttr.
Proof. solve_decision. Defined.
#[global] Instance TensorMappingAttr_eq_dec : EqDecision TensorMappingAttr.
Proof. solve_decision. Defined.
#[global] Instance OpShardingRuleAttr_eq_dec : EqDecision OpShardingRuleAttr.
Proof. solve_decision. Defined.
#[global] Instance AllToAllParamAttr_eq_dec : EqDecision AllToAllParamAttr.
Proof. solve_decision. Defined.

End Attrs.

(* ===================================================================== *)
(** ** Enums *)
(* ===================================================================== *)

Module Enums.

(** [Sdy_PropagationDirection], an [I32EnumAttr]. *)
Inductive PropagationDirection := NONE | FORWARD | BACKWARD | BOTH.

(** The integer each [I32EnumAttrCase] carries. *)
Definition directionValue (d : PropagationDirection) : Z :=
  match d with
  | NONE => 0
  | FORWARD => 1
  | BACKWARD => 2
  | BOTH => 3
  end.

(** [symbolizePropagationDirection]: the case of an integer, if any. *)
Definition symbolizeDirection (z : Z) : option PropagationDirection :=
  match z with
  | 0 => Some NONE
  | 1 => Some FORWARD
  | 2 => Some BACKWARD
  | 3 => Some BOTH
  | _ => None
  end.

(** [Sdy_EdgeNodeType]. *)
Inductive EdgeNodeType := OPERAND | RESULT.

(** [FactorType], the four cases [reserveFactor] switches on. *)
Inductive FactorType := kPassThrough | kReduction | kNeedReplication | kPermutation.

#[global] Instance PropagationDirection_eq_dec : EqDecision PropagationDirection.
Proof. solve_decision. Defined.
#[global] Instance EdgeNodeType_eq_dec : EqDecision EdgeNodeType.
Proof. solve_decision. Defined.
#[global] Instance FactorType_eq_dec : EqDecision FactorType.
Proof. solve_decision. Defined.

End Enums.

(* ===================================================================== *)
(** ** The op sharding rule builder (op_sharding_rule_builder.h/.cc) *)
(* ===================================================================== *)

Module RuleBuilder.
Import Attrs Enums.

(** [const int kNullDim = -1]. *)
Definition kNullDim : Z := -1.

(** [struct DimMapping { SmallVector<int64_t> factorIndices; }]. *)
Record DimMapping := mkDimMapping {
  factorIndices : list Z
}.

(** [using TensorMapping = SmallVector<DimMapping>]. *)
Abbreviation TensorMapping := (list DimMapping).

#[global] Instance DimMapping_eq_dec : EqDecision DimMapping.
Proof. solve_decision. Defined.

(** The private members of [OpShardingRuleBuilder].  The [MLIRContext*]
    only uniques attributes and is left out. *)
Record OpShardingRuleBuilder := mkBuilder {
  factorSizes : list Z;
  operandMappings : list TensorMapping;
  resultMappings : list TensorMapping;
  reductionFactors : list Z;
  needReplicationFactors : list Z;
  permutationFactors : list Z;
  blockedPropagationFactors : list Z
}.

#[global] Instance OpShardingRuleBuilder_eq_dec : EqDecision OpShardingRuleBuilder.
Proof. solve_decision. Defined.

(** [TensorMapping(rank)]: [rank] default-constructed dimension mappings. *)
Definition emptyTensorMapping (rank : nat) : TensorMapping :=
  replicate rank (mkDimMapping []).

(** The constructor from operand and result types; a type matters only
    through its rank.  [reserve] calls have no observable effect. *)
Definition newBuilder (operandRanks resultRanks : list nat) : OpShardingRuleBuilder :=
  {| factorSizes := [];
     operandMappings := emptyTensorMapping <$> operandRanks;
     resultMappings := emptyTensorMapping <$> resultRanks;
     reductionFactors := [];
     needReplicationFactors := [];
     permutationFactors := [];
     blockedPropagationFactors := [] |}.

(** [mappedFactors.push_back(factorIndex)]. *)
Definition push_back (factorIndex : Z) (dm : DimMapping) : DimMapping :=
  mkDimMapping (factorIndices dm ++ [factorIndex]).

(** One iteration of the loop of [mapDimsToFactor].  A failed [assert]
    (negative dimension other than [kNullDim]) and an index outside the
    tensor mapping give [None]. *)
Definition mapDimToFactor (tensorMapping : TensorMapping) (tensorDim : Z)
    (factorIndex factorSize : Z) : option TensorMapping :=
  if decide (tensorDim = kNullDim) then Some tensorMapping
  else if decide (tensorDim < 0) then None
  else
    match tensorMapping !! Z.to_nat tensorDim with
    | None => None
    | Some mappedFactors =>
        if decide (factorSize = 1 ∧ factorIndices mappedFactors ≠ [])
        then Some tensorMapping
        else Some (<[Z.to_nat tensorDim := push_back factorIndex mappedFactors]> tensorMapping)
    end.

(** [mapDimsToFactor]: the loop over [llvm::zip_equal(tensorMappings,
    tensorDims)]; ranges of different lengths fail the assertion of
    [zip_equal]. *)
Fixpoint mapDimsToFactor (tensorMappings : list TensorMapping) (tensorDims : list Z)
    (factorIndex factorSize : Z) : option (list TensorMapping) :=
  match tensorMappings, tensorDims with
  | [], [] => Some []
  | tensorMapping :: tms, tensorDim :: tds =>
      tm' ← mapDimToFactor tensorMapping tensorDim factorIndex factorSize;
      rest ← mapDimsToFactor tms tds factorIndex factorSize;
      Some (tm' :: rest)
  | _, _ => None
  end.

(** One iteration of [mapSingleDimOverAllMappingsToFactor]. *)
Definition mapSingleDimToFactor (tensorDim factorIndex : Z)
    (tensorMapping : TensorMapping) : option TensorMapping :=
  match tensorMapping with
  | [] => Some []
  | _ =>
      match tensorMapping !! Z.to_nat tensorDim with
      | None => None
      | Some mappedFactors =>
          Some (<[Z.to_nat tensorDim := push_back factorIndex mappedFactors]> tensorMapping)
      end
  end.

(** [mapSingleDimOverAllMappingsToFactor]; [assert(tensorDim >= 0)]. *)
Definition mapSingleDimOverAllMappingsToFactor (tensorMappings : list TensorMapping)
    (tensorDim factorIndex : Z) : option (list TensorMapping) :=
  if decide (tensorDim < 0) then None
  else mapM (mapSingleDimToFactor tensorDim factorIndex) tensorMappings.

(** [reserveFactor]: returns the new factor's index and the builder. *)
Definition reserveFactor (b : OpShardingRuleBuilder) (factorSize : Z)
    (factorType : FactorType) (isBlocked : bool) : Z * OpShardingRuleBuilder :=
  let factorIndex := Z.of_nat (length (factorSizes b)) in
  let blocked :=
    if isBlocked then blockedPropagationFactors b ++ [factorIndex]
    else blockedPropagationFactors b in
  let b1 :=
    {| factorSizes := factorSizes b ++ [factorSize];
       operandMappings := operandMappings b;
       resultMappings := resultMappings b;
       reductionFactors := reductionFactors b;
       needReplicationFactors := needReplicationFactors b;
       permutationFactors := permutationFactors b;
       blockedPropagationFactors := blocked |} in
  match factorType with
  | kReduction =>
      (factorIndex,
       {| factorSizes := factorSizes b1;
          operandMappings := operandMappings b1;
          resultMappings := resultMappings b1;
          reductionFactors := reductionFactors b1 ++ [factorIndex];
          needReplicationFactors := needReplicationFactors b1;
          permutationFactors := permutationFactors b1;
          blockedPropagationFactors := blockedPropagationFactors b1 |})
  | kNeedReplication =>
      (factorIndex,
       {| factorSizes := factorSizes b1;
          operandMappings := operandMappings b1;
          resultMappings := resultMappings b1;
          reductionFactors := reductionFactors b1;
          needReplicationFactors := needReplicationFactors b1 ++ [factorIndex];
          permutationFactors := permutationFactors b1;
          blockedPropagationFactors := blockedPropagationFactors b1 |})
  | kPermutation =>
      (factorIndex,
       {| factorSizes := factorSizes b1;
          operandMappings := operandMappings b1;
          resultMappings := resultMappings b1;
          reductionFactors := reductionFactors b1;
          needReplicationFactors := needReplicationFactors b1;
          permutationFactors := permutationFactors b1 ++ [factorIndex];
          blockedPropagationFactors := blockedPropagationFactors b1 |})
  | kPassThrough => (factorIndex, b1)
  end.

Definition withOperandMappings (b : OpShardingRuleBuilder) (ms : list TensorMapping) :=
  {| factorSizes := factorSizes b;
     operandMappings := ms;
     resultMappings := resultMappings b;
     reductionFactors := reductionFactors b;
     needReplicationFactors := needReplicationFactors b;
     permutationFactors := permutationFactors b;
     blockedPropagationFactors := blockedPropagationFactors b |}.

Definition withResultMappings (b : OpShardingRuleBuilder) (ms : list TensorMapping) :=
  {| factorSizes := factorSizes b;
     operandMappings := operandMappings b;
     resultMappings := ms;
     reductionFactors := reductionFactors b;
     needReplicationFactors := needReplicationFactors b;
     permutationFactors := permutationFactors b;
     blockedPropagationFactors := blockedPropagationFactors b |}.

Definition withFactorSizes (b : OpShardingRuleBuilder) (fs : list Z) :=
  {| factorSizes := fs;
     operandMappings := operandMappings b;
     resultMappings := resultMappings b;
     reductionFactors := reductionFactors b;
     needReplicationFactors := needReplicationFactors b;
     permutationFactors := permutationFactors b;
     blockedPropagationFactors := blockedPropagationFactors b |}.

(** [addFactor(operandDims, resultDims, factorSize, factorType, isBlocked)]. *)
Definition addFactor (b : OpShardingRuleBuilder) (operandDims resultDims : list Z)
    (factorSize : Z) (factorType : FactorType) (isBlocked : bool)
    : option OpShardingRuleBuilder :=
  let '(factorIndex, b1) := reserveFactor b factorSize factorType isBlocked in
  ops ← mapDimsToFactor (operandMappings b1) operandDims factorIndex factorSize;
  res ← mapDimsToFactor (resultMappings b1) resultDims factorIndex factorSize;
  Some (withResultMappings (withOperandMappings b1 ops) res).

(** [addFactorSameForAllOperands]. *)
Definition addFactorSameForAllOperands (b : OpShardingRuleBuilder) (operandDim : Z)
    (factorSize : Z) (factorType : FactorType) (isBlocked : bool)
    : option OpShardingRuleBuilder :=
  let '(factorIndex, b1) := reserveFactor b factorSize factorType isBlocked in
  ops ← mapSingleDimOverAllMappingsToFactor (operandMappings b1) operandDim factorIndex;
  Some (withOperandMappings b1 ops).

(** [addFactorSameForAllResults]. *)
Definition addFactorSameForAllResults (b : OpShardingRuleBuilder) (resultDim : Z)
    (factorSize : Z) (factorType : FactorType) (isBlocked : bool)
    : option OpShardingRuleBuilder :=
  let '(factorIndex, b1) := reserveFactor b factorSize factorType isBlocked in
  res ← mapSingleDimOverAllMappingsToFactor (resultMappings b1) resultDim factorIndex;
  Some (withResultMappings b1 res).

(** [addFactor(dim, factorSize, factorType, isBlocked)]. *)
Definition addFactorDim (b : OpShardingRuleBuilder) (dim : Z)
    (factorSize : Z) (factorType : FactorType) (isBlocked : bool)
    : option OpShardingRuleBuilder :=
  let '(factorIndex, b1) := reserveFactor b factorSize factorType isBlocked in
  ops ← mapSingleDimOverAllMappingsToFactor (operandMappings b1) dim factorIndex;
  res ← mapSingleDimOverAllMappingsToFactor (resultMappings b1) dim factorIndex;
  Some (withResultMappings (withOperandMappings b1 ops) res).

(** The loop of [addPointwise(shape, getFactorType, getIsBlocked)], with
    [dim] the running index of [llvm::enumerate]. *)
Fixpoint addPointwiseFrom (b : OpShardingRuleBuilder) (dim : Z) (shape : list Z)
    (getFactorType : Z → FactorType) (getIsBlocked : FactorType → bool)
    : option OpShardingRuleBuilder :=
  match shape with
  | [] => Some b
  | dimSize :: rest =>
      let factorType := getFactorType dim in
      let isBlocked := getIsBlocked factorType in
      b' ← addFactorDim b dim dimSize (getFactorType dim) isBlocked;
      addPointwiseFrom b' (dim + 1) rest getFactorType getIsBlocked
  end.

Definition addPointwise (b : OpShardingRuleBuilder) (shape : list Z)
    (getFactorType : Z → FactorType) (getIsBlocked : FactorType → bool) :=
  addPointwiseFrom b 0 shape getFactorType getIsBlocked.

(** [buildTensorMappingAttrList], inner loop: the dimension mappings of one
    tensor, threading [factorSizes]. *)
Fixpoint buildDimMappingAttrs (tensorMapping : TensorMapping) (factorSizes : list Z)
    : list DimMappingAttr * list Z :=
  match tensorMapping with
  | [] => ([], factorSizes)
  | dimMapping :: rest =>
      match factorIndices dimMapping with
      | [] =>
          let attr := mkDimMappingAttr [Z.of_nat (length factorSizes)] in
          let '(attrs, fs) := buildDimMappingAttrs rest (factorSizes ++ [1]) in
          (attr :: attrs, fs)
      | _ =>
          let attr := mkDimMappingAttr (factorIndices dimMapping) in
          let '(attrs, fs) := buildDimMappingAttrs rest factorSizes in
          (attr :: attrs, fs)
      end
  end.

(** [buildTensorMappingAttrList], outer loop. *)
Fixpoint buildTensorMappingAttrList (tensorMappings : list TensorMapping)
    (factorSizes : list Z) : list TensorMappingAttr * list Z :=
  match tensorMappings with
  | [] => ([], factorSizes)
  | tensorMapping :: rest =>
      let '(dimMappings, fs1) := buildDimMappingAttrs tensorMapping factorSizes in
      let '(attrs, fs2) := buildTensorMappingAttrList rest fs1 in
      (mkTensorMappingAttr dimMappings :: attrs, fs2)
  end.

(** [SmallVector::resize(n)] on a vector of [int64_t]: truncate, or pad
    with zeros. *)
Definition resize (n : nat) (v : list Z) : list Z :=
  take n v ++ replicate (n - length v) 0.

(** [OpShardingRuleBuilder::build]: the rule and the builder after the
    call.  [OpShardingRuleAttr::get] is called without [is_custom_rule],
    which defaults to false. *)
Definition build (b : OpShardingRuleBuilder) : OpShardingRuleAttr * OpShardingRuleBuilder :=
  let originalNumFactors := length (factorSizes b) in
  let '(operandMappingAttrs, fs1) :=
    buildTensorMappingAttrList (operandMappings b) (factorSizes b) in
  let '(resultMappingAttrs, fs2) :=
    buildTensorMappingAttrList (resultMappings b) fs1 in
  let result :=
    {| factor_sizes := fs2;
       operand_mappings := operandMappingAttrs;
       result_mappings := resultMappingAttrs;
       reduction_factors := reductionFactors b;
       need_replication_factors := needReplicationFactors b;
       permutation_factors := permutationFactors b;
       blocked_propagation_factors := blockedPropagationFactors b;
       is_custom_rule := false |} in
  (result, withFactorSizes b (resize originalNumFactors fs2)).

(** [createIdentityShardingRule(type, numOperands, numResults)]; the type
    matters through its shape. *)
Definition createIdentityShardingRule (shape : list Z) (numOperands numResults : nat)
    : option OpShardingRuleAttr :=
  let b := newBuilder (replicate numOperands (length shape))
                      (replicate numResults (length shape)) in
  b' ← addPointwise b shape (λ _, kPassThrough) (λ _, false);
  Some (fst (build b')).

End RuleBuilder.

(* ===================================================================== *)
(** ** Bytecode records (bytecode.td) *)
(* ===================================================================== *)

Module Bytecode.
Import Attrs.

(** The records of [SdyDialectTypes], in the order of [elems]; the marker
    code of a record is its position in that list. *)
Inductive BcKind :=
| Sdy_ManualAxesAttrBc
| Sdy_MeshAxisAttrBc
| Sdy_MeshAttrBc
| Sdy_SubAxisInfoAttrBc
| Sdy_AxisRefAttrBc
| Sdy_DimensionShardingAttrBc
| Sdy_TensorShardingAttrV1Bc
| Sdy_TensorShardingPerValueAttrV1Bc
| Sdy_DimMappingAttrBc
| Sdy_TensorMappingAttrBc
| Sdy_OpShardingRuleAttrBc
| Sdy_AxisRefListAttrBc
| Sdy_ListOfAxisRefListsAttrBc
| Sdy_AllToAllParamAttrBc
| Sdy_AllToAllParamListAttrBc
| Sdy_TensorShardingAttrV2Bc
| Sdy_TensorShardingPerValueAttrV2Bc.

#[global] Instance BcKind_eq_dec : EqDecision BcKind.
Proof. solve_decision. Defined.

Definition SdyDialectTypes : list BcKind :=
  [ (* index  0 *) Sdy_ManualAxesAttrBc;
    (* index  1 *) Sdy_MeshAxisAttrBc;
    (* index  2 *) Sdy_MeshAttrBc;
    (* index  3 *) Sdy_SubAxisInfoAttrBc;
    (* index  4 *) Sdy_AxisRefAttrBc;
    (* index  5 *) Sdy_DimensionShardingAttrBc;
    (* index  6 *) Sdy_TensorShardingAttrV1Bc;
    (* index  7 *) Sdy_TensorShardingPerValueAttrV1Bc;
    (* index  8 *) Sdy_DimMappingAttrBc;
    (* index  9 *) Sdy_TensorMappingAttrBc;
    (* index 10 *) Sdy_OpShardingRuleAttrBc;
    (* index 11 *) Sdy_AxisRefListAttrBc;
    (* index 12 *) Sdy_ListOfAxisRefListsAttrBc;
    (* index 13 *) Sdy_AllToAllParamAttrBc;
    (* index 14 *) Sdy_AllToAllParamListAttrBc;
    (* index 15 *) Sdy_TensorShardingAttrV2Bc;
    (* index 16 *) Sdy_TensorShardingPerValueAttrV2Bc ].

(** Position of [k] in a list of kinds. *)
Fixpoint indexOf (k : BcKind) (l : list BcKind) : option nat :=
  match l with
  | [] => None
  | k' :: rest => if decide (k = k') then Some 0%nat else S <$> indexOf k rest
  end.

(** The marker code written in front of a record of kind [k]. *)
Definition tagOf (k : BcKind) : nat := default 0%nat (indexOf k SdyDialectTypes).

(** What a record holds once the attribute references of the bytecode
    are resolved: integers, booleans, strings, optional items, arrays and
    nested attribute records ([BcAttr tag fields]); a symbol reference is
    a builtin attribute. *)
Inductive BcValue :=
| BcVarInt (z : Z)
| BcBool (b : bool)
| BcString (s : string)
| BcOptVarInt (o : option Z)
| BcOptAttr (o : option BcValue)
| BcArray (l : list BcValue)
| BcSymbolRef (s : string)
| BcAttr (tag : nat) (fields : list BcValue).

(** *** Writers: one per record, the fields in the order of the [(attr ...)] dag. *)

Definition writeMeshAxis (a : MeshAxisAttr) : BcValue :=
  BcAttr (tagOf Sdy_MeshAxisAttrBc) [BcString (axis_name a); BcVarInt (axis_size a)].

Definition writeMesh (m : MeshAttr) : BcValue :=
  BcAttr (tagOf Sdy_MeshAttrBc)
    [BcArray (writeMeshAxis <$> mesh_axes m); BcArray (BcVarInt <$> device_ids m)].

Definition writeSubAxisInfo (i : SubAxisInfoAttr) : BcValue :=
  BcAttr (tagOf Sdy_SubAxisInfoAttrBc) [BcVarInt (pre_size i); BcVarInt (size i)].

Definition writeAxisRef (a : AxisRefAttr) : BcValue :=
  BcAttr (tagOf Sdy_AxisRefAttrBc)
    [BcString (name a); BcOptAttr (writeSubAxisInfo <$> sub_axis_info a)].

Definition writeDimensionSharding (d : DimensionShardingAttr) : BcValue :=
  BcAttr (tagOf Sdy_DimensionShardingAttrBc)
    [BcArray (writeAxisRef <$> axes d); BcBool (is_closed d); BcOptVarInt (priority d)].

(** The [Attribute:$mesh_or_ref] field. *)
Definition writeMeshOrRef (m : MeshOrRef) : BcValue :=
  match m with
  | MeshRef s => BcSymbolRef s
  | InlinedMesh mesh => writeMesh mesh
  end.

(** [printerPredicate] of [Sdy_TensorShardingAttrV1Bc]:
    [$_val.getUnreducedAxes().empty()]. *)
Definition printerPredicateV1 (s : TensorShardingAttr) : bool :=
  bool_decide (unreduced_axes s = []).

(** [printerPredicate] of [Sdy_TensorShardingAttrV2Bc]:
    [!$_val.getUnreducedAxes().empty()]. *)
Definition printerPredicateV2 (s : TensorShardingAttr) : bool :=
  negb (bool_decide (unreduced_axes s = [])).

Definition writeTensorShardingV1 (s : TensorShardingAttr) : BcValue :=
  BcAttr (tagOf Sdy_TensorShardingAttrV1Bc)
    [writeMeshOrRef (mesh_or_ref s);
     BcArray (writeDimensionSharding <$> dim_shardings s);
     BcArray (writeAxisRef <$> replicated_axes s)].

Definition writeTensorShardingV2 (s : TensorShardingAttr) : BcValue :=
  BcAttr (tagOf Sdy_TensorShardingAttrV2Bc)
    [writeMeshOrRef (mesh_or_ref s);
     BcArray (writeDimensionSharding <$> dim_shardings s);
     BcArray (writeAxisRef <$> replicated_axes s);
     BcArray (writeAxisRef <$> unreduced_axes s)].

(** The generated writer for the C++ type [TensorShardingAttr]: the
    records with this [cType] are tried in the order of [elems], each
    behind its printer predicate; when none applies the attribute is not
    written. *)
Definition writeTensorSharding (s : TensorShardingAttr) : option BcValue :=
  if printerPredicateV1 s then Some (writeTensorShardingV1 s)
  else if printerPredicateV2 s then Some (writeTensorShardingV2 s)
  else None.

(** *** Readers: dispatch on the marker code, then the fields in order. *)

Definition readVarInt (v : BcValue) : option Z :=
  match v with BcVarInt z => Some z | _ => None end.

Definition readMeshAxis (v : BcValue) : option MeshAxisAttr :=
  match v with
  | BcAttr 1 [BcString n; BcVarInt z] => Some (mkMeshAxis n z)
  | _ => None
  end.

Definition readMesh (v : BcValue) : option MeshAttr :=
  match v with
  | BcAttr 2 [BcArray axs; BcArray ids] =>
      a ← mapM readMeshAxis axs;
      i ← mapM readVarInt ids;
      Some (mkMesh a i)
  | _ => None
  end.

Definition readSubAxisInfo (v : BcValue) : option SubAxisInfoAttr :=
  match v with
  | BcAttr 3 [BcVarInt p; BcVarInt s] => Some (mkSubAxisInfo p s)
  | _ => None
  end.

Definition readAxisRef (v : BcValue) : option AxisRefAttr :=
  match v with
  | BcAttr 4 [BcString n; BcOptAttr None] => Some (mkAxisRef n None)
  | BcAttr 4 [BcString n; BcOptAttr (Some i)] =>
      info ← readSubAxisInfo i;
      Some (mkAxisRef n (Some info))
  | _ => None
  end.

Definition readDimensionSharding (v : BcValue) : option DimensionShardingAttr :=
  match v with
  | BcAttr 5 [BcArray axs; BcBool c; BcOptVarInt p] =>
      a ← mapM readAxisRef axs;
      Some (mkDimSharding a c p)
  | _ => None
  end.

Definition readMeshOrRef (v : BcValue) : option MeshOrRef :=
  match v with
  | BcSymbolRef s => Some (MeshRef s)
  | _ => InlinedMesh <$> readMesh v
  end.

(** The reader for tensor shardings.  Marker 6 uses the [cBuilder] of
    the V1 record, which passes [/*unreduced_axes=*/{}]; marker 15 uses
    the default builder on all four fields. *)
Definition readTensorSharding (v : BcValue) : option TensorShardingAttr :=
  match v with
  | BcAttr 6 [m; BcArray dims; BcArray repl] =>
      mesh ← readMeshOrRef m;
      d ← mapM readDimensionSharding dims;
      r ← mapM readAxisRef repl;
      Some (mkTensorSharding mesh d r [])
  | BcAttr 15 [m; BcArray dims; BcArray repl; BcArray unred] =>
      mesh ← readMeshOrRef m;
      d ← mapM readDimensionSharding dims;
      r ← mapM readAxisRef repl;
      u ← mapM readAxisRef unred;
      Some (mkTensorSharding mesh d r u)
  | _ => None
  end.

End Bytecode.

(* ===================================================================== *)
(** ** Canonicalization patterns (canonicalization.td) *)
(* ===================================================================== *)

Module Canonicalization.
Import Attrs.

(** An SSA value: a block argument or the result of the operation at a
    position of the function body. *)
Inductive Value :=
| BlockArg (n : nat)
| OpResult (n : nat).

#[global] Instance Value_eq_dec : EqDecision Value.
Proof. solve_decision. Defined.

(** The operations the patterns mention, with their operands and
    attributes in the order the patterns bind them.  [OtherOp] stands
    for any other user of values ([func.return] included); [Erased]
    marks the place of an operation a rewrite removed. *)
Inductive Op :=
| ReshardOp (input : Value) (sharding : TensorShardingAttr)
| AllGatherOp (tensor : Value) (gathering_axes : ListOfAxisRefListsAttr)
    (out_sharding : TensorShardingAttr)
| AllSliceOp (tensor : Value) (slicing_axes : ListOfAxisRefListsAttr)
    (out_sharding : TensorShardingAttr)
| AllToAllOp (tensor : Value) (params : AllToAllParamListAttr)
    (out_sharding : TensorShardingAttr)
| AllReduceOp (tensor : Value) (reduction_axes : AxisRefListAttr)
    (out_sharding : TensorShardingAttr)
| CollectivePermuteOp (tensor : Value) (out_sharding : TensorShardingAttr)
| OtherOp (operands : list Value)
| Erased.

#[global] Instance Op_eq_dec : EqDecision Op.
Proof. solve_decision. Defined.

(** A function body: the sharding attribute of each block argument and
    the operations in order; the operation at position [i] defines
    [OpResult i]. *)
Record Func := mkFunc {
  arg_shardings : list (option TensorShardingAttr);
  body : list Op
}.

Definition operandsOf (op : Op) : list Value :=
  match op with
  | ReshardOp v _ | AllGatherOp v _ _ | AllSliceOp v _ _ | AllToAllOp v _ _
  | AllReduceOp v _ _ | CollectivePermuteOp v _ => [v]
  | OtherOp vs => vs
  | Erased => []
  end.

(** Number of uses of a value in the body. *)
Definition numUses (f : Func) (v : Value) : nat :=
  length (filter (λ u, u = v) (mjoin (operandsOf <$> body f))).

(** [$_self.hasOneUse()]. *)
Definition hasOneUse (f : Func) (v : Value) : bool := bool_decide (numUses f v = 1%nat).

(** [HasNoUseOf]: [$_self.use_empty()]. *)
Definition hasNoUse (f : Func) (v : Value) : bool := bool_decide (numUses f v = 0%nat).

(** The defining operation of a value, as [getDefiningOp] gives it. *)
Definition definingOp (f : Func) (v : Value) : option Op :=
  match v with
  | BlockArg _ => None
  | OpResult i => body f !! i
  end.

(** Modelled from the spec: [getSharding(Value)] of ir/utils.cc, which is
    not among the sources.  A block argument carries its sharding as an
    argument attribute; the collectives and the reshard define the
    sharding of their result by their sharding attribute. *)
Definition getSharding (f : Func) (v : Value) : option TensorShardingAttr :=
  match v with
  | BlockArg n => mjoin (arg_shardings f !! n)
  | OpResult i =>
      match body f !! i with
      | Some (ReshardOp _ s) | Some (AllGatherOp _ _ s) | Some (AllSliceOp _ _ s)
      | Some (AllToAllOp _ _ s) | Some (AllReduceOp _ _ s)
      | Some (CollectivePermuteOp _ s) => Some s
      | _ => None
      end
  end.

(** Modelled from the spec: [TensorShardingAttr::areDimAxesEqual] of
    ir/dialect.cc, which is not among the sources: the two shardings have
    the same axes in every dimension; open/closed flags and priorities are
    not compared. *)
Definition areDimAxesEqual (a b : TensorShardingAttr) : bool :=
  bool_decide ((axes <$> dim_shardings a) = (axes <$> dim_shardings b)).

(** The constraint [TensorShardingEquivalent]. *)
Definition TensorShardingEquivalent (f : Func) (v : Value) (s : TensorShardingAttr) : bool :=
  match getSharding f v with
  | Some sv => areDimAxesEqual sv s && bool_decide (mesh_or_ref sv = mesh_or_ref s)
  | None => false
  end.

(** Modelled from the spec: the attribute constraint [Sdy_EmptyAxesPerDim]
    of ir/attrs.td, which is not among the sources: the axis list of every
    dimension is empty. *)
Definition Sdy_EmptyAxesPerDim (a : ListOfAxisRefListsAttr) : bool :=
  forallb (λ l, bool_decide (l = [])) a.

(** Modelled from the spec: the attribute constraint [Sdy_EmptyAxisList]
    of ir/attrs.td, which is not among the sources. *)
Definition Sdy_EmptyAxisList (a : AxisRefListAttr) : bool := bool_decide (a = []).

(** What a pattern does with the matched root operation. *)
Inductive Rewrite :=
| ReplaceWithValue (v : Value)
| ReplaceWithOp (op : Op).

#[global] Instance Rewrite_eq_dec : EqDecision Rewrite.
Proof. solve_decision. Defined.

(** A pattern looks at the operation at position [root]. *)
Definition Pattern := Func → nat → option Rewrite.

Definition ReshardOfReshardPattern : Pattern := λ f root,
  match body f !! root with
  | Some (ReshardOp inner outer_sharding) =>
      match definingOp f inner with
      | Some (ReshardOp tensor inner_sharding) =>
          if hasOneUse f inner then Some (ReplaceWithOp (ReshardOp tensor outer_sharding))
          else None
      | _ => None
      end
  | _ => None
  end.

Definition AllGatherNoopPattern : Pattern := λ f root,
  match body f !! root with
  | Some (AllGatherOp tensor gatheringAxes outSharding) =>
      if Sdy_EmptyAxesPerDim gatheringAxes then Some (ReplaceWithValue tensor) else None
  | _ => None
  end.

Definition AllSliceNoopPattern : Pattern := λ f root,
  match body f !! root with
  | Some (AllSliceOp tensor slicingAxes outSharding) =>
      if Sdy_EmptyAxesPerDim slicingAxes then Some (ReplaceWithValue tensor) else None
  | _ => None
  end.

Definition AllReduceNoopPattern : Pattern := λ f root,
  match body f !! root with
  | Some (AllReduceOp tensor reductionAxes resultSharding) =>
      if Sdy_EmptyAxisList reductionAxes then Some (ReplaceWithValue tensor) else None
  | _ => None
  end.

Definition CollectivePermuteNoopPattern : Pattern := λ f root,
  match body f !! root with
  | Some (CollectivePermuteOp tensor out_sharding) =>
      if TensorShardingEquivalent f tensor out_sharding
      then Some (ReplaceWithValue tensor) else None
  | _ => None
  end.

(** The constraint is [AllMatchPred<["gatheringAxes", "slicingAxes"]>]. *)
Definition AllSliceOfAllGatherPattern : Pattern := λ f root,
  match body f !! root with
  | Some (AllSliceOp gathered slicingAxes _) =>
      match definingOp f gathered with
      | Some (AllGatherOp tensor gatheringAxes _) =>
          if bool_decide (gatheringAxes = slicingAxes)
          then Some (ReplaceWithValue tensor) else None
      | _ => None
      end
  | _ => None
  end.

Definition AllToAllNoUsePattern : Pattern := λ f root,
  match body f !! root with
  | Some (AllToAllOp tensor params sharding) =>
      if hasNoUse f (OpResult root) then Some (ReplaceWithValue tensor) else None
  | _ => None
  end.

Section AllToAllParams.
(** [AllToAllParamListAttr::overlaps] and [::combineAndSort] are defined
    in ir/dialect.cc, which is not among the sources; the fusion pattern
    is stated over any such pair of functions. *)
Variable overlaps : AllToAllParamListAttr → AllToAllParamListAttr → bool.
Variable combineAndSort : AllToAllParamListAttr → AllToAllParamListAttr → AllToAllParamListAttr.

(** [AllToAllParamsNoOverlap]: [!$0.overlaps($1)]. *)
Definition AllToAllParamsNoOverlap (p q : AllToAllParamListAttr) : bool :=
  negb (overlaps p q).

(** [CombineAllToAllParams]: [$0.combineAndSort($1)]. *)
Definition CombineAllToAllParams (p q : AllToAllParamListAttr) : AllToAllParamListAttr :=
  combineAndSort p q.

Definition AllToAllFusionPattern : Pattern := λ f root,
  match body f !! root with
  | Some (AllToAllOp inner outer_params outer_sharding) =>
      match definingOp f inner with
      | Some (AllToAllOp inner_tensor inner_params inner_sharding) =>
          if hasOneUse f inner && AllToAllParamsNoOverlap inner_params outer_params
          then Some (ReplaceWithOp
                       (AllToAllOp inner_tensor
                          (CombineAllToAllParams inner_params outer_params)
                          outer_sharding))
          else None
      | _ => None
      end
  | _ => None
  end.

(** The patterns of the file.  In which order a driver tries them is not
    fixed here. *)
Definition patterns : list Pattern :=
  [ ReshardOfReshardPattern; AllGatherNoopPattern; AllSliceNoopPattern;
    AllReduceNoopPattern; CollectivePermuteNoopPattern;
    AllSliceOfAllGatherPattern; AllToAllNoUsePattern; AllToAllFusionPattern ].

End AllToAllParams.

Definition replaceValue (old new : Value) (v : Value) : Value :=
  if decide (v = old) then new else v.

Definition replaceUsesInOp (old new : Value) (op : Op) : Op :=
  match op with
  | ReshardOp v s => ReshardOp (replaceValue old new v) s
  | AllGatherOp v a s => AllGatherOp (replaceValue old new v) a s
  | AllSliceOp v a s => AllSliceOp (replaceValue old new v) a s
  | AllToAllOp v p s => AllToAllOp (replaceValue old new v) p s
  | AllReduceOp v a s => AllReduceOp (replaceValue old new v) a s
  | CollectivePermuteOp v s => CollectivePermuteOp (replaceValue old new v) s
  | OtherOp vs => OtherOp (replaceValue old new <$> vs)
  | Erased => Erased
  end.

(** The effect of a rewrite on the body: [replaceWithValue] redirects
    every use of the root's result and erases the root; a result pattern
    with an operation puts the new operation in the root's place. *)
Definition applyRewrite (f : Func) (root : nat) (rw : Rewrite) : Func :=
  match rw with
  | ReplaceWithValue v =>
      mkFunc (arg_shardings f)
             (<[root := Erased]> (replaceUsesInOp (OpResult root) v <$> body f))
  | ReplaceWithOp op =>
      mkFunc (arg_shardings f) (<[root := op]> (body f))
  end.

(** The collectives the resharding synthesis emits. *)
Definition isCollective (op : Op) : bool :=
  match op with
  | AllGatherOp _ _ _ | AllSliceOp _ _ _ | AllToAllOp _ _ _
  | CollectivePermuteOp _ _ => true
  | _ => false
  end.

(** A collective carries no axis: every per-dimension list of an
    all-gather or all-slice is empty, every parameter of an all-to-all has
    an empty axis list.  A collective-permute has no axis parameter. *)
Definition hasEmptyAxes (op : Op) : bool :=
  match op with
  | AllGatherOp _ a _ | AllSliceOp _ a _ => Sdy_EmptyAxesPerDim a
  | AllToAllOp _ p _ => forallb (λ q, bool_decide (param_axes q = [])) p
  | _ => false
  end.

End Canonicalization.

(* ===================================================================== *)
(** ** The expectations of reshard_to_collectives.mlir *)
(* ===================================================================== *)

Module ReshardExpectations.
Import Attrs.

(** A collective of an expected sequence.  Every collective of a
    sequence takes the result of the one before it (the first takes the
    function argument), so only the attributes are recorded. *)
Inductive Collective :=
| all_gather (gathering_axes : ListOfAxisRefListsAttr) (out_sharding : TensorShardingAttr)
| all_slice (slicing_axes : ListOfAxisRefListsAttr) (out_sharding : TensorShardingAttr)
| all_to_all (params : AllToAllParamListAttr) (out_sharding : TensorShardingAttr)
| collective_permute (out_sharding : TensorShardingAttr).

#[global] Instance Collective_eq_dec : EqDecision Collective.
Proof. solve_decision. Defined.

(** One [CHECK-LABEL] function: the sharding of its argument, the
    sharding of its [sdy.reshard] and the [CHECK-NEXT] lines before the
    [return]. *)
Record TestCase := mkTestCase {
  test_name : string;
  source : TensorShardingAttr;
  target : TensorShardingAttr;
  expected : list Collective
}.

(** ["x"] and ["x":(pre_size)size]. *)
Definition ax (n : string) : AxisRefAttr := mkAxisRef n None.
Definition sub (n : string) (pre sz : Z) : AxisRefAttr :=
  mkAxisRef n (Some (mkSubAxisInfo pre sz)).

(** [{...}] and [{..., ?}]. *)
Definition closed (l : list AxisRefAttr) : DimensionShardingAttr := mkDimSharding l true None.
Definition opened (l : list AxisRefAttr) : DimensionShardingAttr := mkDimSharding l false None.

(** [<@mesh, [...]>]. *)
Definition sh (mesh : string) (dims : list DimensionShardingAttr) : TensorShardingAttr :=
  mkTensorSharding (MeshRef mesh) dims [] [].

Definition mesh_of (l : list (string * Z)) : MeshAttr :=
  mkMesh ((λ p, mkMeshAxis p.1 p.2) <$> l) [].

(** The [sdy.mesh] symbols of the file. *)
Definition meshes : list (string * MeshAttr) :=
  [ ("mesh1d_6", mesh_of [("x", 6)]);
    ("mesh2d", mesh_of [("x", 2); ("y", 2)]);
    ("mesh2d_4x2", mesh_of [("x", 4); ("y", 2)]);
    ("mesh2d_2x8", mesh_of [("x", 2); ("y", 8)]);
    ("mesh2d_2x3", mesh_of [("x", 2); ("y", 3)]);
    ("mesh3d", mesh_of [("x", 2); ("y", 2); ("z", 2)]);
    ("mesh3d_4x2x4", mesh_of [("x", 4); ("y", 2); ("z", 4)]);
    ("mesh4d", mesh_of [("x", 2); ("y", 2); ("z", 2); ("w", 2)]);
    ("mesh4d_z4", mesh_of [("x", 2); ("y", 2); ("z", 4); ("w", 2)]);
    ("mesh4d_w4", mesh_of [("x", 2); ("y", 2); ("z", 2); ("w", 4)]);
    ("mesh4d_w16", mesh_of [("x", 2); ("y", 2); ("z", 2); ("w", 16)]);
    ("mesh6d", mesh_of [("x", 2); ("y", 2); ("z", 2); ("w", 2); ("u", 2); ("v", 2)]) ].

Definition redundant_reshard : TestCase :=
  {| test_name := "redundant_reshard";
     source := sh "mesh2d" [closed [ax "x"]; closed [ax "y"]];
     target := sh "mesh2d" [opened [ax "x"]; opened [ax "y"]];
     expected :=
       [] |}.

Definition all_gather_single_axis : TestCase :=
  {| test_name := "all_gather_single_axis";
     source := sh "mesh2d" [closed [ax "y"]; closed [ax "x"]];
     target := sh "mesh2d" [closed [ax "y"]; closed []];
     expected :=
       [all_gather [[]; [ax "x"]] (sh "mesh2d" [closed [ax "y"]; closed []])] |}.

Definition all_gather_multiple_axes : TestCase :=
  {| test_name := "all_gather_multiple_axes";
     source := sh "mesh3d" [closed [ax "x"; ax "y"; ax "z"]; closed []];
     target := sh "mesh3d" [closed [ax "x"]; closed []];
     expected :=
       [all_gather [[ax "y"; ax "z"]; []] (sh "mesh3d" [closed [ax "x"]; closed []])] |}.

Definition all_gather_multiple_dims : TestCase :=
  {| test_name := "all_gather_multiple_dims";
     source := sh "mesh3d" [closed [ax "y"; ax "z"]; closed [ax "x"]];
     target := sh "mesh3d" [closed [ax "y"]; closed [ax "x"]];
     expected :=
       [all_gather [[ax "z"]; []] (sh "mesh3d" [closed [ax "y"]; closed [ax "x"]])] |}.

Definition all_gather_with_subaxis : TestCase :=
  {| test_name := "all_gather_with_subaxis";
     source := sh "mesh2d_2x8" [closed [ax "y"]; closed [ax "x"]];
     target := sh "mesh2d_2x8" [closed [sub "y" 1 4]; closed [ax "x"]];
     expected :=
       [all_gather [[sub "y" 4 2]; []] (sh "mesh2d_2x8" [closed [sub "y" 1 4]; closed [ax "x"]])] |}.

Definition all_slice_multiple_axes : TestCase :=
  {| test_name := "all_slice_multiple_axes";
     source := sh "mesh3d" [closed []; closed []];
     target := sh "mesh3d" [closed [ax "x"]; closed [ax "y"; ax "z"]];
     expected :=
       [all_slice [[ax "x"]; [ax "y"; ax "z"]] (sh "mesh3d" [closed [ax "x"]; closed [ax "y"; ax "z"]])] |}.

Definition all_slice_minor_axis : TestCase :=
  {| test_name := "all_slice_minor_axis";
     source := sh "mesh3d" [closed [ax "x"]; closed [ax "y"]];
     target := sh "mesh3d" [closed [ax "x"]; closed [ax "y"; ax "z"]];
     expected :=
       [all_slice [[]; [ax "z"]] (sh "mesh3d" [closed [ax "x"]; closed [ax "y"; ax "z"]])] |}.

Definition all_slice_with_subaxis : TestCase :=
  {| test_name := "all_slice_with_subaxis";
     source := sh "mesh3d_4x2x4" [closed [sub "x" 1 2]; closed [ax "y"]];
     target := sh "mesh3d_4x2x4" [closed [ax "x"]; closed [ax "y"; sub "z" 1 2]];
     expected :=
       [all_slice [[sub "x" 2 2]; [sub "z" 1 2]] (sh "mesh3d_4x2x4" [closed [ax "x"]; closed [ax "y"; sub "z" 1 2]])] |}.

Definition all_to_all_single_axis : TestCase :=
  {| test_name := "all_to_all_single_axis";
     source := sh "mesh3d" [closed [ax "x"]; closed [ax "y"]; closed []];
     target := sh "mesh3d" [closed []; closed [ax "y"]; closed [ax "x"]];
     expected :=
       [all_to_all [mkAllToAllParam [ax "x"] 0 2] (sh "mesh3d" [closed []; closed [ax "y"]; closed [ax "x"]])] |}.

Definition all_to_all_multiple_axes : TestCase :=
  {| test_name := "all_to_all_multiple_axes";
     source := sh "mesh3d" [closed [ax "x"]; closed []; closed [ax "y"; ax "z"]];
     target := sh "mesh3d" [closed [ax "x"]; closed [ax "y"; ax "z"]; closed []];
     expected :=
       [all_to_all [mkAllToAllParam [ax "y"; ax "z"] 2 1] (sh "mesh3d" [closed [ax "x"]; closed [ax "y"; ax "z"]; closed []])] |}.

Definition two_all_to_alls_different_tgt_dims : TestCase :=
  {| test_name := "two_all_to_alls_different_tgt_dims";
     source := sh "mesh3d_4x2x4" [closed []; closed [ax "y"; ax "x"]; closed []];
     target := sh "mesh3d_4x2x4" [closed [ax "x"]; closed []; closed [ax "y"]];
     expected :=
       [all_to_all [mkAllToAllParam [ax "x"] 1 0] (sh "mesh3d_4x2x4" [closed [ax "x"]; closed [ax "y"]; closed []]);
        all_to_all [mkAllToAllParam [ax "y"] 1 2] (sh "mesh3d_4x2x4" [closed [ax "x"]; closed []; closed [ax "y"]])] |}.

Definition two_all_to_alls_tgt_dim_not_empty : TestCase :=
  {| test_name := "two_all_to_alls_tgt_dim_not_empty";
     source := sh "mesh3d_4x2x4" [closed [ax "x"]; closed [ax "y"; ax "z"]; closed []];
     target := sh "mesh3d_4x2x4" [closed [ax "x"; ax "z"]; closed []; closed [ax "y"]];
     expected :=
       [all_to_all [mkAllToAllParam [ax "z"] 1 0] (sh "mesh3d_4x2x4" [closed [ax "x"; ax "z"]; closed [ax "y"]; closed []]);
        all_to_all [mkAllToAllParam [ax "y"] 1 2] (sh "mesh3d_4x2x4" [closed [ax "x"; ax "z"]; closed []; closed [ax "y"]])] |}.

Definition slice_then_all_to_alls : TestCase :=
  {| test_name := "slice_then_all_to_alls";
     source := sh "mesh3d_4x2x4" [closed []; closed [ax "y"; ax "z"]; closed []];
     target := sh "mesh3d_4x2x4" [closed [ax "x"; ax "z"]; closed []; closed [ax "y"]];
     expected :=
       [all_slice [[ax "x"]; []; []] (sh "mesh3d_4x2x4" [closed [ax "x"]; closed [ax "y"; ax "z"]; closed []]);
        all_to_all [mkAllToAllParam [ax "z"] 1 0] (sh "mesh3d_4x2x4" [closed [ax "x"; ax "z"]; closed [ax "y"]; closed []]);
        all_to_all [mkAllToAllParam [ax "y"] 1 2] (sh "mesh3d_4x2x4" [closed [ax "x"; ax "z"]; closed []; closed [ax "y"]])] |}.

Definition all_to_all_subaxis_then_all_gather : TestCase :=
  {| test_name := "all_to_all_subaxis_then_all_gather";
     source := sh "mesh3d_4x2x4" [closed [ax "x"]; closed [ax "z"; ax "y"]; closed []];
     target := sh "mesh3d_4x2x4" [closed [ax "x"; sub "z" 2 2]; closed []; closed [ax "y"]];
     expected :=
       [all_to_all [mkAllToAllParam [ax "y"] 1 2] (sh "mesh3d_4x2x4" [closed [ax "x"]; closed [ax "z"]; closed [ax "y"]]);
        all_to_all [mkAllToAllParam [sub "z" 2 2] 1 0] (sh "mesh3d_4x2x4" [closed [ax "x"; sub "z" 2 2]; closed [sub "z" 1 2]; closed [ax "y"]]);
        all_gather [[]; [sub "z" 1 2]; []] (sh "mesh3d_4x2x4" [closed [ax "x"; sub "z" 2 2]; closed []; closed [ax "y"]])] |}.

Definition all_to_all_subaxis_and_full_axis_then_all_gather : TestCase :=
  {| test_name := "all_to_all_subaxis_and_full_axis_then_all_gather";
     source := sh "mesh4d_z4" [closed [ax "x"]; closed [ax "z"; ax "w"; ax "y"]; closed []];
     target := sh "mesh4d_z4" [closed [ax "x"; sub "z" 2 2; ax "w"]; closed []; closed [ax "y"]];
     expected :=
       [all_to_all [mkAllToAllParam [ax "y"] 1 2] (sh "mesh4d_z4" [closed [ax "x"]; closed [ax "z"; ax "w"]; closed [ax "y"]]);
        all_to_all [mkAllToAllParam [sub "z" 2 2; ax "w"] 1 0] (sh "mesh4d_z4" [closed [ax "x"; sub "z" 2 2; ax "w"]; closed [sub "z" 1 2]; closed [ax "y"]]);
        all_gather [[]; [sub "z" 1 2]; []] (sh "mesh4d_z4" [closed [ax "x"; sub "z" 2 2; ax "w"]; closed []; closed [ax "y"]])] |}.

Definition slice_on_src_dim_then_all_to_all_subaxis : TestCase :=
  {| test_name := "slice_on_src_dim_then_all_to_all_subaxis";
     source := sh "mesh4d_w4" [closed []; closed [sub "w" 1 2]; closed []];
     target := sh "mesh4d_w4" [closed [ax "w"]; closed []; closed []];
     expected :=
       [all_slice [[sub "w" 2 2]; []; []] (sh "mesh4d_w4" [closed [sub "w" 2 2]; closed [sub "w" 1 2]; closed []]);
        collective_permute (sh "mesh4d_w4" [closed [sub "w" 1 2]; closed [sub "w" 2 2]; closed []]);
        all_to_all [mkAllToAllParam [sub "w" 2 2] 1 0] (sh "mesh4d_w4" [closed [ax "w"]; closed []; closed []])] |}.

Definition slice_on_src_dim_then_all_to_all_multiple_axes : TestCase :=
  {| test_name := "slice_on_src_dim_then_all_to_all_multiple_axes";
     source := sh "mesh4d_w4" [closed []; closed [ax "x"]; closed []];
     target := sh "mesh4d_w4" [closed []; closed []; closed [ax "x"; ax "y"; ax "z"]];
     expected :=
       [all_slice [[]; []; [ax "y"; ax "z"]] (sh "mesh4d_w4" [closed []; closed [ax "x"]; closed [ax "y"; ax "z"]]);
        collective_permute (sh "mesh4d_w4" [closed []; closed [ax "z"]; closed [ax "x"; ax "y"]]);
        all_to_all [mkAllToAllParam [ax "z"] 1 2] (sh "mesh4d_w4" [closed []; closed []; closed [ax "x"; ax "y"; ax "z"]])] |}.

Definition replace_same_size_axes_same_dim : TestCase :=
  {| test_name := "replace_same_size_axes_same_dim";
     source := sh "mesh3d" [closed [ax "z"]; closed [ax "y"]];
     target := sh "mesh3d" [closed [ax "z"]; closed [ax "x"]];
     expected :=
       [collective_permute (sh "mesh3d" [closed [ax "z"]; closed [ax "x"]])] |}.

Definition replace_smaller_axis_with_bigger_same_dim : TestCase :=
  {| test_name := "replace_smaller_axis_with_bigger_same_dim";
     source := sh "mesh3d_4x2x4" [closed [ax "z"]; closed [ax "y"]];
     target := sh "mesh3d_4x2x4" [closed [ax "z"]; closed [ax "x"]];
     expected :=
       [all_slice [[]; [sub "x" 1 2]] (sh "mesh3d_4x2x4" [closed [ax "z"]; closed [ax "y"; sub "x" 1 2]]);
        collective_permute (sh "mesh3d_4x2x4" [closed [ax "z"]; closed [ax "x"]])] |}.

Definition replace_bigger_axis_with_smaller_same_dim : TestCase :=
  {| test_name := "replace_bigger_axis_with_smaller_same_dim";
     source := sh "mesh3d_4x2x4" [closed [ax "z"]; closed [ax "x"]];
     target := sh "mesh3d_4x2x4" [closed [ax "z"]; closed [ax "y"]];
     expected :=
       [collective_permute (sh "mesh3d_4x2x4" [closed [ax "z"]; closed [ax "y"; sub "x" 1 2]]);
        all_gather [[]; [sub "x" 1 2]] (sh "mesh3d_4x2x4" [closed [ax "z"]; closed [ax "y"]])] |}.

Definition replace_major_most_axis_in_dim : TestCase :=
  {| test_name := "replace_major_most_axis_in_dim";
     source := sh "mesh4d" [closed [ax "x"; ax "y"; ax "z"]; closed []];
     target := sh "mesh4d" [closed [ax "w"; ax "y"; ax "z"]; closed []];
     expected :=
       [collective_permute (sh "mesh4d" [closed [ax "w"; ax "y"; ax "z"]; closed []])] |}.

Definition replace_same_size_axes_diff_dims : TestCase :=
  {| test_name := "replace_same_size_axes_diff_dims";
     source := sh "mesh2d" [closed [ax "x"]; closed []];
     target := sh "mesh2d" [closed []; closed [ax "y"]];
     expected :=
       [all_slice [[]; [ax "y"]] (sh "mesh2d" [closed [ax "x"]; closed [ax "y"]]);
        all_gather [[ax "x"]; []] (sh "mesh2d" [closed []; closed [ax "y"]])] |}.

Definition replace_bigger_axis_with_smaller_diff_dims : TestCase :=
  {| test_name := "replace_bigger_axis_with_smaller_diff_dims";
     source := sh "mesh2d_4x2" [closed [ax "x"]; closed []];
     target := sh "mesh2d_4x2" [closed []; closed [ax "y"]];
     expected :=
       [all_slice [[]; [ax "y"]] (sh "mesh2d_4x2" [closed [ax "x"]; closed [ax "y"]]);
        all_gather [[ax "x"]; []] (sh "mesh2d_4x2" [closed []; closed [ax "y"]])] |}.

Definition replace_multiple_axes_diff_dims : TestCase :=
  {| test_name := "replace_multiple_axes_diff_dims";
     source := sh "mesh6d" [closed [ax "x"]; closed [ax "y"; ax "z"]; closed []; closed []];
     target := sh "mesh6d" [closed []; closed []; closed [ax "w"; ax "u"]; closed [ax "v"]];
     expected :=
       [all_slice [[]; []; [ax "w"; ax "u"]; [ax "v"]] (sh "mesh6d" [closed [ax "x"]; closed [ax "y"; ax "z"]; closed [ax "w"; ax "u"]; closed [ax "v"]]);
        all_gather [[ax "x"]; [ax "y"; ax "z"]; []; []] (sh "mesh6d" [closed []; closed []; closed [ax "w"; ax "u"]; closed [ax "v"]])] |}.

Definition replace_smaller_axis_with_bigger_diff_dims : TestCase :=
  {| test_name := "replace_smaller_axis_with_bigger_diff_dims";
     source := sh "mesh2d_4x2" [closed [ax "y"]; closed []];
     target := sh "mesh2d_4x2" [closed []; closed [ax "x"]];
     expected :=
       [all_slice [[]; [ax "x"]] (sh "mesh2d_4x2" [closed [ax "y"]; closed [ax "x"]]);
        all_gather [[ax "y"]; []] (sh "mesh2d_4x2" [closed []; closed [ax "x"]])] |}.

Definition slice_tgt_dim_then_all_to_all_then_all_gather : TestCase :=
  {| test_name := "slice_tgt_dim_then_all_to_all_then_all_gather";
     source := sh "mesh4d_w4" [closed [ax "y"; ax "z"; ax "w"]; closed []];
     target := sh "mesh4d_w4" [closed [ax "y"]; closed [ax "x"; ax "w"]];
     expected :=
       [all_slice [[]; [ax "x"]] (sh "mesh4d_w4" [closed [ax "y"; ax "z"; ax "w"]; closed [ax "x"]]);
        all_to_all [mkAllToAllParam [ax "w"] 0 1] (sh "mesh4d_w4" [closed [ax "y"; ax "z"]; closed [ax "x"; ax "w"]]);
        all_gather [[ax "z"]; []] (sh "mesh4d_w4" [closed [ax "y"]; closed [ax "x"; ax "w"]])] |}.

Definition swap_same_size_axes_between_dims : TestCase :=
  {| test_name := "swap_same_size_axes_between_dims";
     source := sh "mesh2d" [closed [ax "x"]; closed [ax "y"]];
     target := sh "mesh2d" [closed [ax "y"]; closed [ax "x"]];
     expected :=
       [collective_permute (sh "mesh2d" [closed [ax "y"]; closed [ax "x"]])] |}.

Definition swap_diff_size_axes_between_dims : TestCase :=
  {| test_name := "swap_diff_size_axes_between_dims";
     source := sh "mesh2d_4x2" [closed [ax "x"]; closed [ax "y"]];
     target := sh "mesh2d_4x2" [closed [ax "y"]; closed [ax "x"]];
     expected :=
       [collective_permute (sh "mesh2d_4x2" [closed [ax "y"; sub "x" 2 2]; closed [sub "x" 1 2]]);
        all_to_all [mkAllToAllParam [sub "x" 2 2] 0 1] (sh "mesh2d_4x2" [closed [ax "y"]; closed [ax "x"]])] |}.

Definition slice_and_swap_axes_between_dims : TestCase :=
  {| test_name := "slice_and_swap_axes_between_dims";
     source := sh "mesh3d" [closed [ax "x"]; closed [ax "y"]];
     target := sh "mesh3d" [closed [ax "x"; ax "y"]; closed [ax "z"]];
     expected :=
       [all_slice [[ax "z"]; []] (sh "mesh3d" [closed [ax "x"; ax "z"]; closed [ax "y"]]);
        collective_permute (sh "mesh3d" [closed [ax "x"; ax "y"]; closed [ax "z"]])] |}.

Definition slice_sub_axes_then_swap_between_dims : TestCase :=
  {| test_name := "slice_sub_axes_then_swap_between_dims";
     source := sh "mesh3d_4x2x4" [closed [ax "z"]; closed [ax "y"]];
     target := sh "mesh3d_4x2x4" [closed [ax "y"; ax "z"]; closed [ax "x"]];
     expected :=
       [all_slice [[sub "x" 2 2]; [sub "x" 1 2]] (sh "mesh3d_4x2x4" [closed [ax "z"; sub "x" 2 2]; closed [ax "y"; sub "x" 1 2]]);
        collective_permute (sh "mesh3d_4x2x4" [closed [ax "y"; ax "z"]; closed [ax "x"]])] |}.

Definition swap_sub_axes_then_all_to_all_and_all_gather : TestCase :=
  {| test_name := "swap_sub_axes_then_all_to_all_and_all_gather";
     source := sh "mesh3d_4x2x4" [closed [ax "z"; ax "y"]; closed [ax "x"]];
     target := sh "mesh3d_4x2x4" [closed [ax "x"; ax "z"]; closed []];
     expected :=
       [collective_permute (sh "mesh3d_4x2x4" [closed [ax "x"; sub "z" 1 2]; closed [ax "y"; sub "z" 2 2]]);
        all_to_all [mkAllToAllParam [sub "z" 2 2] 1 0] (sh "mesh3d_4x2x4" [closed [ax "x"; ax "z"]; closed [ax "y"]]);
        all_gather [[]; [ax "y"]] (sh "mesh3d_4x2x4" [closed [ax "x"; ax "z"]; closed []])] |}.

Definition reorder_axes_single_dim : TestCase :=
  {| test_name := "reorder_axes_single_dim";
     source := sh "mesh3d_4x2x4" [closed [ax "x"; ax "y"]; closed [ax "z"]];
     target := sh "mesh3d_4x2x4" [closed [ax "y"; ax "x"]; closed [ax "z"]];
     expected :=
       [collective_permute (sh "mesh3d_4x2x4" [closed [ax "y"; ax "x"]; closed [ax "z"]])] |}.

Definition reorder_axes_across_dims : TestCase :=
  {| test_name := "reorder_axes_across_dims";
     source := sh "mesh3d_4x2x4" [closed [ax "x"; ax "y"]; closed [ax "z"]];
     target := sh "mesh3d_4x2x4" [closed [ax "y"; ax "z"]; closed [ax "x"]];
     expected :=
       [collective_permute (sh "mesh3d_4x2x4" [closed [ax "y"; ax "z"]; closed [ax "x"]])] |}.

Definition slice_then_reorder_axes : TestCase :=
  {| test_name := "slice_then_reorder_axes";
     source := sh "mesh2d" [closed [ax "y"]; closed []; closed []];
     target := sh "mesh2d" [closed [ax "x"; ax "y"]; closed []; closed []];
     expected :=
       [all_slice [[ax "x"]; []; []] (sh "mesh2d" [closed [ax "y"; ax "x"]; closed []; closed []]);
        collective_permute (sh "mesh2d" [closed [ax "x"; ax "y"]; closed []; closed []])] |}.

Definition reorder_axes_for_all_gather : TestCase :=
  {| test_name := "reorder_axes_for_all_gather";
     source := sh "mesh3d" [closed [ax "y"; ax "x"; ax "z"]; closed []];
     target := sh "mesh3d" [closed [ax "z"]; closed []];
     expected :=
       [collective_permute (sh "mesh3d" [closed [ax "z"; ax "y"; ax "x"]; closed []]);
        all_gather [[ax "y"; ax "x"]; []] (sh "mesh3d" [closed [ax "z"]; closed []])] |}.

Definition reorder_axes_for_all_to_all_then_all_gather_single_axis : TestCase :=
  {| test_name := "reorder_axes_for_all_to_all_then_all_gather_single_axis";
     source := sh "mesh3d" [closed [ax "y"; ax "x"; ax "z"]; closed []];
     target := sh "mesh3d" [closed [ax "z"]; closed [ax "y"]];
     expected :=
       [collective_permute (sh "mesh3d" [closed [ax "z"; ax "x"; ax "y"]; closed []]);
        all_to_all [mkAllToAllParam [ax "y"] 0 1] (sh "mesh3d" [closed [ax "z"; ax "x"]; closed [ax "y"]]);
        all_gather [[ax "x"]; []] (sh "mesh3d" [closed [ax "z"]; closed [ax "y"]])] |}.

Definition reorder_axes_for_all_to_all_then_all_gather_remaining_axes : TestCase :=
  {| test_name := "reorder_axes_for_all_to_all_then_all_gather_remaining_axes";
     source := sh "mesh3d" [closed [ax "z"; ax "y"; ax "x"]; closed []];
     target := sh "mesh3d" [closed []; closed [ax "y"]];
     expected :=
       [collective_permute (sh "mesh3d" [closed [ax "z"; ax "x"; ax "y"]; closed []]);
        all_to_all [mkAllToAllParam [ax "y"] 0 1] (sh "mesh3d" [closed [ax "z"; ax "x"]; closed [ax "y"]]);
        all_gather [[ax "z"; ax "x"]; []] (sh "mesh3d" [closed []; closed [ax "y"]])] |}.

Definition all_to_all_axes_at_src_out_of_order : TestCase :=
  {| test_name := "all_to_all_axes_at_src_out_of_order";
     source := sh "mesh2d" [closed []; closed [ax "y"; ax "x"]; closed []];
     target := sh "mesh2d" [closed [ax "x"; ax "y"]; closed []; closed []];
     expected :=
       [collective_permute (sh "mesh2d" [closed []; closed [ax "x"; ax "y"]; closed []]);
        all_to_all [mkAllToAllParam [ax "x"; ax "y"] 1 0] (sh "mesh2d" [closed [ax "x"; ax "y"]; closed []; closed []])] |}.

Definition all_to_all_axes_at_src_and_tgt_out_of_order : TestCase :=
  {| test_name := "all_to_all_axes_at_src_and_tgt_out_of_order";
     source := sh "mesh3d_4x2x4" [closed [ax "z"]; closed [ax "y"; ax "x"]; closed []];
     target := sh "mesh3d_4x2x4" [closed [ax "x"; ax "y"; ax "z"]; closed []; closed []];
     expected :=
       [collective_permute (sh "mesh3d_4x2x4" [closed [ax "x"]; closed [ax "y"; ax "z"]; closed []]);
        all_to_all [mkAllToAllParam [ax "y"; ax "z"] 1 0] (sh "mesh3d_4x2x4" [closed [ax "x"; ax "y"; ax "z"]; closed []; closed []])] |}.

Definition all_to_all_two_tgt_dims_src_out_of_order : TestCase :=
  {| test_name := "all_to_all_two_tgt_dims_src_out_of_order";
     source := sh "mesh3d_4x2x4" [closed []; closed [ax "x"; ax "z"; ax "y"]; closed []];
     target := sh "mesh3d_4x2x4" [closed [ax "x"; ax "y"]; closed []; closed [ax "z"]];
     expected :=
       [collective_permute (sh "mesh3d_4x2x4" [closed []; closed [ax "x"; ax "y"; ax "z"]; closed []]);
        all_to_all [mkAllToAllParam [ax "z"] 1 2] (sh "mesh3d_4x2x4" [closed []; closed [ax "x"; ax "y"]; closed [ax "z"]]);
        all_to_all [mkAllToAllParam [ax "x"; ax "y"] 1 0] (sh "mesh3d_4x2x4" [closed [ax "x"; ax "y"]; closed []; closed [ax "z"]])] |}.

Definition all_to_all_two_tgt_dims_src_out_of_order_2 : TestCase :=
  {| test_name := "all_to_all_two_tgt_dims_src_out_of_order_2";
     source := sh "mesh3d_4x2x4" [closed []; closed [ax "y"; ax "z"; ax "x"]; closed []];
     target := sh "mesh3d_4x2x4" [closed [ax "x"; ax "y"]; closed []; closed [ax "z"]];
     expected :=
       [collective_permute (sh "mesh3d_4x2x4" [closed []; closed [ax "x"; ax "y"; ax "z"]; closed []]);
        all_to_all [mkAllToAllParam [ax "z"] 1 2] (sh "mesh3d_4x2x4" [closed []; closed [ax "x"; ax "y"]; closed [ax "z"]]);
        all_to_all [mkAllToAllParam [ax "x"; ax "y"] 1 0] (sh "mesh3d_4x2x4" [closed [ax "x"; ax "y"]; closed []; closed [ax "z"]])] |}.

Definition all_to_all_and_gather_src_dim_out_of_order : TestCase :=
  {| test_name := "all_to_all_and_gather_src_dim_out_of_order";
     source := sh "mesh4d_z4" [closed [ax "x"]; closed [ax "y"; ax "z"; ax "w"]; closed []];
     target := sh "mesh4d_z4" [closed [ax "x"; sub "z" 2 2; ax "w"]; closed []; closed [ax "y"]];
     expected :=
       [collective_permute (sh "mesh4d_z4" [closed [ax "x"]; closed [ax "z"; ax "w"; ax "y"]; closed []]);
        all_to_all [mkAllToAllParam [ax "y"] 1 2] (sh "mesh4d_z4" [closed [ax "x"]; closed [ax "z"; ax "w"]; closed [ax "y"]]);
        all_to_all [mkAllToAllParam [sub "z" 2 2; ax "w"] 1 0] (sh "mesh4d_z4" [closed [ax "x"; sub "z" 2 2; ax "w"]; closed [sub "z" 1 2]; closed [ax "y"]]);
        all_gather [[]; [sub "z" 1 2]; []] (sh "mesh4d_z4" [closed [ax "x"; sub "z" 2 2; ax "w"]; closed []; closed [ax "y"]])] |}.

Definition reorder_sub_axes : TestCase :=
  {| test_name := "reorder_sub_axes";
     source := sh "mesh4d_w4" [closed [ax "y"; sub "w" 1 2; ax "z"; sub "w" 2 2]; closed []];
     target := sh "mesh4d_w4" [closed [ax "y"]; closed [ax "x"; ax "w"]];
     expected :=
       [all_slice [[]; [ax "x"]] (sh "mesh4d_w4" [closed [ax "y"; sub "w" 1 2; ax "z"; sub "w" 2 2]; closed [ax "x"]]);
        collective_permute (sh "mesh4d_w4" [closed [ax "y"; ax "z"; ax "w"]; closed [ax "x"]]);
        all_to_all [mkAllToAllParam [ax "w"] 0 1] (sh "mesh4d_w4" [closed [ax "y"; ax "z"]; closed [ax "x"; ax "w"]]);
        all_gather [[ax "z"]; []] (sh "mesh4d_w4" [closed [ax "y"]; closed [ax "x"; ax "w"]])] |}.

Definition replace_sub_axes : TestCase :=
  {| test_name := "replace_sub_axes";
     source := sh "mesh4d_w4" [closed [ax "y"; ax "z"; sub "w" 2 2]; closed []];
     target := sh "mesh4d_w4" [closed [ax "y"]; closed [ax "x"; ax "w"]];
     expected :=
       [all_slice [[]; [ax "x"; sub "w" 1 2]] (sh "mesh4d_w4" [closed [ax "y"; ax "z"; sub "w" 2 2]; closed [ax "x"; sub "w" 1 2]]);
        all_to_all [mkAllToAllParam [sub "w" 2 2] 0 1] (sh "mesh4d_w4" [closed [ax "y"; ax "z"]; closed [ax "x"; ax "w"]]);
        all_gather [[ax "z"]; []] (sh "mesh4d_w4" [closed [ax "y"]; closed [ax "x"; ax "w"]])] |}.

Definition replace_sub_axes_2 : TestCase :=
  {| test_name := "replace_sub_axes_2";
     source := sh "mesh4d_w4" [closed [ax "y"; ax "z"; sub "w" 1 2]; closed []];
     target := sh "mesh4d_w4" [closed [ax "y"]; closed [ax "x"; ax "w"]];
     expected :=
       [all_slice [[]; [ax "x"; sub "w" 2 2]] (sh "mesh4d_w4" [closed [ax "y"; ax "z"; sub "w" 1 2]; closed [ax "x"; sub "w" 2 2]]);
        collective_permute (sh "mesh4d_w4" [closed [ax "y"; ax "z"; sub "w" 2 2]; closed [ax "x"; sub "w" 1 2]]);
        all_to_all [mkAllToAllParam [sub "w" 2 2] 0 1] (sh "mesh4d_w4" [closed [ax "y"; ax "z"]; closed [ax "x"; ax "w"]]);
        all_gather [[ax "z"]; []] (sh "mesh4d_w4" [closed [ax "y"]; closed [ax "x"; ax "w"]])] |}.

Definition replace_sub_axes_3 : TestCase :=
  {| test_name := "replace_sub_axes_3";
     source := sh "mesh4d_w16" [closed [ax "y"; sub "w" 4 2; ax "z"; sub "w" 1 2]; closed []];
     target := sh "mesh4d_w16" [closed [ax "y"]; closed [ax "x"; sub "w" 2 8]];
     expected :=
       [all_slice [[]; [ax "x"; sub "w" 2 2; sub "w" 8 2]] (sh "mesh4d_w16" [closed [ax "y"; sub "w" 4 2; ax "z"; sub "w" 1 2]; closed [ax "x"; sub "w" 2 2; sub "w" 8 2]]);
        collective_permute (sh "mesh4d_w16" [closed [ax "y"; ax "z"; sub "w" 1 2; sub "w" 8 2]; closed [ax "x"; sub "w" 2 4]]);
        all_to_all [mkAllToAllParam [sub "w" 8 2] 0 1] (sh "mesh4d_w16" [closed [ax "y"; ax "z"; sub "w" 1 2]; closed [ax "x"; sub "w" 2 8]]);
        all_gather [[ax "z"; sub "w" 1 2]; []] (sh "mesh4d_w16" [closed [ax "y"]; closed [ax "x"; sub "w" 2 8]])] |}.

Definition replace_sub_axes_4 : TestCase :=
  {| test_name := "replace_sub_axes_4";
     source := sh "mesh4d_w16" [closed [ax "y"; sub "w" 4 2; ax "z"; sub "w" 1 2]; closed []];
     target := sh "mesh4d_w16" [closed [ax "y"]; closed [ax "x"; ax "w"]];
     expected :=
       [all_slice [[]; [ax "x"; sub "w" 2 2; sub "w" 8 2]] (sh "mesh4d_w16" [closed [ax "y"; sub "w" 4 2; ax "z"; sub "w" 1 2]; closed [ax "x"; sub "w" 2 2; sub "w" 8 2]]);
        collective_permute (sh "mesh4d_w16" [closed [ax "y"; ax "z"; sub "w" 4 4]; closed [ax "x"; sub "w" 1 4]]);
        all_to_all [mkAllToAllParam [sub "w" 4 4] 0 1] (sh "mesh4d_w16" [closed [ax "y"; ax "z"]; closed [ax "x"; ax "w"]]);
        all_gather [[ax "z"]; []] (sh "mesh4d_w16" [closed [ax "y"]; closed [ax "x"; ax "w"]])] |}.

Definition testCases : list TestCase :=
  [ redundant_reshard;
    all_gather_single_axis;
    all_gather_multiple_axes;
    all_gather_multiple_dims;
    all_gather_with_subaxis;
    all_slice_multiple_axes;
    all_slice_minor_axis;
    all_slice_with_subaxis;
    all_to_all_single_axis;
    all_to_all_multiple_axes;
    two_all_to_alls_different_tgt_dims;
    two_all_to_alls_tgt_dim_not_empty;
    slice_then_all_to_alls;
    all_to_all_subaxis_then_all_gather;
    all_to_all_subaxis_and_full_axis_then_all_gather;
    slice_on_src_dim_then_all_to_all_subaxis;
    slice_on_src_dim_then_all_to_all_multiple_axes;
    replace_same_size_axes_same_dim;
    replace_smaller_axis_with_bigger_same_dim;
    replace_bigger_axis_with_smaller_same_dim;
    replace_major_most_axis_in_dim;
    replace_same_size_axes_diff_dims;
    replace_bigger_axis_with_smaller_diff_dims;
    replace_multiple_axes_diff_dims;
    replace_smaller_axis_with_bigger_diff_dims;
    slice_tgt_dim_then_all_to_all_then_all_gather;
    swap_same_size_axes_between_dims;
    swap_diff_size_axes_between_dims;
    slice_and_swap_axes_between_dims;
    slice_sub_axes_then_swap_between_dims;
    swap_sub_axes_then_all_to_all_and_all_gather;
    reorder_axes_single_dim;
    reorder_axes_across_dims;
    slice_then_reorder_axes;
    reorder_axes_for_all_gather;
    reorder_axes_for_all_to_all_then_all_gather_single_axis;
    reorder_axes_for_all_to_all_then_all_gather_remaining_axes;
    all_to_all_axes_at_src_out_of_order;
    all_to_all_axes_at_src_and_tgt_out_of_order;
    all_to_all_two_tgt_dims_src_out_of_order;
    all_to_all_two_tgt_dims_src_out_of_order_2;
    all_to_all_and_gather_src_dim_out_of_order;
    reorder_sub_axes;
    replace_sub_axes;
    replace_sub_axes_2;
    replace_sub_axes_3;
    replace_sub_axes_4 ].


Definition is_permute (c : Collective) : bool :=
  match c with collective_permute _ => true | _ => false end.
Definition is_slice (c : Collective) : bool :=
  match c with all_slice _ _ => true | _ => false end.
Definition is_all_to_all (c : Collective) : bool :=
  match c with all_to_all _ _ => true | _ => false end.
Definition is_gather (c : Collective) : bool :=
  match c with all_gather _ _ => true | _ => false end.

End ReshardExpectations.

(* ===================================================================== *)
(** ** All-to-all parameter lists *)
(* ===================================================================== *)

Module ParamLists.
Import Attrs.

(** Modelled from the spec: the sub-axis overlap test of the mesh and axis
    model (ir/dialect.cc is not among the sources).  Two references to the
    same axis overlap unless both are windows and one ends where or before
    the other starts; a window [(pre_size)size] covers the range from
    [pre_size] to [pre_size * size]. *)
Definition axisOverlaps (a b : AxisRefAttr) : bool :=
  bool_decide (name a = name b) &&
  match sub_axis_info a, sub_axis_info b with
  | Some i, Some j =>
      negb (pre_size i * size i <=? pre_size j) && negb (pre_size j * size j <=? pre_size i)
  | _, _ => true
  end.

(** Modelled from the spec: [AllToAllParamListAttr::overlaps] (ir/dialect.cc
    is not among the sources); the spec fuses all-to-alls "whose axis sets
    are disjoint". *)
Definition overlaps (p q : AllToAllParamListAttr) : bool :=
  existsb (λ a, existsb (λ b,
    existsb (λ x, existsb (axisOverlaps x) (param_axes b)) (param_axes a)) q) p.

(** Modelled from the spec: the order the parameters are sorted by: source
    dimension first, target dimension second. *)
Definition paramLe (a b : AllToAllParamAttr) : bool :=
  (src_dim a <? src_dim b) || ((src_dim a =? src_dim b) && (tgt_dim a <=? tgt_dim b)).

(** Modelled from the spec: insertion into a sorted parameter list. *)
Fixpoint insertParam (a : AllToAllParamAttr) (l : AllToAllParamListAttr) : AllToAllParamListAttr :=
  match l with
  | [] => [a]
  | b :: rest => if paramLe a b then a :: b :: rest else b :: insertParam a rest
  end.

(** Modelled from the spec: [AllToAllParamListAttr::combineAndSort]
    (ir/dialect.cc is not among the sources); the spec fuses "by combining
    and sorting their axis-parameter lists".  The parameters of both lists,
    ordered by source dimension, then target dimension. *)
Definition combineAndSort (p q : AllToAllParamListAttr) : AllToAllParamListAttr :=
  foldr insertParam [] (p ++ q).

End ParamLists.

(* ===================================================================== *)
(** ** Resharding synthesis: the identity case *)
(* ===================================================================== *)

Module Synthesis.
Import Attrs ReshardExpectations.

(** Modelled from the spec: axis lookup by name (ir/dialect.cc is not among
    the sources). *)
Fixpoint axisSize (axs : list MeshAxisAttr) (n : string) : option Z :=
  match axs with
  | [] => None
  | a :: rest => if decide (axis_name a = n) then Some (axis_size a) else axisSize rest n
  end.

(** Modelled from the spec: the mesh a sharding refers to, given the mesh
    symbols of the module. *)
Definition resolveMesh (symbols : list (string * MeshAttr)) (m : MeshOrRef) : option MeshAttr :=
  match m with
  | InlinedMesh mesh => Some mesh
  | MeshRef s => r ← list_find (λ p, p.1 = s) symbols; Some r.2.2
  end.

(** Modelled from the spec: the window of an axis reference. *)
Definition windowOf (mesh : option MeshAttr) (a : AxisRefAttr) : option (Z * Z) :=
  match sub_axis_info a with
  | Some i => Some (pre_size i, size i)
  | None => mesh ≫= λ m, axisSize (mesh_axes m) (name a) ≫= λ s, Some (1, s)
  end.

(** Modelled from the spec: the reference to a window: the full axis when the
    window covers it. *)
Definition refOfWindow (mesh : option MeshAttr) (n : string) (pre sz : Z) : AxisRefAttr :=
  match mesh ≫= λ m, axisSize (mesh_axes m) n with
  | Some full => if decide (pre = 1 ∧ sz = full) then mkAxisRef n None
                 else mkAxisRef n (Some (mkSubAxisInfo pre sz))
  | None => mkAxisRef n (Some (mkSubAxisInfo pre sz))
  end.

(** Modelled from the spec: "combining two adjacent windows of the same
    axis that together cover a larger contiguous region must yield a single
    merged AxisRef". *)
Definition mergeAdjacent (mesh : option MeshAttr) (a b : AxisRefAttr) : option AxisRefAttr :=
  if decide (name a = name b) then
    match windowOf mesh a, windowOf mesh b with
    | Some (pa, sa), Some (pb, sb) =>
        if decide (pa * sa = pb) then Some (refOfWindow mesh (name a) pa (sa * sb)) else None
    | _, _ => None
    end
  else None.

(** Modelled from the spec: the canonical sub-axis merge of an axis list. *)
Fixpoint mergeAxes (mesh : option MeshAttr) (l : list AxisRefAttr) : list AxisRefAttr :=
  match l with
  | [] => []
  | a :: rest =>
      match mergeAxes mesh rest with
      | [] => [a]
      | b :: rest' =>
          match mergeAdjacent mesh a b with
          | Some c => c :: rest'
          | None => a :: b :: rest'
          end
      end
  end.

(** Modelled from the spec: what is compared of one dimension: the merged axes
    and the priority, not the open/closed flag. *)
Definition dimKey (mesh : option MeshAttr) (d : DimensionShardingAttr)
    : list AxisRefAttr * option Z :=
  (mergeAxes mesh (axes d), priority d).

(** Modelled from the spec: "a target identical to source (after canonical
    sub-axis merge)"; the open/closed flags are not compared, as in the
    expectation [redundant_reshard]. *)
Definition identicalAfterMerge (symbols : list (string * MeshAttr))
    (src tgt : TensorShardingAttr) : bool :=
  let mesh := resolveMesh symbols (mesh_or_ref src) in
  bool_decide (mesh_or_ref src = mesh_or_ref tgt)
  && bool_decide (dimKey mesh <$> dim_shardings src = dimKey mesh <$> dim_shardings tgt)
  && bool_decide (replicated_axes src = replicated_axes tgt)
  && bool_decide (unreduced_axes src = unreduced_axes tgt).

(** Modelled from the spec: "a generated collective's axis-parameter list is
    empty": no dimension of an all-gather or all-slice has an axis, no
    parameter of an all-to-all has one.  A collective-permute has no axis
    parameter. *)
Definition hasEmptyAxisParameters (c : Collective) : bool :=
  match c with
  | all_gather a _ | all_slice a _ => Canonicalization.Sdy_EmptyAxesPerDim a
  | all_to_all ps _ => forallb (λ p, bool_decide (param_axes p = [])) ps
  | collective_permute _ => false
  end.

Section Reshard.
Variable symbols : list (string * MeshAttr).
(** Modelled from the spec: the collectives steps 2 to 5 of the synthesis
    generate for shardings that differ; the pass
    (transforms/export/reshard_to_collectives.cc) is not among the sources
    and nothing is assumed of what it generates. *)
Variable synthesizeSteps : TensorShardingAttr → TensorShardingAttr → list Collective.

(** Modelled from the spec: the resharding synthesis, of which the spec
    fixes the elisions: "a target identical to source (after canonical
    sub-axis merge) yields the empty sequence -- an explicit identity/no-op
    elision, applied also when a generated collective's axis-parameter list
    is empty".  The collectives that are left keep their order. *)
Definition reshardToCollectives (src tgt : TensorShardingAttr) : list Collective :=
  if identicalAfterMerge symbols src tgt then []
  else filter (λ c, hasEmptyAxisParameters c = false) (synthesizeSteps src tgt).
End Reshard.

End Synthesis.

(* ===================================================================== *)
(** ** Propagation *)
(* ===================================================================== *)

Module Propagation.
Import Attrs Enums.

(** *** Directions *)

(** Modelled from the spec: the combination of two propagation directions
    (transforms/propagation/op_priority_propagation.cc is not among the
    sources), as the description of [OpPriorityPropagationPass] words it:
    the most expressive direction wins, [BOTH > BACKWARD == FORWARD >
    NONE], and [FORWARD] seen with [BACKWARD], in either order, is
    [BOTH]. *)
Definition combineDirections (seen d : PropagationDirection) : PropagationDirection :=
  match seen, d with
  | BOTH, _ | _, BOTH => BOTH
  | NONE, x => x
  | x, NONE => x
  | FORWARD, FORWARD => FORWARD
  | BACKWARD, BACKWARD => BACKWARD
  | FORWARD, BACKWARD | BACKWARD, FORWARD => BOTH
  end.

(** Modelled from the spec: the order [NONE < {FORWARD, BACKWARD} < BOTH];
    [FORWARD] and [BACKWARD] are not comparable. *)
Definition directionLe (a b : PropagationDirection) : bool :=
  match a, b with
  | NONE, _ | _, BOTH => true
  | FORWARD, FORWARD | BACKWARD, BACKWARD => true
  | _, _ => false
  end.

(** Modelled from the spec: the direction of an operation when the first
    [k] heuristics are considered. *)
Definition directionToPropagate {Op : Type} (heuristics : list (Op → PropagationDirection))
    (k : nat) (op : Op) : PropagationDirection :=
  foldl combineDirections NONE ((λ h, h op) <$> take k heuristics).

(** *** Conservative propagation *)

(** Modelled from the spec: a would-be assignment of a slice of a mesh axis to
    a dimension: the axis, the size of the part of it already used
    ([used_size]), the size that remains and the size asked for. *)
Record Assignment := mkAssignment {
  asg_axis : string;
  used_size : Z;
  remaining_size : Z;
  requested_size : Z
}.

(** Modelled from the spec: the assignment takes less than what remains of the
    axis. *)
Definition requiresSplit (a : Assignment) : bool :=
  negb (requested_size a =? remaining_size a).

(** Modelled from the spec: the split is into a size that does not evenly
    divide the remaining size. *)
Definition nonDivisibleSplit (a : Assignment) : bool :=
  requiresSplit a && negb (remaining_size a mod requested_size a =? 0).

(** Modelled from the spec: giving an axis reference to a dimension, as a
    would-be assignment of a slice of its mesh axis: a sub-axis
    [(pre_size)size] has [pre_size] used before it, asks for [size] and
    leaves the axis's size divided by [pre_size]; a full axis asks for all
    of the axis.  An axis that is not of the mesh gives no assignment. *)
Definition assignmentOf (mesh : option MeshAttr) (a : AxisRefAttr) : option Assignment :=
  total ← mesh ≫= (λ m, Synthesis.axisSize (mesh_axes m) (name a));
  Some (match sub_axis_info a with
        | Some i => mkAssignment (name a) (pre_size i) (total / pre_size i) (size i)
        | None => mkAssignment (name a) 1 total total
        end).

(** Modelled from the spec: one of the axis references a dimension would
    newly get "requires splitting an axis into a size that does not evenly
    divide the axis's remaining size". *)
Definition needsNonDivisibleSplit (mesh : option MeshAttr) (newAxes : list AxisRefAttr) : bool :=
  existsb (λ a, from_option nonDivisibleSplit false (assignmentOf mesh a)) newAxes.

(** Modelled from the spec: a split axis: a reference to a part of a mesh
    axis. *)
Definition isSplitAxis (a : AxisRefAttr) : bool :=
  match sub_axis_info a with Some _ => true | None => false end.

(** Modelled from the spec: what conservative propagation does not give to a
    dimension.  The description of the option in passes.td is "whether to
    disallow split axes and non-divisible sharding axes during propagation";
    the spec has that the mode "rejects any would-be assignment that requires
    splitting an axis into a size that does not evenly divide the axis's
    remaining size". *)
Definition disallowedWhenConservative (mesh : option MeshAttr)
    (newAxes : list AxisRefAttr) : bool :=
  existsb isSplitAxis newAxes || needsNonDivisibleSplit mesh newAxes.

(** *** The graph and its sharding state *)

(** Modelled from the spec: an operation: its rule and the values it takes and
    defines. *)
Record Operation := mkOperation {
  rule : OpShardingRuleAttr;
  operandValues : list nat;
  resultValues : list nat
}.

#[global] Instance Operation_eq_dec : EqDecision Operation.
Proof. solve_decision. Defined.

(** The per-value assignment table: the sharding of value [v] at
    position [v]. *)
Abbreviation State := (list TensorShardingAttr).

(** Modelled from the spec: a dimension of an operand or result. *)
Definition DimRef : Type := EdgeNodeType * nat * nat.

(** Modelled from the spec: the dimensions of the given tensors that are
    mapped to factor [f]. *)
Definition mappedDimsOf (kind : EdgeNodeType) (values : list nat)
    (mappings : list TensorMappingAttr) (f : Z) : list DimRef :=
  mjoin ((λ vm : nat * TensorMappingAttr,
            omap (λ dm : nat * DimMappingAttr,
                    if bool_decide (f ∈ factor_indices dm.2)
                    then Some (kind, vm.1, dm.1) else None)
                 (imap pair (dim_mappings vm.2)))
         <$> zip values mappings).

(** Modelled from the spec: the operand and result dimensions of an operation
    that are mapped to factor [f]. *)
Definition mappedDims (op : Operation) (f : Z) : list DimRef :=
  mappedDimsOf OPERAND (operandValues op) (operand_mappings (rule op)) f
  ++ mappedDimsOf RESULT (resultValues op) (result_mappings (rule op)) f.

(** Modelled from the spec: the current sharding of dimension [d] of value
    [v]. *)
Definition dimSharding (s : State) (v d : nat) : option DimensionShardingAttr :=
  ts ← s !! v; dim_shardings ts !! d.

Section Engine.
(** The [sdy.mesh] symbols of the module. *)
Variable symbols : list (string * MeshAttr).
(** Modelled from the spec: the option [conservative-propagation] of the
    propagation passes. *)
Variable conservativePropagation : bool.

(** Modelled from the spec: the one update function all mutation goes
    through.  A closed dimension is skipped; an open one takes the
    candidate when its axes are a prefix of it, and is left unchanged
    otherwise (incompatible).  Under [conservative-propagation] the step is
    skipped when an axis the dimension would get is disallowed: "in this
    mode such propagation steps are simply skipped rather than
    performed". *)
Definition refineDim (mesh : option MeshAttr) (candidate : list AxisRefAttr)
    (d : DimensionShardingAttr) : DimensionShardingAttr :=
  if is_closed d then d
  else if bool_decide (axes d `prefix_of` candidate)
       then if conservativePropagation
               && disallowedWhenConservative mesh (drop (length (axes d)) candidate)
            then d
            else mkDimSharding candidate (is_closed d) (priority d)
       else d.

(** Modelled from the spec: the update of one dimension of a tensor sharding;
    the axis sizes are those of the mesh of the sharding. *)
Definition refineTensor (dim : nat) (candidate : list AxisRefAttr)
    (ts : TensorShardingAttr) : TensorShardingAttr :=
  mkTensorSharding (mesh_or_ref ts)
    (alter (refineDim (Synthesis.resolveMesh symbols (mesh_or_ref ts)) candidate) dim
       (dim_shardings ts))
    (replicated_axes ts) (unreduced_axes ts).

(** Modelled from the spec: the update of one dimension of one value of the
    state. *)
Definition update (s : State) (v dim : nat) (candidate : list AxisRefAttr) : State :=
  alter (refineTensor dim candidate) v s.

(** Modelled from the spec: the longest common prefix of two axis lists. *)
Fixpoint commonPrefix (a b : list AxisRefAttr) : list AxisRefAttr :=
  match a, b with
  | x :: a', y :: b' => if decide (x = y) then x :: commonPrefix a' b' else []
  | _, _ => []
  end.

(** Modelled from the spec: the longest list that is a prefix of every list of
    [ls]. *)
Definition longestCommonPrefix (ls : list (list AxisRefAttr)) : list AxisRefAttr :=
  match ls with
  | [] => []
  | l :: rest => foldl commonPrefix l rest
  end.

(** Modelled from the spec: [FORWARD] updates results only, [BACKWARD]
    operands only, [BOTH] either, [NONE] nothing. *)
Definition canUpdate (dir : PropagationDirection) (kind : EdgeNodeType) : bool :=
  match dir, kind with
  | BOTH, _ | FORWARD, RESULT | BACKWARD, OPERAND => true
  | _, _ => false
  end.

(** Modelled from the spec: a dimension sharding is admitted at user priority
    [i] when it has no priority or one that is at most [i]; [None] admits all. *)
Definition admits (bound : option Z) (p : option Z) : bool :=
  match bound, p with
  | Some i, Some q => q <=? i
  | _, _ => true
  end.

(** Modelled from the spec: the non-empty axis lists of the admitted
    dimensions mapped to a factor. *)
Definition sourceLists (bound : option Z) (s : State) (dims : list DimRef)
    : list (list AxisRefAttr) :=
  filter (λ l, l ≠ [])
    (omap (λ r : DimRef,
             d ← dimSharding s r.1.2 r.2;
             if admits bound (priority d) then Some (axes d) else None) dims).

(** Modelled from the spec: the candidate is offered to every mapped dimension
    the direction lets the step update. *)
Definition applyCandidate (dir : PropagationDirection) (dims : list DimRef)
    (candidate : list AxisRefAttr) (s : State) : State :=
  foldl (λ st (r : DimRef),
           if canUpdate dir r.1.1 then update st r.1.2 r.2 candidate else st) s dims.

(** Modelled from the spec: a factor marked blocked in the rule. *)
Definition isBlocked (op : Operation) (f : Z) : bool :=
  bool_decide (f ∈ blocked_propagation_factors (rule op)).

(** Modelled from the spec: the basic step for one factor of one
    operation (the propagation passes are not among the sources): the
    longest common prefix of the non-empty axis lists of the dimensions
    mapped to the factor is applied to every mapped dimension that does
    not have it; closed dimensions and blocked factors are skipped. *)
Definition basicStep (bound : option Z) (dir : PropagationDirection)
    (op : Operation) (f : Z) (s : State) : State :=
  if isBlocked op f then s
  else
    let dims := mappedDims op f in
    applyCandidate dir dims (longestCommonPrefix (sourceLists bound s dims)) s.

Section Tiers.
(** Modelled from the spec: the comparison strategy of the aggressive tier: it
    picks the winner among the candidate axis lists.  It is an injected
    policy. *)
Variable strategy : list (list AxisRefAttr) → list AxisRefAttr.
(** Modelled from the spec: the per-operation heuristics of the op-priority
    tier, by priority. *)
Variable heuristics : list (Operation → PropagationDirection).

(** Modelled from the spec: the aggressive step: the basic step, then
    the winner the strategy picks is applied to the compatible
    dimensions; the others are left unchanged. *)
Definition aggressiveStep (bound : option Z) (dir : PropagationDirection)
    (op : Operation) (f : Z) (s : State) : State :=
  if isBlocked op f then s
  else
    let s1 := basicStep bound dir op f s in
    let dims := mappedDims op f in
    applyCandidate dir dims (strategy (sourceLists bound s1 dims)) s1.

(** Modelled from the spec: the factor indices of an operation's rule. *)
Definition factorsOf (op : Operation) : list Z :=
  Z.of_nat <$> seq 0 (length (factor_sizes (rule op))).

(** Modelled from the spec: one pass over every factor of every operation. *)
Definition sweep (step : Operation → Z → State → State) (g : list Operation)
    (s : State) : State :=
  foldl (λ st op, foldl (λ st' f, step op f st') st (factorsOf op)) s g.

(** Modelled from the spec: repeat a pass until it changes nothing, at most
    [fuel] times. *)
Fixpoint untilFixpoint (fuel : nat) (pass : State → State) (s : State) : State :=
  match fuel with
  | O => s
  | S n => let s' := pass s in
           if decide (s' = s) then s else untilFixpoint n pass s'
  end.

(** Modelled from the spec: the basic tier: basic steps in both directions,
    to a fixpoint. *)
Definition basicPropagation (bound : option Z) (fuel : nat) (g : list Operation)
    (s : State) : State :=
  untilFixpoint fuel (sweep (basicStep bound BOTH) g) s.

(** Modelled from the spec: the aggressive tier: aggressive steps, each
    operation in its direction, to a fixpoint. *)
Definition aggressivePropagation (bound : option Z)
    (dirOf : Operation → PropagationDirection) (fuel : nat) (g : list Operation)
    (s : State) : State :=
  untilFixpoint fuel (sweep (λ op, aggressiveStep bound (dirOf op) op) g) s.

(** Modelled from the spec: the op-priority tier: for [p = 0, 1, ...]
    until the heuristics are exhausted, an aggressive propagation with
    the directions of the heuristics of priorities [0..p]. *)
Definition opPriorityPropagation (bound : option Z) (fuel : nat)
    (g : list Operation) (s : State) : State :=
  foldl (λ st p,
           aggressivePropagation bound (directionToPropagate heuristics (S p)) fuel g st)
        s (seq 0 (length heuristics)).

(** Modelled from the spec: the largest user priority declared in the state. *)
Definition maxPriority (s : State) : Z :=
  foldr Z.max 0
    (omap priority (mjoin (dim_shardings <$> s))).

(** Modelled from the spec: the user priorities, from the highest (0) to the
    lowest declared. *)
Definition userPriorities (s : State) : list Z :=
  Z.of_nat <$> seq 0 (S (Z.to_nat (maxPriority s))).

(** Modelled from the spec: one round of the user-priority tier: for [i]
    from the highest priority (lowest number) to the lowest, an op-priority
    propagation that admits the dimension shardings of priority at most
    [i]. *)
Definition userPriorityRound (fuel : nat) (g : list Operation) (s : State) : State :=
  foldl (λ st i, opPriorityPropagation (Some i) fuel g st) s (userPriorities s).

(** Modelled from the spec: the user-priority tier: the rounds over the user
    priorities, repeated until a round changes nothing ("each nested loop is
    guaranteed to reach a fixpoint"), so that what a later iteration adds to a
    dimension of higher priority is propagated at that priority too and the
    tier ends in a state none of its steps changes. *)
Definition userPriorityPropagation (fuel : nat) (g : list Operation)
    (s : State) : State :=
  untilFixpoint fuel (userPriorityRound fuel g) s.

(** Modelled from the spec: the four nested strategies. *)
Inductive Tier := BasicTier | AggressiveTier | OpPriorityTier | UserPriorityTier.

(** Modelled from the spec: one run of a tier; the plain tiers admit every
    dimension sharding and propagate in both directions. *)
Definition runTier (t : Tier) (fuel : nat) (g : list Operation) (s : State) : State :=
  match t with
  | BasicTier => basicPropagation None fuel g s
  | AggressiveTier => aggressivePropagation None (λ _, BOTH) fuel g s
  | OpPriorityTier => opPriorityPropagation None fuel g s
  | UserPriorityTier => userPriorityPropagation fuel g s
  end.

(** Modelled from the spec: no step [step op f] of the graph changes the
    state. *)
Definition stable (step : Operation → Z → State → State) (g : list Operation)
    (s : State) : bool :=
  forallb (λ op, forallb (λ f, bool_decide (step op f s = s)) (factorsOf op)) g.

(** Modelled from the spec: a fixpoint of a tier: a state that no propagation
    step of the tier changes. *)
Definition isFixpoint (t : Tier) (g : list Operation) (s : State) : bool :=
  match t with
  | BasicTier => stable (basicStep None BOTH) g s
  | AggressiveTier => stable (aggressiveStep None BOTH) g s
  | OpPriorityTier =>
      forallb (λ p, stable (λ op, aggressiveStep None
                                    (directionToPropagate heuristics (S p) op) op) g s)
              (seq 0 (length heuristics))
  | UserPriorityTier =>
      forallb (λ i,
        forallb (λ p, stable (λ op, aggressiveStep (Some i)
                                      (directionToPropagate heuristics (S p) op) op) g s)
                (seq 0 (length heuristics)))
        (userPriorities s)
  end.
End Tiers.
End Engine.




End Propagation.


(* ===================================================================== *)
(** ** The rule builder: the remaining methods *)
(* ===================================================================== *)

Module RuleBuilderMore.
Import Attrs Enums RuleBuilder.

(** [addPointwise(shape, getFactorType, isBlocked)]: the overload with a
    fixed [isBlocked], which calls the other with a constant function. *)
Definition addPointwiseBlocked (b : OpShardingRuleBuilder) (shape : list Z)
    (getFactorType : Z → FactorType) (isBlocked : bool) : option OpShardingRuleBuilder :=
  addPointwise b shape getFactorType (λ _, isBlocked).

(** The loop of [addPointwiseIf], with [dim] the running index of
    [llvm::enumerate]; the factor is added with the default [isBlocked]. *)
Fixpoint addPointwiseIfFrom (b : OpShardingRuleBuilder) (dim : Z) (shape : list Z)
    (pred : Z → bool) (getFactorType : Z → FactorType) : option OpShardingRuleBuilder :=
  match shape with
  | [] => Some b
  | dimSize :: rest =>
      b' ← (if pred dim then addFactorDim b dim dimSize (getFactorType dim) false
            else Some b);
      addPointwiseIfFrom b' (dim + 1) rest pred getFactorType
  end.

Definition addPointwiseIf (b : OpShardingRuleBuilder) (shape : list Z)
    (pred : Z → bool) (getFactorType : Z → FactorType) : option OpShardingRuleBuilder :=
  addPointwiseIfFrom b 0 shape pred getFactorType.

(** The loop of [addPointwiseWithDiffTypeForMismatch] over
    [llvm::zip_equal(inShape, outShape)]; shapes of different lengths fail
    the assertion of [zip_equal].  A dimension of equal sizes gets
    [addFactor(dim, inDimSize)], with the default type and [isBlocked]. *)
Fixpoint addPointwiseWithDiffTypeForMismatchFrom (b : OpShardingRuleBuilder) (dim : Z)
    (inShape outShape : list Z) (mismatchFactorType : FactorType)
    (mismatchFactorIsBlocked : bool) : option OpShardingRuleBuilder :=
  match inShape, outShape with
  | [], [] => Some b
  | inDimSize :: ins, outDimSize :: outs =>
      b' ← (if decide (inDimSize = outDimSize)
            then addFactorDim b dim inDimSize kPassThrough false
            else addFactorDim b dim inDimSize mismatchFactorType mismatchFactorIsBlocked);
      addPointwiseWithDiffTypeForMismatchFrom b' (dim + 1) ins outs
        mismatchFactorType mismatchFactorIsBlocked
  | _, _ => None
  end.

Definition addPointwiseWithDiffTypeForMismatch (b : OpShardingRuleBuilder)
    (inShape outShape : list Z) (mismatchFactorType : FactorType)
    (mismatchFactorIsBlocked : bool) : option OpShardingRuleBuilder :=
  addPointwiseWithDiffTypeForMismatchFrom b 0 inShape outShape
    mismatchFactorType mismatchFactorIsBlocked.

(** The inner loop of [buildPointwise]: [push_back(i)] on the [i]-th
    dimension mapping of a tensor. *)
Definition pushOwnIndex (tensorMapping : TensorMapping) : TensorMapping :=
  imap (λ i dimMapping, push_back (Z.of_nat i) dimMapping) tensorMapping.

(** [OpShardingRuleBuilder::buildPointwise(op)]; an operation matters
    through the shapes of its operands and results.  [front()] of an empty
    result list gives [None]. *)
Definition buildPointwise (operandShapes resultShapes : list (list Z))
    : option OpShardingRuleAttr :=
  match resultShapes with
  | [] => None
  | shape :: _ =>
      let builder := newBuilder (length <$> operandShapes) (length <$> resultShapes) in
      let builder :=
        {| factorSizes := shape;
           operandMappings := pushOwnIndex <$> operandMappings builder;
           resultMappings := pushOwnIndex <$> resultMappings builder;
           reductionFactors := reductionFactors builder;
           needReplicationFactors := needReplicationFactors builder;
           permutationFactors := permutationFactors builder;
           blockedPropagationFactors := blockedPropagationFactors builder |} in
      Some (build builder).1
  end.

End RuleBuilderMore.

(* ===================================================================== *)
(** ** Bytecode: the remaining records *)
(* ===================================================================== *)

Module BytecodeMore.
Import Attrs Bytecode.

(** [ManualAxesAttr]: an array of string attributes. *)
Definition writeManualAxes (axs : list string) : BcValue :=
  BcAttr (tagOf Sdy_ManualAxesAttrBc) [BcArray (BcString <$> axs)].

Definition writeDimMapping (d : DimMappingAttr) : BcValue :=
  BcAttr (tagOf Sdy_DimMappingAttrBc) [BcArray (BcVarInt <$> factor_indices d)].

Definition writeTensorMapping (t : TensorMappingAttr) : BcValue :=
  BcAttr (tagOf Sdy_TensorMappingAttrBc) [BcArray (writeDimMapping <$> dim_mappings t)].

Definition writeOpShardingRule (r : OpShardingRuleAttr) : BcValue :=
  BcAttr (tagOf Sdy_OpShardingRuleAttrBc)
    [ BcArray (BcVarInt <$> factor_sizes r);
      BcArray (writeTensorMapping <$> operand_mappings r);
      BcArray (writeTensorMapping <$> result_mappings r);
      BcArray (BcVarInt <$> reduction_factors r);
      BcArray (BcVarInt <$> need_replication_factors r);
      BcArray (BcVarInt <$> permutation_factors r);
      BcArray (BcVarInt <$> blocked_propagation_factors r);
      BcBool (is_custom_rule r) ].

Definition writeAxisRefList (l : AxisRefListAttr) : BcValue :=
  BcAttr (tagOf Sdy_AxisRefListAttrBc) [BcArray (writeAxisRef <$> l)].

Definition writeListOfAxisRefLists (l : ListOfAxisRefListsAttr) : BcValue :=
  BcAttr (tagOf Sdy_ListOfAxisRefListsAttrBc) [BcArray (writeAxisRefList <$> l)].

Definition writeAllToAllParam (p : AllToAllParamAttr) : BcValue :=
  BcAttr (tagOf Sdy_AllToAllParamAttrBc)
    [BcArray (writeAxisRef <$> param_axes p); BcVarInt (src_dim p); BcVarInt (tgt_dim p)].

Definition writeAllToAllParamList (l : AllToAllParamListAttr) : BcValue :=
  BcAttr (tagOf Sdy_AllToAllParamListAttrBc) [BcArray (writeAllToAllParam <$> l)].

Definition readString (v : BcValue) : option string :=
  match v with BcString s => Some s | _ => None end.

Definition readManualAxes (v : BcValue) : option (list string) :=
  match v with
  | BcAttr 0 [BcArray axs] => mapM readString axs
  | _ => None
  end.

Definition readDimMapping (v : BcValue) : option DimMappingAttr :=
  match v with
  | BcAttr 8 [BcArray ids] => mkDimMappingAttr <$> mapM readVarInt ids
  | _ => None
  end.

Definition readTensorMapping (v : BcValue) : option TensorMappingAttr :=
  match v with
  | BcAttr 9 [BcArray dims] => mkTensorMappingAttr <$> mapM readDimMapping dims
  | _ => None
  end.

Definition readOpShardingRule (v : BcValue) : option OpShardingRuleAttr :=
  match v with
  | BcAttr 10 [BcArray sizes; BcArray ops; BcArray res; BcArray red; BcArray repl;
               BcArray perm; BcArray blocked; BcBool custom] =>
      s ← mapM readVarInt sizes;
      o ← mapM readTensorMapping ops;
      r ← mapM readTensorMapping res;
      rd ← mapM readVarInt red;
      rp ← mapM readVarInt repl;
      pm ← mapM readVarInt perm;
      bl ← mapM readVarInt blocked;
      Some (mkOpShardingRule s o r rd rp pm bl custom)
  | _ => None
  end.

Definition readAxisRefList (v : BcValue) : option AxisRefListAttr :=
  match v with
  | BcAttr 11 [BcArray axs] => mapM readAxisRef axs
  | _ => None
  end.

Definition readListOfAxisRefLists (v : BcValue) : option ListOfAxisRefListsAttr :=
  match v with
  | BcAttr 12 [BcArray ls] => mapM readAxisRefList ls
  | _ => None
  end.

Definition readAllToAllParam (v : BcValue) : option AllToAllParamAttr :=
  match v with
  | BcAttr 13 [BcArray axs; BcVarInt s; BcVarInt t] =>
      a ← mapM readAxisRef axs; Some (mkAllToAllParam a s t)
  | _ => None
  end.

Definition readAllToAllParamList (v : BcValue) : option AllToAllParamListAttr :=
  match v with
  | BcAttr 14 [BcArray ps] => mapM readAllToAllParam ps
  | _ => None
  end.

End BytecodeMore.
(* ===================================================================== *)
(** ** Specification predicates *)
(* ===================================================================== *)

Module BuilderSpec.
Import Attrs Enums RuleBuilder.

(** What [mapDimsToFactor] does to one dimension mapping of a tensor
    whose entry in the dimension list is [d]: the factor index is appended
    at position [d], except when the factor has size 1 and the dimension
    already has a factor. *)
Definition mappedDimAfter (d : Z) (factorIndex factorSize : Z) (j : nat)
    (dm : DimMapping) : DimMapping :=
  if decide (j = Z.to_nat d) then
    if decide (factorSize = 1 ∧ factorIndices dm ≠ []) then dm
    else push_back factorIndex dm
  else dm.

(** The relation between the tensor mappings before and after
    [mapDimsToFactor]. *)
Definition mapsFactor (ms : list TensorMapping) (dims : list Z)
    (factorIndex factorSize : Z) (ms' : list TensorMapping) : Prop :=
  length ms' = length ms ∧
  ∀ (i : nat) (tm : TensorMapping) (d : Z),
    ms !! i = Some tm → dims !! i = Some d →
    ∃ tm' : TensorMapping,
      ms' !! i = Some tm' ∧ length tm' = length tm ∧
      (d = kNullDim → tm' = tm) ∧
      (d ≠ kNullDim →
       ∀ (j : nat) (dm : DimMapping), tm !! j = Some dm →
         tm' !! j = Some (mappedDimAfter d factorIndex factorSize j dm)).

(** The statement without the size-1 exception: the index is
    appended at the given dimension of every tensor whose entry is not
    [kNullDim]. *)
Definition appendsEverywhere (ms : list TensorMapping) (dims : list Z)
    (factorIndex : Z) (ms' : list TensorMapping) : Prop :=
  ∀ (i : nat) (tm : TensorMapping) (d : Z) (dm : DimMapping),
    ms !! i = Some tm → dims !! i = Some d → d ≠ kNullDim →
    tm !! Z.to_nat d = Some dm →
    ∃ tm' : TensorMapping,
      ms' !! i = Some tm' ∧ tm' !! Z.to_nat d = Some (push_back factorIndex dm).

(** The factor indices that [build] puts on the dimensions that have no
    factor, in the order the dimensions are visited. *)
Definition paddingOfTensor (tm : TensorMapping) (a : TensorMappingAttr) : list Z :=
  mjoin ((λ p : DimMapping * DimMappingAttr,
            match factorIndices p.1 with
            | [] => factor_indices p.2
            | _ => []
            end) <$> zip tm (dim_mappings a)).

Definition paddingOf (ms : list TensorMapping) (attrs : list TensorMappingAttr) : list Z :=
  mjoin ((λ p : TensorMapping * TensorMappingAttr, paddingOfTensor p.1 p.2) <$> zip ms attrs).

(** The dimension mappings of a rule against those of the builder: a
    dimension with factors keeps them, a dimension without gets exactly
    one factor. *)
Definition dimPadded (dm : DimMapping) (da : DimMappingAttr) : Prop :=
  match factorIndices dm with
  | [] => ∃ k : Z, factor_indices da = [k]
  | _ => factor_indices da = factorIndices dm
  end.

Definition tensorPadded (tm : TensorMapping) (a : TensorMappingAttr) : Prop :=
  Forall2 dimPadded tm (dim_mappings a).

(** Well-formed dimension lists: one entry per tensor, each entry
    [kNullDim] or a dimension of its tensor. *)
Definition dimsInRange (ms : list TensorMapping) (dims : list Z) : Prop :=
  Forall2 (λ (tm : TensorMapping) (d : Z),
             d = kNullDim ∨ (0 ≤ d ∧ (Z.to_nat d < length tm)%nat)) ms dims.

Definition builder_1x1 : OpShardingRuleBuilder := newBuilder [1%nat] [1%nat].

Definition builder_1x1_mapped : OpShardingRuleBuilder :=
  default builder_1x1 (addFactor builder_1x1 [0] [0] 4 kPassThrough false).

End BuilderSpec.


Module CanonSpec.
Import Attrs Canonicalization ReshardExpectations.

(** Some pattern of the file replaces the root by a value. *)
Definition replacedByValue
    (overlaps : AllToAllParamListAttr → AllToAllParamListAttr → bool)
    (combineAndSort : AllToAllParamListAttr → AllToAllParamListAttr → AllToAllParamListAttr)
    (f : Func) (root : nat) : Prop :=
  ∃ (p : Pattern) (v : Value),
    In p (patterns overlaps combineAndSort) ∧ p f root = Some (ReplaceWithValue v).

(** An all-gather or all-slice with no axis in any dimension, or an
    all-reduce with no axis, on [tensor]. *)
Definition isEmptyAxesOp (op : Op) (tensor : Value) : Prop :=
  (∃ a s, op = AllGatherOp tensor a s ∧ Sdy_EmptyAxesPerDim a = true)
  ∨ (∃ a s, op = AllSliceOp tensor a s ∧ Sdy_EmptyAxesPerDim a = true)
  ∨ (∃ a s, op = AllReduceOp tensor a s ∧ Sdy_EmptyAxisList a = true).

(** Uses of a value among the operands of a list of operations. *)
Definition usesIn (v : Value) (ops : list Op) : nat :=
  length (filter (λ u, u = v) (mjoin (operandsOf <$> ops))).

Definition mesh2d_xy : TensorShardingAttr := sh "mesh2d" [closed [ax "x"]; closed [ax "y"]].

(** [%0 = sdy.all_to_all {} 0->1 %arg0; return %0]: an all-to-all whose
    parameter has no axes, with one use. *)
Definition emptyAllToAll : Func :=
  mkFunc [Some mesh2d_xy]
    [ AllToAllOp (BlockArg 0) [mkAllToAllParam [] 0 1] mesh2d_xy;
      OtherOp [OpResult 0] ].

(** [%0 = sdy.all_gather [{"x"}, {}] %arg0; %1 = sdy.all_slice [{"x"}, {}] %0;
    return %1]. *)
Definition gatherThenSlice : Func :=
  mkFunc [Some mesh2d_xy]
    [ AllGatherOp (BlockArg 0) [[ax "x"]; []] (sh "mesh2d" [closed []; closed [ax "y"]]);
      AllSliceOp (OpResult 0) [[ax "x"]; []] mesh2d_xy;
      OtherOp [OpResult 1] ].

(** Two all-to-alls in a row, the first used by the second only:
    ["x"] moves from dimension 0 to 2, then ["y"] from 1 to 3. *)
Definition twoAllToAlls : Func :=
  mkFunc [Some (sh "mesh2d" [closed [ax "x"]; closed [ax "y"]; closed []; closed []])]
    [ AllToAllOp (BlockArg 0) [mkAllToAllParam [ax "x"] 0 2]
        (sh "mesh2d" [closed []; closed [ax "y"]; closed [ax "x"]; closed []]);
      AllToAllOp (OpResult 0) [mkAllToAllParam [ax "y"] 1 3]
        (sh "mesh2d" [closed []; closed []; closed [ax "x"]; closed [ax "y"]]);
      OtherOp [OpResult 1] ].

(** [%0 = sdy.all_gather [{}, {}] %arg0; return %0]. *)
Definition emptyAllGather : Func :=
  mkFunc [Some mesh2d_xy]
    [ AllGatherOp (BlockArg 0) [[]; []] mesh2d_xy; OtherOp [OpResult 0] ].

Definition mesh2d_yx : TensorShardingAttr := sh "mesh2d" [closed [ax "y"]; closed [ax "x"]].

(** Steps that gather no axis, permute, slice no axis and move no axis. *)
Definition stepsWithoutAxes (src tgt : TensorShardingAttr) : list Collective :=
  [ all_gather [[]; []] src; collective_permute tgt; all_slice [[]; []] tgt;
    all_to_all [mkAllToAllParam [] 0 1] tgt ].

(** The mesh ["x"=4] and a dimension sharded on both halves of ["x"]. *)
Definition mesh_x4 : MeshAttr := mesh_of [("x", 4)].
Definition split_x : TensorShardingAttr :=
  mkTensorSharding (InlinedMesh mesh_x4) [opened [sub "x" 1 2; sub "x" 2 2]] [] [].
Definition whole_x : TensorShardingAttr :=
  mkTensorSharding (InlinedMesh mesh_x4) [closed [ax "x"]] [] [].

(** The dimension shardings with their open/closed flags replaced by the
    given ones (as far as these go). *)
Fixpoint withFlags (flags : list bool) (dims : list DimensionShardingAttr)
    : list DimensionShardingAttr :=
  match dims, flags with
  | d :: ds, c :: cs => mkDimSharding (axes d) c (priority d) :: withFlags cs ds
  | ds, _ => ds
  end.

Definition withClosedFlags (flags : list bool) (s : TensorShardingAttr) : TensorShardingAttr :=
  mkTensorSharding (mesh_or_ref s) (withFlags flags (dim_shardings s))
    (replicated_axes s) (unreduced_axes s).

End CanonSpec.

Module ReshardSpec.
Import Attrs ReshardExpectations.

(** The statement as the specification has it: the collective-permute comes before every
    other collective of the sequence. *)
Definition permuteBeforeAll (l : list Collective) : Prop :=
  ∀ (i j : nat) (p c : Collective),
    l !! i = Some p → l !! j = Some c →
    is_permute p = true → is_permute c = false → (i < j)%nat.

End ReshardSpec.

Module PropagationSpec.
Import Attrs Enums Propagation ReshardExpectations.

(** A pointwise operation on rank-1 tensors of size 8: value 0 is its
    operand, value 1 its result, and one factor maps the dimension of both. *)
Definition pointwiseOp : Operation :=
  mkOperation
    (mkOpShardingRule [8] [mkTensorMappingAttr [mkDimMappingAttr [0]]]
       [mkTensorMappingAttr [mkDimMappingAttr [0]]] [] [] [] [] false)
    [0%nat] [1%nat].

(** Operand and result both sharded on ["x"], the operand with user
    priority 1. *)
Definition convergedState : State :=
  [ sh "mesh2d" [mkDimSharding [ax "x"] false (Some 1)]; sh "mesh2d" [opened [ax "x"]] ].

(** Only the operand is sharded. *)
Definition initialState : State :=
  [ sh "mesh2d" [opened [ax "x"]]; sh "mesh2d" [opened []] ].

(** A comparison strategy: the longest candidate, the first among equals. *)
Definition longestCandidate (ls : list (list AxisRefAttr)) : list AxisRefAttr :=
  foldr (λ l acc, if (length acc <=? length l)%nat then l else acc) [] ls.

(** Heuristics that let an operation propagate forward at op priority 0 and
    backward as well from op priority 1 on. *)
Definition forwardThenBackward : list (Operation → PropagationDirection) :=
  [ (λ _, FORWARD); (λ _, BACKWARD) ].








(** The mesh ["x"=6] of the resharding test; the operand is sharded on the
    sub-axis ["x":(1)4], which takes four of the six devices of ["x"], and
    the result is not sharded. *)
Definition fourOfSix : State :=
  [ sh "mesh1d_6" [closed [sub "x" 1 4]]; sh "mesh1d_6" [opened []] ].

(** Two operations on rank-1 tensors: the first has the operands 0, 1 and 2
    and the result 3, the second the operand 4 and the result 1; one factor
    maps the dimension of all of them. *)
Definition twoOps : list Operation :=
  let m := mkTensorMappingAttr [mkDimMappingAttr [0]] in
  [ mkOperation (mkOpShardingRule [8] [m; m; m] [m] [] [] [] [] false)
      [0%nat; 1%nat; 2%nat] [3%nat];
    mkOperation (mkOpShardingRule [8] [m] [m] [] [] [] [] false) [4%nat] [1%nat] ].

(** Value 1 is sharded on ["x"] and gets ["y"] from value 4 at user
    priority 1 only; value 2, of user priority 1 too, is sharded on ["x"]
    and stands for the same factor as value 0, which is sharded otherwise. *)
Definition priorityState : State :=
  [ sh "mesh2d" [mkDimSharding [ax "y"; ax "x"] false (Some 1)];
    sh "mesh2d" [opened [ax "x"]];
    sh "mesh2d" [mkDimSharding [ax "x"] false (Some 1)];
    sh "mesh2d" [opened []];
    sh "mesh2d" [mkDimSharding [ax "x"; ax "y"] false (Some 1)] ].

End PropagationSpec.

Module BuilderMoreSpec.
Import Attrs Enums RuleBuilder RuleBuilderMore BuilderSpec.

(** A dimension that the single-dimension methods can map: not negative,
    and inside every tensor that has dimensions at all. *)
Definition dimFits (d : Z) (ms : list TensorMapping) : Prop :=
  0 ≤ d ∧ Forall (λ tm : TensorMapping, tm = [] ∨ (Z.to_nat d < length tm)%nat) ms.

(** The factor index appended at dimension [d] of every tensor (a tensor
    without that dimension, a rank-0 tensor in particular, stays as it
    is). *)
Definition appendAtDim (d idx : Z) (ms : list TensorMapping) : list TensorMapping :=
  alter (push_back idx) (Z.to_nat d) <$> ms.

(** The builder after one factor of the given size, type and blocked mark
    was reserved and the mappings became [ops] and [res]. *)
Definition factorAdded (b : OpShardingRuleBuilder) (size : Z) (ty : FactorType)
    (blk : bool) (ops res : list TensorMapping) : OpShardingRuleBuilder :=
  let idx := Z.of_nat (length (factorSizes b)) in
  {| factorSizes := factorSizes b ++ [size];
     operandMappings := ops;
     resultMappings := res;
     reductionFactors :=
       reductionFactors b ++ (if decide (ty = kReduction) then [idx] else []);
     needReplicationFactors :=
       needReplicationFactors b ++ (if decide (ty = kNeedReplication) then [idx] else []);
     permutationFactors :=
       permutationFactors b ++ (if decide (ty = kPermutation) then [idx] else []);
     blockedPropagationFactors :=
       blockedPropagationFactors b ++ (if blk then [idx] else []) |}.

(** A tensor mapping after a pointwise pass over [len] dimensions starting
    at dimension [k0], the first new factor having index [n0]: dimension
    [k0 + i] got factor [n0 + i]. *)
Definition pointwiseAfter (k0 n0 len : nat) (tm : TensorMapping) : TensorMapping :=
  imap (λ j dm, if decide (k0 ≤ j < k0 + len)%nat
                then push_back (Z.of_nat (n0 + (j - k0))) dm else dm) tm.

(** Every tensor is of rank 0 or has the dimensions [k0 .. k0 + len - 1]. *)
Definition shapeFits (k0 len : nat) (ms : list TensorMapping) : Prop :=
  Forall (λ tm : TensorMapping, tm = [] ∨ len = 0%nat ∨ (k0 + len ≤ length tm)%nat) ms.

(** The indices of the new factors whose dimension satisfies [P]. *)
Definition newFactorsWhere (P : Z → bool) (k0 n0 len : nat) : list Z :=
  (λ i, Z.of_nat (n0 + i)) <$> filter (λ i, P (Z.of_nat (k0 + i)) = true) (seq 0 len).

(** The builder after a pointwise pass over [shape] from dimension [k0],
    the factor of dimension [d] having type [tyAt d] and being blocked when
    [blkAt d]. *)
Definition pointwiseAddedAt (b : OpShardingRuleBuilder) (k0 : nat) (shape : list Z)
    (tyAt : Z → FactorType) (blkAt : Z → bool) : OpShardingRuleBuilder :=
  let n0 := length (factorSizes b) in
  let len := length shape in
  {| factorSizes := factorSizes b ++ shape;
     operandMappings := pointwiseAfter k0 n0 len <$> operandMappings b;
     resultMappings := pointwiseAfter k0 n0 len <$> resultMappings b;
     reductionFactors :=
       reductionFactors b
       ++ newFactorsWhere (λ d, bool_decide (tyAt d = kReduction)) k0 n0 len;
     needReplicationFactors :=
       needReplicationFactors b
       ++ newFactorsWhere (λ d, bool_decide (tyAt d = kNeedReplication)) k0 n0 len;
     permutationFactors :=
       permutationFactors b
       ++ newFactorsWhere (λ d, bool_decide (tyAt d = kPermutation)) k0 n0 len;
     blockedPropagationFactors :=
       blockedPropagationFactors b ++ newFactorsWhere blkAt k0 n0 len |}.

(** The builder after [addPointwise]: whether a factor is blocked depends on
    its type. *)
Definition pointwiseAdded (b : OpShardingRuleBuilder) (k0 : nat) (shape : list Z)
    (getFactorType : Z → FactorType) (getIsBlocked : FactorType → bool)
    : OpShardingRuleBuilder :=
  pointwiseAddedAt b k0 shape getFactorType (λ d, getIsBlocked (getFactorType d)).

(** The number of dimensions among [k0 .. j - 1] that [pred] selects. *)
Definition selectedBefore (pred : Z → bool) (k0 j : nat) : nat :=
  length (filter (λ i : nat, pred (Z.of_nat i) = true) (seq k0 (j - k0))).

(** A tensor mapping after a pass over the dimensions [k0 .. k0 + len - 1]
    that [pred] selects, the first new factor having index [n0]: a selected
    dimension got the factor that counts the selected dimensions before
    it. *)
Definition pointwiseIfAfter (pred : Z → bool) (k0 n0 len : nat) (tm : TensorMapping)
    : TensorMapping :=
  imap (λ j dm, if decide ((k0 ≤ j < k0 + len)%nat ∧ pred (Z.of_nat j) = true)
                then push_back (Z.of_nat (n0 + selectedBefore pred k0 j)) dm else dm) tm.

(** Every tensor is of rank 0 or has the selected dimensions. *)
Definition shapeFitsIf (pred : Z → bool) (k0 len : nat) (ms : list TensorMapping) : Prop :=
  Forall (λ tm : TensorMapping,
            tm = [] ∨ ∀ j : nat, (k0 ≤ j < k0 + len)%nat → pred (Z.of_nat j) = true →
                        (j < length tm)%nat) ms.

(** The sizes of the selected dimensions. *)
Definition selectedSizes (pred : Z → bool) (k0 : nat) (shape : list Z) : list Z :=
  snd <$> filter (λ p : nat * Z, pred (Z.of_nat p.1) = true)
            (zip (seq k0 (length shape)) shape).

(** The factors of the selected dimensions that satisfy [P]. *)
Definition selectedFactorsWhere (pred P : Z → bool) (k0 n0 len : nat) : list Z :=
  (λ j : nat, Z.of_nat (n0 + selectedBefore pred k0 j))
    <$> filter (λ j : nat, pred (Z.of_nat j) = true ∧ P (Z.of_nat j) = true) (seq k0 len).

(** The builder after [addPointwiseIf]; no new factor is blocked. *)
Definition pointwiseIfAdded (b : OpShardingRuleBuilder) (k0 : nat) (shape : list Z)
    (pred : Z → bool) (getFactorType : Z → FactorType) : OpShardingRuleBuilder :=
  let n0 := length (factorSizes b) in
  let len := length shape in
  {| factorSizes := factorSizes b ++ selectedSizes pred k0 shape;
     operandMappings := pointwiseIfAfter pred k0 n0 len <$> operandMappings b;
     resultMappings := pointwiseIfAfter pred k0 n0 len <$> resultMappings b;
     reductionFactors :=
       reductionFactors b
       ++ selectedFactorsWhere pred (λ d, bool_decide (getFactorType d = kReduction))
            k0 n0 len;
     needReplicationFactors :=
       needReplicationFactors b
       ++ selectedFactorsWhere pred (λ d, bool_decide (getFactorType d = kNeedReplication))
            k0 n0 len;
     permutationFactors :=
       permutationFactors b
       ++ selectedFactorsWhere pred (λ d, bool_decide (getFactorType d = kPermutation))
            k0 n0 len;
     blockedPropagationFactors := blockedPropagationFactors b |}.

(** Whether dimension [d] has different sizes in the two shapes. *)
Definition sizesDiffer (inShape outShape : list Z) (d : Z) : bool :=
  bool_decide (inShape !! Z.to_nat d ≠ outShape !! Z.to_nat d).

(** The rule that holds exactly the builder's data. *)
Definition dimAttr (dm : DimMapping) : DimMappingAttr := mkDimMappingAttr (factorIndices dm).

Definition tensorAttr (tm : TensorMapping) : TensorMappingAttr :=
  mkTensorMappingAttr (dimAttr <$> tm).

Definition ruleOf (b : OpShardingRuleBuilder) : OpShardingRuleAttr :=
  {| factor_sizes := factorSizes b;
     operand_mappings := tensorAttr <$> operandMappings b;
     result_mappings := tensorAttr <$> resultMappings b;
     reduction_factors := reductionFactors b;
     need_replication_factors := needReplicationFactors b;
     permutation_factors := permutationFactors b;
     blocked_propagation_factors := blockedPropagationFactors b;
     is_custom_rule := false |}.

(** Every dimension of every operand and result has a factor. *)
Definition fullyMapped (b : OpShardingRuleBuilder) : Prop :=
  Forall (Forall (λ dm, factorIndices dm ≠ [])) (operandMappings b ++ resultMappings b).

(** The mapping of a tensor of the given rank in an identity rule:
    dimension [i] has factor [i]. *)
Definition identityMapping (rank : nat) : TensorMappingAttr :=
  mkTensorMappingAttr ((λ i, mkDimMappingAttr [Z.of_nat i]) <$> seq 0 rank).

(** The identity rule of [numOperands] operands and [numResults] results of
    the given shape: one factor per dimension, of the dimension's size. *)
Definition identityRule (shape : list Z) (numOperands numResults : nat)
    : OpShardingRuleAttr :=
  {| factor_sizes := shape;
     operand_mappings := replicate numOperands (identityMapping (length shape));
     result_mappings := replicate numResults (identityMapping (length shape));
     reduction_factors := [];
     need_replication_factors := [];
     permutation_factors := [];
     blocked_propagation_factors := [];
     is_custom_rule := false |}.

(** The rule of a pointwise operation: the factor sizes are the first
    result's shape, and every tensor maps its dimension [i] to factor [i]. *)
Definition pointwiseRule (operandShapes resultShapes : list (list Z)) (shape : list Z)
    : OpShardingRuleAttr :=
  {| factor_sizes := shape;
     operand_mappings := (λ s : list Z, identityMapping (length s)) <$> operandShapes;
     result_mappings := (λ s : list Z, identityMapping (length s)) <$> resultShapes;
     reduction_factors := [];
     need_replication_factors := [];
     permutation_factors := [];
     blocked_propagation_factors := [];
     is_custom_rule := false |}.

(** Factor indices that exist ([0 <= i < n]) and do not repeat. *)
Definition indicesOk (n : nat) (l : list Z) : Prop :=
  NoDup l ∧ Forall (λ i, 0 ≤ i < Z.of_nat n) l.

(** The invariant of a builder: every dimension and every list of typed
    factors names existing factors, none twice, and no factor has two of
    the types reduction, need-replication and permutation. *)
Definition wfBuilder (b : OpShardingRuleBuilder) : Prop :=
  let n := length (factorSizes b) in
  Forall (Forall (λ dm, indicesOk n (factorIndices dm))) (operandMappings b)
  ∧ Forall (Forall (λ dm, indicesOk n (factorIndices dm))) (resultMappings b)
  ∧ indicesOk n (reductionFactors b ++ needReplicationFactors b ++ permutationFactors b)
  ∧ indicesOk n (blockedPropagationFactors b).

(** A well-formed rule: in addition every dimension has a factor. *)
Definition wfRule (r : OpShardingRuleAttr) : Prop :=
  let n := length (factor_sizes r) in
  let dimOk := λ da, factor_indices da ≠ [] ∧ indicesOk n (factor_indices da) in
  Forall (λ t, Forall dimOk (dim_mappings t)) (operand_mappings r)
  ∧ Forall (λ t, Forall dimOk (dim_mappings t)) (result_mappings r)
  ∧ indicesOk n (reduction_factors r ++ need_replication_factors r ++ permutation_factors r)
  ∧ indicesOk n (blocked_propagation_factors r).

(** The builders one gets from the constructor by the mutating methods. *)
Inductive Built : OpShardingRuleBuilder → Prop :=
| built_new operandRanks resultRanks : Built (newBuilder operandRanks resultRanks)
| built_addFactor b operandDims resultDims size ty blk b' :
    Built b → addFactor b operandDims resultDims size ty blk = Some b' → Built b'
| built_addFactorDim b dim size ty blk b' :
    Built b → addFactorDim b dim size ty blk = Some b' → Built b'
| built_addFactorSameForAllOperands b dim size ty blk b' :
    Built b → addFactorSameForAllOperands b dim size ty blk = Some b' → Built b'
| built_addFactorSameForAllResults b dim size ty blk b' :
    Built b → addFactorSameForAllResults b dim size ty blk = Some b' → Built b'
| built_addPointwise b shape getFactorType getIsBlocked b' :
    Built b → addPointwise b shape getFactorType getIsBlocked = Some b' → Built b'
| built_addPointwiseIf b shape pred getFactorType b' :
    Built b → addPointwiseIf b shape pred getFactorType = Some b' → Built b'
| built_addPointwiseWithDiffTypeForMismatch b inShape outShape ty blk b' :
    Built b → addPointwiseWithDiffTypeForMismatch b inShape outShape ty blk = Some b' →
    Built b'.

(** A binary operation on two rank-2 tensors with a rank-0 third operand. *)
Definition builder_mixed : OpShardingRuleBuilder := newBuilder [2%nat; 2%nat; 0%nat] [2%nat].

End BuilderMoreSpec.
Module CanonMoreSpec.
Import Attrs Canonicalization ReshardExpectations CanonSpec.

(** The sharding attribute of an operation of the dialect. *)
Definition opSharding (op : Op) : option TensorShardingAttr :=
  match op with
  | ReshardOp _ s | AllGatherOp _ _ s | AllSliceOp _ _ s | AllToAllOp _ _ s
  | AllReduceOp _ _ s | CollectivePermuteOp _ s => Some s
  | OtherOp _ | Erased => None
  end.

(** Two operations of the same name. *)
Definition sameKind (a b : Op) : bool :=
  match a, b with
  | ReshardOp _ _, ReshardOp _ _
  | AllGatherOp _ _ _, AllGatherOp _ _ _
  | AllSliceOp _ _ _, AllSliceOp _ _ _
  | AllToAllOp _ _ _, AllToAllOp _ _ _
  | AllReduceOp _ _ _, AllReduceOp _ _ _
  | CollectivePermuteOp _ _, CollectivePermuteOp _ _ => true
  | _, _ => false
  end.

(** What a rewrite of the root [op] with the single operand [v] may be: a
    value is the root's operand or the operand of the operation that
    defines it; an operation has the root's name and sharding and takes
    the operands of the operation that defines the root's operand, which
    has the root's name and no other use. *)
Definition forwardsOnly (f : Func) (op : Op) (v : Value) (rw : Rewrite) : Prop :=
  match rw with
  | ReplaceWithValue w =>
      w = v ∨ ∃ producer : Op, definingOp f v = Some producer ∧ operandsOf producer = [w]
  | ReplaceWithOp new =>
      sameKind new op = true ∧ opSharding new = opSharding op
      ∧ ∃ producer : Op,
          definingOp f v = Some producer ∧ sameKind producer op = true
          ∧ operandsOf new = operandsOf producer ∧ hasOneUse f v = true
  end.

(** [%0 = sdy.reshard %arg0 <@mesh2d, [{"y"}, {"x"}]>;
     %1 = sdy.reshard %0 <@mesh2d, [{}, {"y"}]>; return %1]. *)
Definition twoReshards : Func :=
  mkFunc [Some mesh2d_xy]
    [ ReshardOp (BlockArg 0) (sh "mesh2d" [closed [ax "y"]; closed [ax "x"]]);
      ReshardOp (OpResult 0) (sh "mesh2d" [closed []; closed [ax "y"]]);
      OtherOp [OpResult 1] ].

(** [%0 = sdy.all_to_all [{"x"}: 0->1] %arg0; return %arg0]: the all-to-all
    has no use. *)
Definition unusedAllToAll : Func :=
  mkFunc [Some (sh "mesh2d" [closed [ax "x"]; closed []])]
    [ AllToAllOp (BlockArg 0) [mkAllToAllParam [ax "x"] 0 1]
        (sh "mesh2d" [closed []; closed [ax "x"]]);
      OtherOp [BlockArg 0] ].

End CanonMoreSpec.

(* ===================================================================== *)
(** ** Theorems: the rule builder *)
(* ===================================================================== *)

Section RuleBuilderFacts.
Import Attrs Enums RuleBuilder BuilderSpec.

Lemma reserveFactor_index b size ty blk :
  (reserveFactor b size ty blk).1 = Z.of_nat (length (factorSizes b)).
Proof. unfold reserveFactor. destruct ty; reflexivity. Qed.

Lemma reserveFactor_sizes b size ty blk :
  factorSizes (reserveFactor b size ty blk).2 = factorSizes b ++ [size].
Proof. unfold reserveFactor. destruct ty; reflexivity. Qed.

Lemma reserveFactor_mappings b size ty blk :
  operandMappings (reserveFactor b size ty blk).2 = operandMappings b
  ∧ resultMappings (reserveFactor b size ty blk).2 = resultMappings b.
Proof. unfold reserveFactor. destruct ty; split; reflexivity. Qed.

Lemma reserveFactor_typed b size ty blk :
  let idx := Z.of_nat (length (factorSizes b)) in
  let b' := (reserveFactor b size ty blk).2 in
  reductionFactors b'
  = reductionFactors b ++ (if decide (ty = kReduction) then [idx] else [])
  ∧ needReplicationFactors b'
    = needReplicationFactors b ++ (if decide (ty = kNeedReplication) then [idx] else [])
  ∧ permutationFactors b'
    = permutationFactors b ++ (if decide (ty = kPermutation) then [idx] else [])
  ∧ blockedPropagationFactors b'
    = blockedPropagationFactors b ++ (if blk then [idx] else []).
Proof.
  unfold reserveFactor. destruct ty, blk; simpl; by rewrite ?app_nil_r.
Qed.

Lemma mapDimToFactor_null tm idx size :
  mapDimToFactor tm kNullDim idx size = Some tm.
Proof. unfold mapDimToFactor. rewrite decide_True; done. Qed.

Lemma mapDimToFactor_spec tm d idx size tm' :
  mapDimToFactor tm d idx size = Some tm' →
  length tm' = length tm ∧
  (d = kNullDim → tm' = tm) ∧
  (d ≠ kNullDim →
   ∀ (j : nat) (dm : DimMapping), tm !! j = Some dm →
     tm' !! j = Some (mappedDimAfter d idx size j dm)).
Proof.
  unfold mapDimToFactor. intros H.
  destruct (decide (d = kNullDim)) as [Hd|Hd].
  { inversion H; subst tm'. split; [done|]. split; [done|]. intros Hn. by destruct Hn. }
  destruct (decide (d < 0)) as [|Hpos]; [done|].
  destruct (tm !! Z.to_nat d) as [mapped|] eqn:Hlk; [|done].
  destruct (decide (size = 1 ∧ factorIndices mapped ≠ [])) as [Hone|Hone];
    inversion H; subst tm'; clear H.
  - split; [done|]. split; [done|]. intros _ j dm Hj.
    unfold mappedDimAfter. destruct (decide (j = Z.to_nat d)) as [->|]; [|done].
    rewrite Hlk in Hj. inversion Hj; subst dm. by rewrite decide_True.
  - split; [by rewrite length_insert|]. split; [done|]. intros _ j dm Hj.
    unfold mappedDimAfter. destruct (decide (j = Z.to_nat d)) as [->|Hne].
    + rewrite Hlk in Hj. inversion Hj; subst dm. rewrite decide_False by done.
      apply list_lookup_insert_eq. by eapply lookup_lt_Some.
    + by rewrite list_lookup_insert_ne.
Qed.

Lemma mapDimsToFactor_spec ms dims idx size ms' :
  mapDimsToFactor ms dims idx size = Some ms' →
  mapsFactor ms dims idx size ms'.
Proof.
  revert dims ms'. induction ms as [|tm ms IH]; intros [|d dims] ms' H; simpl in H;
    try discriminate.
  - inversion H; subst. split; [done|]. intros i tm d Hi. by rewrite lookup_nil in Hi.
  - destruct (mapDimToFactor tm d idx size) as [tm1|] eqn:Hone; [|done]. simpl in H.
    destruct (mapDimsToFactor ms dims idx size) as [rest|] eqn:Hrest; [|done]. simpl in H.
    inversion H; subst ms'; clear H.
    destruct (IH dims rest Hrest) as [Hlen Hall].
    split; [simpl; by rewrite Hlen|].
    intros [|i] tm0 d0 Hi Hd; simpl in *.
    + inversion Hi; inversion Hd; subst tm0 d0.
      exists tm1. destruct (mapDimToFactor_spec _ _ _ _ _ Hone) as (?&?&?). done.
    + by apply Hall.
Qed.


Lemma mapDimsToFactor_total ms dims idx size :
  dimsInRange ms dims → is_Some (mapDimsToFactor ms dims idx size).
Proof.
  induction 1 as [|tm d ms dims Hd _ IH]; simpl; [by eexists|].
  assert (is_Some (mapDimToFactor tm d idx size)) as [tm' ->].
  { unfold mapDimToFactor. destruct (decide (d = kNullDim)); [by eexists|].
    destruct Hd as [|[Hpos Hlt]]; [done|].
    rewrite decide_False by lia.
    destruct (lookup_lt_is_Some_2 tm (Z.to_nat d) Hlt) as [dm ->].
    destruct (decide _); by eexists. }
  destruct IH as [rest ->]. simpl. by eexists.
Qed.

Lemma addFactor_total b operandDims resultDims size ty blk :
  dimsInRange (operandMappings b) operandDims →
  dimsInRange (resultMappings b) resultDims →
  is_Some (addFactor b operandDims resultDims size ty blk).
Proof.
  intros Ho Hr. unfold addFactor.
  pose proof (reserveFactor_mappings b size ty blk) as [Hom Hrm].
  destruct (reserveFactor b size ty blk) as [idx b1]. simpl in *.
  rewrite Hom, Hrm.
  destruct (mapDimsToFactor_total _ _ idx size Ho) as [ops ->].
  destruct (mapDimsToFactor_total _ _ idx size Hr) as [res ->].
  simpl. by eexists.
Qed.

(** C5, as amended.  A successful [addFactor] creates exactly one factor,
    whose index is the former number of factors, and appends that index at
    the given dimension of every operand and result whose entry is not
    [kNullDim], unless the factor has size 1 and that dimension already has
    a factor; tensors marked [kNullDim], the skipped dimensions and every
    other dimension are left unchanged. *)
Theorem addFactor_maps_dims b operandDims resultDims factorSize factorType isBlocked b' :
  addFactor b operandDims resultDims factorSize factorType isBlocked = Some b' →
  let factorIndex := Z.of_nat (length (factorSizes b)) in
  factorSizes b' = factorSizes b ++ [factorSize]
  ∧ mapsFactor (operandMappings b) operandDims factorIndex factorSize (operandMappings b')
  ∧ mapsFactor (resultMappings b) resultDims factorIndex factorSize (resultMappings b')
  ∧ reductionFactors b'
    = reductionFactors b ++ (if decide (factorType = kReduction) then [factorIndex] else [])
  ∧ needReplicationFactors b'
    = needReplicationFactors b
      ++ (if decide (factorType = kNeedReplication) then [factorIndex] else [])
  ∧ permutationFactors b'
    = permutationFactors b ++ (if decide (factorType = kPermutation) then [factorIndex] else [])
  ∧ blockedPropagationFactors b'
    = blockedPropagationFactors b ++ (if isBlocked then [factorIndex] else []).
Proof.
  unfold addFactor. intros H.
  pose proof (reserveFactor_index b factorSize factorType isBlocked) as Hidx.
  pose proof (reserveFactor_sizes b factorSize factorType isBlocked) as Hsz.
  pose proof (reserveFactor_mappings b factorSize factorType isBlocked) as [Hom Hrm].
  pose proof (reserveFactor_typed b factorSize factorType isBlocked) as (Hred & Hrep & Hper & Hblk).
  destruct (reserveFactor b factorSize factorType isBlocked) as [idx b1]. simpl in *.
  subst idx.
  destruct (mapDimsToFactor (operandMappings b1) operandDims _ factorSize)
    as [ops|] eqn:Hops; [|done]. simpl in H.
  destruct (mapDimsToFactor (resultMappings b1) resultDims _ factorSize)
    as [res|] eqn:Hres; [|done]. simpl in H.
  inversion H; subst b'; clear H. simpl.
  rewrite Hom in Hops. rewrite Hrm in Hres.
  split; [done|]. split; [by apply mapDimsToFactor_spec|].
  split; [by apply mapDimsToFactor_spec|]. done.
Qed.


Lemma addFactor_maps_dims_witness :
  addFactor builder_1x1 [0] [kNullDim] 4 kReduction true
    = Some (mkBuilder [4] [[mkDimMapping [0]]] [[mkDimMapping []]] [0] [] [] [0])
  ∧ mapsFactor (operandMappings builder_1x1) [0] 0 4 [[mkDimMapping [0]]].
Proof.
  split; [reflexivity|].
  exact (proj1 (proj2 (addFactor_maps_dims builder_1x1 [0] [kNullDim] 4 kReduction true
                         _ eq_refl))).
Defined.

(** C5 as stated fails: a factor of size 1 is not appended to a dimension
    that already has a factor, although the entry is not [kNullDim]. *)
Lemma addFactor_size_one_skips_mapped_dim :
  ∃ b' : OpShardingRuleBuilder,
    addFactor builder_1x1_mapped [0] [0] 1 kPassThrough false = Some b'
    ∧ operandMappings builder_1x1_mapped = [[mkDimMapping [0]]]
    ∧ operandMappings b' = [[mkDimMapping [0]]]
    ∧ ¬ appendsEverywhere (operandMappings builder_1x1_mapped) [0]
          (Z.of_nat (length (factorSizes builder_1x1_mapped))) (operandMappings b').
Proof.
  eexists. split; [reflexivity|]. split; [reflexivity|]. split; [reflexivity|].
  intros H.
  destruct (H 0%nat [mkDimMapping [0]] 0 (mkDimMapping [0])) as (tm' & Htm & Hd);
    try done.
  simpl in Htm. inversion Htm; subst tm'. simpl in Hd. discriminate.
Qed.


Lemma paddingOfTensor_cons dm tm da attrs :
  paddingOfTensor (dm :: tm) (mkTensorMappingAttr (da :: attrs))
  = match factorIndices dm with [] => factor_indices da | _ => [] end
    ++ paddingOfTensor tm (mkTensorMappingAttr attrs).
Proof. reflexivity. Qed.

Lemma paddingOf_cons tm ms a attrs :
  paddingOf (tm :: ms) (a :: attrs) = paddingOfTensor tm a ++ paddingOf ms attrs.
Proof. reflexivity. Qed.

Lemma buildDimMappingAttrs_spec tm fs :
  Forall2 dimPadded tm (buildDimMappingAttrs tm fs).1
  ∧ ∃ n : nat,
      (buildDimMappingAttrs tm fs).2 = fs ++ replicate n 1
      ∧ paddingOfTensor tm (mkTensorMappingAttr (buildDimMappingAttrs tm fs).1)
        = Z.of_nat <$> seq (length fs) n.
Proof.
  revert fs. induction tm as [|dm tm IH]; intros fs; simpl.
  { split; [constructor|]. exists 0%nat. split; [by rewrite app_nil_r|done]. }
  destruct (factorIndices dm) as [|k ks] eqn:Hdm.
  - specialize (IH (fs ++ [1])).
    destruct (buildDimMappingAttrs tm (fs ++ [1])) as [attrs fs1]. simpl in *.
    destruct IH as [Hall (n & Hfs & Hpad)].
    split.
    + constructor; [|done]. unfold dimPadded. rewrite Hdm. by eexists.
    + exists (S n). split.
      * rewrite Hfs. by rewrite <- app_assoc.
      * rewrite paddingOfTensor_cons, Hdm, Hpad. simpl.
        by rewrite length_app, Nat.add_1_r.
  - specialize (IH fs).
    destruct (buildDimMappingAttrs tm fs) as [attrs fs1]. simpl in *.
    destruct IH as [Hall (n & Hfs & Hpad)].
    split.
    + constructor; [|done]. unfold dimPadded. by rewrite Hdm.
    + exists n. split; [done|].
      by rewrite paddingOfTensor_cons, Hdm, Hpad.
Qed.

Lemma buildTensorMappingAttrList_spec ms fs :
  Forall2 tensorPadded ms (buildTensorMappingAttrList ms fs).1
  ∧ ∃ n : nat,
      (buildTensorMappingAttrList ms fs).2 = fs ++ replicate n 1
      ∧ paddingOf ms (buildTensorMappingAttrList ms fs).1 = Z.of_nat <$> seq (length fs) n.
Proof.
  revert fs. induction ms as [|tm ms IH]; intros fs; simpl.
  { split; [constructor|]. exists 0%nat. split; [by rewrite app_nil_r|done]. }
  pose proof (buildDimMappingAttrs_spec tm fs) as [Hdims (n1 & Hfs1 & Hpad1)].
  destruct (buildDimMappingAttrs tm fs) as [dimMappings fs1]. simpl in *.
  specialize (IH fs1).
  destruct (buildTensorMappingAttrList ms fs1) as [attrs fs2]. simpl in *.
  destruct IH as [Hall (n2 & Hfs2 & Hpad2)].
  split; [by constructor|].
  exists (n1 + n2)%nat. split.
  - rewrite Hfs2, Hfs1, replicate_add. by rewrite <- app_assoc.
  - rewrite paddingOf_cons, Hpad1, Hpad2, Hfs1.
    rewrite length_app, length_replicate, seq_app, fmap_app. done.
Qed.

Lemma resize_app_replicate (fs : list Z) (n : nat) :
  resize (length fs) (fs ++ replicate n 1) = fs.
Proof.
  unfold resize. rewrite take_app_length, length_app.
  replace (length fs - _)%nat with 0%nat by lia.
  apply app_nil_r.
Qed.

Lemma build_restores_builder b : (build b).2 = b.
Proof.
  unfold build.
  pose proof (buildTensorMappingAttrList_spec (operandMappings b) (factorSizes b))
    as [_ (n1 & Hfs1 & _)].
  destruct (buildTensorMappingAttrList (operandMappings b) (factorSizes b)) as [oattrs fs1].
  simpl in Hfs1.
  pose proof (buildTensorMappingAttrList_spec (resultMappings b) fs1) as [_ (n2 & Hfs2 & _)].
  destruct (buildTensorMappingAttrList (resultMappings b) fs1) as [rattrs fs2].
  simpl in Hfs2. simpl.
  rewrite Hfs2, Hfs1, <- app_assoc, <- replicate_add, resize_app_replicate.
  by destruct b.
Qed.

(** C6.  [build] returns a rule in which every dimension that has factors
    keeps them and every dimension without a factor gets exactly one factor;
    these padding factors are, in the order the dimensions are visited
    (operands, then results), the indices following the builder's factors,
    each of size 1.  The other fields of the rule are the builder's.  The
    builder after the call equals the builder before it, so a second call
    returns the same rule. *)
Theorem build_pads_and_restores (b : OpShardingRuleBuilder) :
  let r := (build b).1 in
  (build b).2 = b
  ∧ build (build b).2 = build b
  ∧ Forall2 tensorPadded (operandMappings b) (operand_mappings r)
  ∧ Forall2 tensorPadded (resultMappings b) (result_mappings r)
  ∧ (∃ n : nat,
       factor_sizes r = factorSizes b ++ replicate n 1
       ∧ paddingOf (operandMappings b) (operand_mappings r)
         ++ paddingOf (resultMappings b) (result_mappings r)
         = Z.of_nat <$> seq (length (factorSizes b)) n)
  ∧ reduction_factors r = reductionFactors b
  ∧ need_replication_factors r = needReplicationFactors b
  ∧ permutation_factors r = permutationFactors b
  ∧ blocked_propagation_factors r = blockedPropagationFactors b.
Proof.
  intros r. subst r.
  split; [apply build_restores_builder|].
  split; [by rewrite build_restores_builder|].
  unfold build.
  pose proof (buildTensorMappingAttrList_spec (operandMappings b) (factorSizes b))
    as [Hops (n1 & Hfs1 & Hpad1)].
  destruct (buildTensorMappingAttrList (operandMappings b) (factorSizes b)) as [oattrs fs1].
  simpl in Hops, Hfs1, Hpad1.
  pose proof (buildTensorMappingAttrList_spec (resultMappings b) fs1)
    as [Hres (n2 & Hfs2 & Hpad2)].
  destruct (buildTensorMappingAttrList (resultMappings b) fs1) as [rattrs fs2].
  simpl in Hres, Hfs2, Hpad2. simpl.
  split; [done|]. split; [done|].
  split; [|done].
  exists (n1 + n2)%nat. split.
  - rewrite Hfs2, Hfs1, replicate_add. by rewrite <- app_assoc.
  - rewrite Hpad1, Hpad2, Hfs1.
    rewrite length_app, length_replicate, seq_app, fmap_app. done.
Qed.

(** A rank-2 operand with its second dimension unmapped and a rank-1 result
    without factors: both get a padding factor in the rule, and the builder
    is as before. *)
Example build_pads_example :
  let b := mkBuilder [8] [[mkDimMapping [0]; mkDimMapping []]] [[mkDimMapping []]] [] [] [] [] in
  build b
  = (mkOpShardingRule [8; 1; 1]
       [mkTensorMappingAttr [mkDimMappingAttr [0]; mkDimMappingAttr [1]]]
       [mkTensorMappingAttr [mkDimMappingAttr [2]]] [] [] [] [] false,
     b).
Proof. reflexivity. Qed.

End RuleBuilderFacts.

(* ===================================================================== *)
(** ** Theorems: bytecode records *)
(* ===================================================================== *)

Section BytecodeFacts.
Import Attrs Bytecode.

Lemma tag_values :
  tagOf Sdy_MeshAxisAttrBc = 1%nat ∧ tagOf Sdy_MeshAttrBc = 2%nat
  ∧ tagOf Sdy_SubAxisInfoAttrBc = 3%nat ∧ tagOf Sdy_AxisRefAttrBc = 4%nat
  ∧ tagOf Sdy_DimensionShardingAttrBc = 5%nat
  ∧ tagOf Sdy_TensorShardingAttrV1Bc = 6%nat
  ∧ tagOf Sdy_TensorShardingAttrV2Bc = 15%nat.
Proof. repeat split; reflexivity. Qed.

Lemma mapM_read_write {A : Type} (w : A → BcValue) (r : BcValue → option A) (l : list A) :
  (∀ x, r (w x) = Some x) → mapM r (w <$> l) = Some l.
Proof.
  intros Hrw. by apply mapM_fmap_Some.
Qed.

Lemma read_write_varint z : readVarInt (BcVarInt z) = Some z.
Proof. reflexivity. Qed.

Lemma read_write_mesh_axis a : readMeshAxis (writeMeshAxis a) = Some a.
Proof. by destruct a. Qed.

Lemma read_write_mesh m : readMesh (writeMesh m) = Some m.
Proof.
  destruct m as [axs ids]. unfold writeMesh, readMesh. simpl.
  rewrite (mapM_read_write _ _ _ read_write_mesh_axis). simpl.
  rewrite (mapM_read_write _ _ _ read_write_varint). done.
Qed.

Lemma read_write_sub_axis_info i : readSubAxisInfo (writeSubAxisInfo i) = Some i.
Proof. by destruct i. Qed.

Lemma read_write_axis_ref a : readAxisRef (writeAxisRef a) = Some a.
Proof. destruct a as [n [[p s]|]]; reflexivity. Qed.

Lemma read_write_dimension_sharding d :
  readDimensionSharding (writeDimensionSharding d) = Some d.
Proof.
  destruct d as [axs c p]. unfold writeDimensionSharding, readDimensionSharding. simpl.
  rewrite (mapM_read_write _ _ _ read_write_axis_ref). done.
Qed.

Lemma read_write_mesh_or_ref m : readMeshOrRef (writeMeshOrRef m) = Some m.
Proof.
  destruct m as [s|mesh]; [done|].
  unfold writeMeshOrRef.
  change (readMeshOrRef (writeMesh mesh)) with (InlinedMesh <$> readMesh (writeMesh mesh)).
  by rewrite read_write_mesh.
Qed.

Lemma read_write_tensor_sharding_v1 s :
  readTensorSharding (writeTensorShardingV1 s)
  = Some (mkTensorSharding (mesh_or_ref s) (dim_shardings s) (replicated_axes s) []).
Proof.
  unfold writeTensorShardingV1, readTensorSharding. simpl.
  rewrite read_write_mesh_or_ref. simpl.
  rewrite (mapM_read_write _ _ _ read_write_dimension_sharding). simpl.
  rewrite (mapM_read_write _ _ _ read_write_axis_ref). done.
Qed.

Lemma read_write_tensor_sharding_v2 s :
  readTensorSharding (writeTensorShardingV2 s) = Some s.
Proof.
  unfold writeTensorShardingV2, readTensorSharding. simpl.
  rewrite read_write_mesh_or_ref. simpl.
  rewrite (mapM_read_write _ _ _ read_write_dimension_sharding). simpl.
  rewrite (mapM_read_write _ _ _ read_write_axis_ref). simpl.
  rewrite (mapM_read_write _ _ _ read_write_axis_ref). by destruct s.
Qed.

Lemma read_v1_unreduced_empty fields s :
  readTensorSharding (BcAttr 6 fields) = Some s → unreduced_axes s = [].
Proof.
  unfold readTensorSharding. intros H.
  destruct fields as [|m [|[] [|[] [|? ?]]]]; try discriminate.
  destruct (readMeshOrRef m); [|done]. simpl in H.
  destruct (mapM readDimensionSharding l); [|done]. simpl in H.
  destruct (mapM readAxisRef l0); [|done]. simpl in H.
  by inversion H.
Qed.

(** C9.  A tensor sharding is written as the V1 record (marker 6, three
    fields, no unreduced axes) exactly when its unreduced axes are empty, and
    as the V2 record (marker 15, the unreduced axes as fourth field) exactly
    when they are not.  Exactly one of the two printer predicates holds, so
    every sharding is written; any V1 record that reads back gives a sharding
    with no unreduced axes, and what is written reads back as the sharding
    itself. *)
Theorem tensor_sharding_version_selection (s : TensorShardingAttr) :
  (writeTensorSharding s = Some (writeTensorShardingV1 s) ↔ unreduced_axes s = [])
  ∧ (writeTensorSharding s = Some (writeTensorShardingV2 s) ↔ unreduced_axes s ≠ [])
  ∧ printerPredicateV2 s = negb (printerPredicateV1 s)
  ∧ (∃ m d r, writeTensorShardingV1 s = BcAttr 6 [m; d; r])
  ∧ (∃ m d r, writeTensorShardingV2 s
              = BcAttr 15 [m; d; r; BcArray (writeAxisRef <$> unreduced_axes s)])
  ∧ (∀ fields s', readTensorSharding (BcAttr 6 fields) = Some s' → unreduced_axes s' = [])
  ∧ (∃ v, writeTensorSharding s = Some v ∧ readTensorSharding v = Some s).
Proof.
  assert (writeTensorShardingV1 s ≠ writeTensorShardingV2 s) as Hne by discriminate.
  unfold writeTensorSharding, printerPredicateV1, printerPredicateV2.
  repeat split.
  - case_bool_decide as Hu; [done|]. simpl. intros H. inversion H.
  - intros ->. by rewrite bool_decide_eq_true_2.
  - case_bool_decide as Hu; [|done]. intros H. inversion H.
  - intros Hu. by rewrite bool_decide_eq_false_2.
  - by eexists _, _, _.
  - by eexists _, _, _.
  - apply read_v1_unreduced_empty.
  - case_bool_decide as Hu; simpl.
    + eexists. split; [done|]. rewrite read_write_tensor_sharding_v1.
      destruct s; simpl in *. by subst.
    + eexists. split; [done|]. apply read_write_tensor_sharding_v2.
Qed.

End BytecodeFacts.

(* ===================================================================== *)
(** ** Theorems: canonicalization patterns *)
(* ===================================================================== *)

Section CanonicalizationFacts.
Import Attrs Canonicalization ReshardExpectations CanonSpec.

Lemma numUses_usesIn f v : numUses f v = usesIn v (body f).
Proof. reflexivity. Qed.

Lemma usesIn_app v l k : usesIn v (l ++ k) = (usesIn v l + usesIn v k)%nat.
Proof. unfold usesIn. by rewrite fmap_app, join_app, filter_app, length_app. Qed.

Lemma usesIn_cons v op l :
  usesIn v (op :: l) = (length (filter (λ u, u = v) (operandsOf op)) + usesIn v l)%nat.
Proof. unfold usesIn. simpl. by rewrite filter_app, length_app. Qed.

Lemma usesIn_singleton v op :
  usesIn v [op] = length (filter (λ u, u = v) (operandsOf op)).
Proof. rewrite usesIn_cons. unfold usesIn. simpl. lia. Qed.

(** Replacing the operation at a position changes the number of uses of a
    value by the difference between the two operations. *)
Lemma usesIn_insert v ops root op op' :
  ops !! root = Some op →
  (usesIn v (<[root := op']> ops) + usesIn v [op] = usesIn v ops + usesIn v [op'])%nat.
Proof.
  intros Hlk. rewrite !usesIn_singleton.
  rewrite <- (take_drop_middle ops root op Hlk) at 2.
  rewrite insert_take_drop by (by eapply lookup_lt_Some).
  rewrite !usesIn_app, !usesIn_cons. lia.
Qed.

Lemma replaceValue_ne old new v : new ≠ old → replaceValue old new v ≠ old.
Proof. intros Hne. unfold replaceValue. by destruct (decide (v = old)). Qed.

Lemma usesIn_replaced old new ops :
  new ≠ old → usesIn old (replaceUsesInOp old new <$> ops) = 0%nat.
Proof.
  intros Hne. induction ops as [|op ops IH]; [done|].
  rewrite fmap_cons, usesIn_cons, IH.
  assert (filter (λ u, u = old) (operandsOf (replaceUsesInOp old new op)) = []) as ->; [|done].
  assert (∀ v, filter (λ u, u = old) [replaceValue old new v] = []) as Hone.
  { intros v. rewrite filter_cons_False; [done|]. by apply replaceValue_ne. }
  destruct op; simpl; try apply Hone; [|done].
  induction operands as [|v vs IHv]; [done|].
  rewrite fmap_cons, filter_cons_False by (by apply replaceValue_ne). done.
Qed.

(** After [replaceWithValue], the root is erased and nothing uses its
    result any more. *)
Lemma replaceWithValue_erases f root v :
  v ≠ OpResult root → (root < length (body f))%nat →
  body (applyRewrite f root (ReplaceWithValue v)) !! root = Some Erased
  ∧ numUses (applyRewrite f root (ReplaceWithValue v)) (OpResult root) = 0%nat.
Proof.
  intros Hne Hlt. simpl. split.
  - apply list_lookup_insert_eq. by rewrite length_fmap.
  - rewrite numUses_usesIn. simpl.
    destruct (lookup_lt_is_Some_2 (replaceUsesInOp (OpResult root) v <$> body f) root)
      as [op Hop]; [by rewrite length_fmap|].
    pose proof (usesIn_insert (OpResult root) _ root op Erased Hop) as Hins.
    rewrite usesIn_replaced, !usesIn_singleton in Hins by done.
    simpl in Hins. lia.
Qed.

(** C10.  An all-slice whose operand is defined by an all-gather with the
    same axes per dimension is replaced by the all-gather's operand: the
    pattern matches whatever the two shardings are and however often the
    all-gather is used; after the rewrite the all-slice is erased and every
    former use of its result is a use of the original value. *)
Theorem all_slice_of_all_gather_is_identity
    (f : Func) (root : nat) (gathered tensor : Value) (axesPerDim : ListOfAxisRefListsAttr)
    (gatherSharding sliceSharding : TensorShardingAttr) :
  body f !! root = Some (AllSliceOp gathered axesPerDim sliceSharding) →
  definingOp f gathered = Some (AllGatherOp tensor axesPerDim gatherSharding) →
  tensor ≠ OpResult root →
  AllSliceOfAllGatherPattern f root = Some (ReplaceWithValue tensor)
  ∧ body (applyRewrite f root (ReplaceWithValue tensor)) !! root = Some Erased
  ∧ numUses (applyRewrite f root (ReplaceWithValue tensor)) (OpResult root) = 0%nat
  ∧ ∀ (j : nat) (user : Op), j ≠ root → body f !! j = Some user →
      body (applyRewrite f root (ReplaceWithValue tensor)) !! j
      = Some (replaceUsesInOp (OpResult root) tensor user).
Proof.
  intros Hroot Hdef Hne.
  split.
  { unfold AllSliceOfAllGatherPattern. rewrite Hroot, Hdef.
    by rewrite bool_decide_eq_true_2. }
  destruct (replaceWithValue_erases f root tensor Hne) as [Her Hno];
    [by eapply lookup_lt_Some|].
  split; [done|]. split; [done|].
  intros j user Hj Huser. simpl.
  rewrite list_lookup_insert_ne by done.
  by rewrite list_lookup_fmap, Huser.
Qed.

Lemma all_slice_of_all_gather_is_identity_witness :
  AllSliceOfAllGatherPattern gatherThenSlice 1%nat = Some (ReplaceWithValue (BlockArg 0))
  ∧ body (applyRewrite gatherThenSlice 1%nat (ReplaceWithValue (BlockArg 0)))
    = [ AllGatherOp (BlockArg 0) [[ax "x"]; []] (sh "mesh2d" [closed []; closed [ax "y"]]);
        Erased; OtherOp [BlockArg 0] ].
Proof.
  split; [|reflexivity].
  exact (proj1 (all_slice_of_all_gather_is_identity gatherThenSlice 1%nat (OpResult 0)
                  (BlockArg 0) [[ax "x"]; []] _ _ eq_refl eq_refl
                  ltac:(discriminate))).
Defined.


Lemma all_to_all_fusion_guard overlaps combineAndSort f root inner
    inner_tensor inner_params inner_sharding outer_params outer_sharding :
  body f !! root = Some (AllToAllOp inner outer_params outer_sharding) →
  definingOp f inner = Some (AllToAllOp inner_tensor inner_params inner_sharding) →
  hasOneUse f inner = false ∨ overlaps inner_params outer_params = true →
  AllToAllFusionPattern overlaps combineAndSort f root = None.
Proof.
  intros Hroot Hdef Hguard. unfold AllToAllFusionPattern, AllToAllParamsNoOverlap.
  rewrite Hroot, Hdef. destruct Hguard as [-> | ->]; [done|]. by rewrite andb_false_r.
Qed.

(** C7.  An all-to-all whose operand is defined by another all-to-all that
    has this one use, with parameter lists that do not overlap, is replaced
    by one all-to-all on the inner operand, with [combineAndSort] of the
    inner and the outer parameters and the outer sharding.  The inner
    all-to-all is then without use, and [AllToAllNoUsePattern] removes it. *)
Theorem all_to_all_fusion
    (overlaps : AllToAllParamListAttr → AllToAllParamListAttr → bool)
    (combineAndSort : AllToAllParamListAttr → AllToAllParamListAttr → AllToAllParamListAttr)
    (f : Func) (root : nat) (inner inner_tensor : Value)
    (inner_params outer_params : AllToAllParamListAttr)
    (inner_sharding outer_sharding : TensorShardingAttr) :
  body f !! root = Some (AllToAllOp inner outer_params outer_sharding) →
  definingOp f inner = Some (AllToAllOp inner_tensor inner_params inner_sharding) →
  hasOneUse f inner = true →
  overlaps inner_params outer_params = false →
  inner_tensor ≠ inner →
  let fused :=
    AllToAllOp inner_tensor (combineAndSort inner_params outer_params) outer_sharding in
  let f' := applyRewrite f root (ReplaceWithOp fused) in
  AllToAllFusionPattern overlaps combineAndSort f root = Some (ReplaceWithOp fused)
  ∧ body f' !! root = Some fused
  ∧ hasNoUse f' inner = true
  ∧ ∃ j : nat, inner = OpResult j
      ∧ AllToAllNoUsePattern f' j = Some (ReplaceWithValue inner_tensor).
Proof.
  intros Hroot Hdef Hone Hov Hne fused f'.
  assert (root < length (body f))%nat as Hlt by (by eapply lookup_lt_Some).
  assert (numUses f' inner = 0%nat) as Hzero.
  { apply bool_decide_eq_true_1 in Hone.
    rewrite numUses_usesIn in *. subst f'. simpl.
    pose proof (usesIn_insert inner (body f) root _ fused Hroot) as Hins.
    rewrite !usesIn_singleton in Hins. simpl in Hins.
    rewrite filter_cons_True in Hins by done.
    rewrite filter_cons_False in Hins by done. simpl in Hins. lia. }
  split.
  { unfold AllToAllFusionPattern, AllToAllParamsNoOverlap. by rewrite Hroot, Hdef, Hone, Hov. }
  split; [by apply list_lookup_insert_eq|].
  split; [by apply bool_decide_eq_true_2|].
  destruct inner as [n|j]; [done|]. exists j. split; [done|].
  simpl in Hdef.
  assert (j ≠ root) as Hj.
  { intros ->. rewrite Hroot in Hdef. inversion Hdef. by subst. }
  unfold AllToAllNoUsePattern. subst f'. simpl.
  rewrite list_lookup_insert_ne by done. rewrite Hdef.
  unfold hasNoUse. by rewrite bool_decide_eq_true_2.
Qed.

Lemma all_to_all_fusion_witness :
  AllToAllFusionPattern ParamLists.overlaps ParamLists.combineAndSort twoAllToAlls 1%nat
  = Some (ReplaceWithOp
            (AllToAllOp (BlockArg 0)
               [mkAllToAllParam [ax "x"] 0 2; mkAllToAllParam [ax "y"] 1 3]
               (sh "mesh2d" [closed []; closed []; closed [ax "x"]; closed [ax "y"]]))).
Proof.
  exact (proj1 (all_to_all_fusion ParamLists.overlaps ParamLists.combineAndSort
                  twoAllToAlls 1%nat (OpResult 0) (BlockArg 0) _ _ _ _
                  eq_refl eq_refl eq_refl eq_refl ltac:(discriminate))).
Defined.

Lemma withFlags_dimKey mesh flags dims :
  Synthesis.dimKey mesh <$> withFlags flags dims = Synthesis.dimKey mesh <$> dims.
Proof.
  revert flags. induction dims as [|d ds IH]; intros [|c cs]; try done.
  simpl. by rewrite IH.
Qed.

Lemma identicalAfterMerge_refl symbols s : Synthesis.identicalAfterMerge symbols s s = true.
Proof.
  unfold Synthesis.identicalAfterMerge. by rewrite !bool_decide_eq_true_2.
Qed.

Lemma identicalAfterMerge_flags symbols flags s :
  Synthesis.identicalAfterMerge symbols s (withClosedFlags flags s) = true.
Proof.
  unfold Synthesis.identicalAfterMerge. simpl.
  rewrite withFlags_dimKey. by rewrite !bool_decide_eq_true_2.
Qed.

Lemma noop_pattern_applies overlaps combineAndSort f root op tensor :
  body f !! root = Some op → isEmptyAxesOp op tensor →
  ∃ p : Pattern,
    In p (patterns overlaps combineAndSort) ∧ p f root = Some (ReplaceWithValue tensor).
Proof.
  intros Hroot [(a & s & -> & Ha) | [(a & s & -> & Ha) | (a & s & -> & Ha)]].
  - exists AllGatherNoopPattern. split; [simpl; tauto|].
    unfold AllGatherNoopPattern. by rewrite Hroot, Ha.
  - exists AllSliceNoopPattern. split; [simpl; tauto|].
    unfold AllSliceNoopPattern. by rewrite Hroot, Ha.
  - exists AllReduceNoopPattern. split; [simpl; tauto|].
    unfold AllReduceNoopPattern. by rewrite Hroot, Ha.
Qed.

Lemma reshardToCollectives_elides symbols steps src tgt c :
  c ∈ Synthesis.reshardToCollectives symbols steps src tgt →
  c ∈ steps src tgt ∧ Synthesis.hasEmptyAxisParameters c = false.
Proof.
  unfold Synthesis.reshardToCollectives.
  destruct (Synthesis.identicalAfterMerge symbols src tgt); [by intros ?%elem_of_nil|].
  intros [Hc Hin]%list_elem_of_filter. by split.
Qed.

Lemma reshardToCollectives_keeps symbols steps src tgt c :
  Synthesis.identicalAfterMerge symbols src tgt = false →
  c ∈ steps src tgt → Synthesis.hasEmptyAxisParameters c = false →
  c ∈ Synthesis.reshardToCollectives symbols steps src tgt.
Proof.
  intros Hid Hin Hc. unfold Synthesis.reshardToCollectives. rewrite Hid.
  by apply list_elem_of_filter.
Qed.

(** C1.  The synthesis returns the empty sequence whenever the target is
    identical to the source after the canonical sub-axis merge, whatever the
    open/closed flags: in particular from any sharding to itself, and to
    itself with other flags.  Whatever collectives are generated for
    shardings that differ, none whose axis-parameter list is empty is in the
    output, and every other one is.  In the file of the canonicalization
    patterns, an all-gather or all-slice whose axis list is empty in every
    dimension (and an all-reduce with no axes) is replaced by its operand by
    a pattern; the operation is then erased and nothing uses its result. *)
Theorem identity_reshard_and_noop_elision :
  (∀ symbols steps (src tgt : TensorShardingAttr),
     Synthesis.identicalAfterMerge symbols src tgt = true →
     Synthesis.reshardToCollectives symbols steps src tgt = [])
  ∧ (∀ symbols steps (s : TensorShardingAttr),
       Synthesis.reshardToCollectives symbols steps s s = [])
  ∧ (∀ symbols steps flags (s : TensorShardingAttr),
       Synthesis.reshardToCollectives symbols steps s (withClosedFlags flags s) = [])
  ∧ (∀ symbols steps (src tgt : TensorShardingAttr) (c : Collective),
       c ∈ Synthesis.reshardToCollectives symbols steps src tgt →
       c ∈ steps src tgt ∧ Synthesis.hasEmptyAxisParameters c = false)
  ∧ (∀ symbols steps (src tgt : TensorShardingAttr) (c : Collective),
       Synthesis.identicalAfterMerge symbols src tgt = false →
       c ∈ steps src tgt → Synthesis.hasEmptyAxisParameters c = false →
       c ∈ Synthesis.reshardToCollectives symbols steps src tgt)
  ∧ (∀ overlaps combineAndSort (f : Func) (root : nat) (op : Op) (tensor : Value),
       body f !! root = Some op → isEmptyAxesOp op tensor →
       (∃ p : Pattern,
          In p (patterns overlaps combineAndSort)
          ∧ p f root = Some (ReplaceWithValue tensor))
       ∧ (tensor ≠ OpResult root →
          body (applyRewrite f root (ReplaceWithValue tensor)) !! root = Some Erased
          ∧ numUses (applyRewrite f root (ReplaceWithValue tensor)) (OpResult root) = 0%nat)).
Proof.
  split; [|split; [|split; [|split; [|split]]]].
  - intros symbols steps src tgt H. unfold Synthesis.reshardToCollectives. by rewrite H.
  - intros symbols steps s. unfold Synthesis.reshardToCollectives.
    by rewrite identicalAfterMerge_refl.
  - intros symbols steps flags s. unfold Synthesis.reshardToCollectives.
    by rewrite identicalAfterMerge_flags.
  - apply reshardToCollectives_elides.
  - apply reshardToCollectives_keeps.
  - intros overlaps combineAndSort f root op tensor Hroot Hop.
    split; [by eapply noop_pattern_applies|].
    intros Hne. apply replaceWithValue_erases; [done|]. by eapply lookup_lt_Some.
Qed.

Lemma identity_reshard_and_noop_elision_witness :
  Synthesis.reshardToCollectives [] stepsWithoutAxes split_x whole_x = []
  ∧ (collective_permute mesh2d_yx ∈ stepsWithoutAxes mesh2d_xy mesh2d_yx
     ∧ Synthesis.hasEmptyAxisParameters (collective_permute mesh2d_yx) = false)
  ∧ ∃ p : Pattern,
      In p (patterns ParamLists.overlaps ParamLists.combineAndSort)
      ∧ p emptyAllGather 0%nat = Some (ReplaceWithValue (BlockArg 0)).
Proof.
  split; [|split].
  - exact (proj1 identity_reshard_and_noop_elision [] _ split_x whole_x eq_refl).
  - refine (proj1 (proj2 (proj2 (proj2 identity_reshard_and_noop_elision))) meshes
              stepsWithoutAxes mesh2d_xy mesh2d_yx (collective_permute mesh2d_yx) _).
    apply list_elem_of_In. vm_compute. by left.
  - exact (proj1 (proj2 (proj2 (proj2 (proj2 (proj2 identity_reshard_and_noop_elision))))
                    _ _ emptyAllGather 0%nat _ (BlockArg 0) eq_refl
                    (or_introl (ex_intro _ _ (ex_intro _ _ (conj eq_refl eq_refl)))))).
Defined.

(** The expectation [redundant_reshard] is an instance: source and target
    differ in the open/closed flags only, and nothing is expected. *)
Lemma redundant_reshard_is_identity steps :
  Synthesis.reshardToCollectives meshes steps (source redundant_reshard)
    (target redundant_reshard) = expected redundant_reshard.
Proof. reflexivity. Qed.

(** Of steps that all carry no axis, only the collective-permute is left. *)
Example elision_example :
  Synthesis.reshardToCollectives meshes stepsWithoutAxes mesh2d_xy mesh2d_yx
  = [ collective_permute mesh2d_yx ].
Proof. vm_compute. reflexivity. Qed.

(** The file of the patterns has none for an all-to-all whose parameter
    carries no axis (it has a TODO for it): as long as the result of such
    an all-to-all is used, no pattern replaces it by a value. *)
Lemma empty_all_to_all_matches_no_pattern :
  ¬ replacedByValue ParamLists.overlaps ParamLists.combineAndSort emptyAllToAll 0%nat.
Proof.
  intros (p & v & Hin & Hp).
  simpl in Hin.
  repeat (destruct Hin as [<- | Hin]; [vm_compute in Hp; discriminate|]).
  done.
Qed.

Lemma insertParam_perm a l : ParamLists.insertParam a l ≡ₚ a :: l.
Proof.
  induction l as [|b l IH]; [done|]. simpl.
  destruct (ParamLists.paramLe a b); [done|]. rewrite IH. apply Permutation_swap.
Qed.

(** The modelled [combineAndSort] keeps every parameter of both lists. *)
Lemma combineAndSort_perm p q : ParamLists.combineAndSort p q ≡ₚ p ++ q.
Proof.
  unfold ParamLists.combineAndSort. induction (p ++ q) as [|a l IH]; [done|].
  simpl. by rewrite insertParam_perm, IH.
Qed.

Lemma paramLe_total a b : ParamLists.paramLe a b = false → ParamLists.paramLe b a = true.
Proof.
  unfold ParamLists.paramLe. intros H.
  apply orb_false_iff in H as [H1 H2]. apply Z.ltb_ge in H1.
  apply andb_false_iff in H2.
  destruct (decide (src_dim b = src_dim a)) as [Heq|Hne].
  - destruct H2 as [H2|H2]; [apply Z.eqb_neq in H2; lia|].
    apply Z.leb_gt in H2. apply orb_true_iff. right.
    apply andb_true_iff. split; [by apply Z.eqb_eq|]. apply Z.leb_le. lia.
  - apply orb_true_iff. left. apply Z.ltb_lt. lia.
Qed.

Lemma insertParam_sorted a l :
  Sorted (λ x y, ParamLists.paramLe x y = true) l →
  Sorted (λ x y, ParamLists.paramLe x y = true) (ParamLists.insertParam a l).
Proof.
  induction 1 as [|b l Hl IH Hhd]; simpl; [by repeat constructor|].
  destruct (ParamLists.paramLe a b) eqn:Hab.
  - constructor; [by constructor|]. by constructor.
  - constructor; [done|].
    destruct Hhd as [|c l' Hbc]; simpl.
    + constructor. by apply paramLe_total.
    + destruct (ParamLists.paramLe a c); constructor; [by apply paramLe_total|done].
Qed.

(** The modelled [combineAndSort] orders the parameters by source, then
    target dimension. *)
Lemma combineAndSort_sorted p q :
  Sorted (λ x y, ParamLists.paramLe x y = true) (ParamLists.combineAndSort p q).
Proof.
  unfold ParamLists.combineAndSort. induction (p ++ q) as [|a l IH]; [constructor|].
  simpl. by apply insertParam_sorted.
Qed.

End CanonicalizationFacts.

(* ===================================================================== *)
(** ** Theorems: the resharding expectations *)
(* ===================================================================== *)

Section ReshardFacts.
Import Attrs ReshardExpectations ReshardSpec.

(** In the expectations [slice_then_reorder_axes] and
    [slice_on_src_dim_then_all_to_all_subaxis] the all-slice comes first and
    the collective-permute second: there the collective-permute is not before
    every other collective of the sequence. *)
Lemma permute_follows_all_slice :
  expected slice_then_reorder_axes
  = [ all_slice [[ax "x"]; []; []] (sh "mesh2d" [closed [ax "y"; ax "x"]; closed []; closed []]);
      collective_permute (sh "mesh2d" [closed [ax "x"; ax "y"]; closed []; closed []]) ]
  ∧ ¬ permuteBeforeAll (expected slice_then_reorder_axes)
  ∧ ¬ permuteBeforeAll (expected slice_on_src_dim_then_all_to_all_subaxis).
Proof.
  split; [reflexivity|]. split.
  - intros H. specialize (H 1%nat 0%nat _ _ eq_refl eq_refl eq_refl eq_refl). lia.
  - intros H. specialize (H 1%nat 0%nat _ _ eq_refl eq_refl eq_refl eq_refl). lia.
Qed.

End ReshardFacts.

(* ===================================================================== *)
(** ** Theorems: propagation *)
(* ===================================================================== *)

Section PropagationFacts.
Import Attrs Enums Propagation ReshardExpectations PropagationSpec.

Lemma foldl_combine_le (l : list PropagationDirection) (acc d : PropagationDirection) :
  directionLe (foldl combineDirections acc l) d
  = directionLe acc d && forallb (λ x, directionLe x d) l.
Proof.
  revert acc. induction l as [|x l IH]; intros acc; simpl.
  - by rewrite andb_true_r.
  - rewrite IH. by destruct acc, x, d.
Qed.

Lemma forallb_fmap {A B : Type} (f : B → bool) (g : A → B) (l : list A) :
  forallb f (g <$> l) = forallb (λ x, f (g x)) l.
Proof. induction l as [|x l IH]; [done|]. rewrite fmap_cons. simpl. by rewrite IH. Qed.

(** C8.  Two directions combine to their join in the order
    [NONE < {FORWARD, BACKWARD} < BOTH]: a direction with itself or with
    [NONE] gives that direction, anything with [BOTH] gives [BOTH], and
    [FORWARD] with [BACKWARD], in either order, gives [BOTH].  On the
    integers of the enum the join is the bitwise or.  The direction of an
    operation, whatever the number of heuristics considered, is the least
    direction above the direction of each of them. *)
Theorem directions_combine_as_join :
  (∀ d, combineDirections d d = d)
  ∧ (∀ d, combineDirections d NONE = d ∧ combineDirections NONE d = d)
  ∧ (∀ d, combineDirections d BOTH = BOTH ∧ combineDirections BOTH d = BOTH)
  ∧ combineDirections FORWARD BACKWARD = BOTH
  ∧ combineDirections BACKWARD FORWARD = BOTH
  ∧ (∀ a b c, directionLe (combineDirections a b) c = directionLe a c && directionLe b c)
  ∧ (∀ a b, directionValue (combineDirections a b)
            = Z.lor (directionValue a) (directionValue b))
  ∧ (∀ (Op : Type) (heuristics : list (Op → PropagationDirection)) (k : nat) (op : Op)
       (d : PropagationDirection),
       directionLe (directionToPropagate heuristics k op) d
       = forallb (λ h, directionLe (h op) d) (take k heuristics)).
Proof.
  split; [by intros []|]. split; [by intros []|]. split; [by intros []|].
  split; [done|]. split; [done|].
  split; [by intros [] [] []|]. split; [by intros [] []|].
  intros Op heuristics k op d. unfold directionToPropagate.
  rewrite foldl_combine_le. apply forallb_fmap.
Qed.







(** *** The number of axis references as a measure *)













(** *** Folds of steps that only add specificity *)














(** *** Directions *)





Section EngineFacts.
Context (symbols : list (string * MeshAttr)) (conservative : bool).

(** *** Every step only adds specificity *)












(** *** No step makes an axis list longer than the longest of the state *)











(** *** A tier ends in a state that none of its steps changes *)









(** *** What a step does to one dimension *)






End EngineFacts.




(** The basic tier on the mesh ["x"=6]: with conservative propagation the
    result does not get the sub-axis of size 4, which does not divide 6;
    without the option it gets it. *)
Example conservative_propagation_example :
  runTier meshes true longestCandidate forwardThenBackward BasicTier 4 [pointwiseOp] fourOfSix
  = fourOfSix
  ∧ runTier meshes false longestCandidate forwardThenBackward BasicTier 4 [pointwiseOp]
      fourOfSix
    = [ sh "mesh1d_6" [closed [sub "x" 1 4]]; sh "mesh1d_6" [opened [sub "x" 1 4]] ].
Proof. vm_compute. done. Qed.




(** From a state where only the operand is sharded, the basic tier gives
    the result the operand's axis; the state reached is a fixpoint of every
    tier. *)
Example basic_propagation_example :
  runTier meshes false longestCandidate forwardThenBackward BasicTier 4 [pointwiseOp]
    initialState
  = [ sh "mesh2d" [opened [ax "x"]]; sh "mesh2d" [opened [ax "x"]] ]
  ∧ isFixpoint meshes false longestCandidate forwardThenBackward UserPriorityTier
      [pointwiseOp] [ sh "mesh2d" [opened [ax "x"]]; sh "mesh2d" [opened [ax "x"]] ] = true
  ∧ isFixpoint meshes false longestCandidate forwardThenBackward BasicTier [pointwiseOp]
      initialState = false.
Proof. vm_compute. done. Qed.

(** With user priorities one round over the priorities is not enough: what
    priority 1 adds to value 1 reaches values 2 and 3 at priority 0 in the
    next round only.  The tier repeats the rounds, and ends in a fixpoint. *)
Example user_priority_example :
  isFixpoint meshes false longestCandidate forwardThenBackward UserPriorityTier twoOps
    (userPriorityRound meshes false longestCandidate forwardThenBackward 11 twoOps
       priorityState) = false
  ∧ runTier meshes false longestCandidate forwardThenBackward UserPriorityTier 11 twoOps
      priorityState
    = [ sh "mesh2d" [mkDimSharding [ax "y"; ax "x"] false (Some 1)];
        sh "mesh2d" [opened [ax "x"; ax "y"]];
        sh "mesh2d" [mkDimSharding [ax "x"; ax "y"] false (Some 1)];
        sh "mesh2d" [opened [ax "x"; ax "y"]];
        sh "mesh2d" [mkDimSharding [ax "x"; ax "y"] false (Some 1)] ].
Proof. vm_compute. done. Qed.

End PropagationFacts.

(* ===================================================================== *)
(** ** More on the rule builder *)
(* ===================================================================== *)

Section RuleBuilderMoreFacts.
Import Attrs Enums RuleBuilder RuleBuilderMore BuilderSpec BuilderMoreSpec.

Lemma mapDimToFactor_in_range tm d idx size tm' :
  mapDimToFactor tm d idx size = Some tm' →
  d = kNullDim ∨ (0 ≤ d ∧ (Z.to_nat d < length tm)%nat).
Proof.
  unfold mapDimToFactor. intros H.
  destruct (decide (d = kNullDim)); [by left|].
  destruct (decide (d < 0)); [done|].
  destruct (tm !! Z.to_nat d) eqn:Hlk; [|done].
  right. split; [lia|]. by eapply lookup_lt_Some.
Qed.

Lemma mapDimsToFactor_in_range ms dims idx size ms' :
  mapDimsToFactor ms dims idx size = Some ms' → dimsInRange ms dims.
Proof.
  revert dims ms'. induction ms as [|tm ms IH]; intros [|d dims] ms' H; simpl in H;
    try discriminate; [constructor|].
  destruct (mapDimToFactor tm d idx size) as [tm1|] eqn:Hone; [|done]. simpl in H.
  destruct (mapDimsToFactor ms dims idx size) as [rest|] eqn:Hrest; [|done].
  constructor; [by eapply mapDimToFactor_in_range|]. by eapply IH.
Qed.

(** X1.  [addFactor] with dimension lists succeeds exactly when each list has one
    entry per tensor and every entry is [kNullDim] or a dimension of its
    tensor; a missing or extra entry, a negative entry other than [kNullDim]
    and an entry beyond the rank all make it fail. *)
Theorem addFactor_succeeds_iff_dims_in_range
    (b : OpShardingRuleBuilder) (operandDims resultDims : list Z) (factorSize : Z)
    (factorType : FactorType) (isBlocked : bool) :
  is_Some (addFactor b operandDims resultDims factorSize factorType isBlocked)
  ↔ dimsInRange (operandMappings b) operandDims ∧ dimsInRange (resultMappings b) resultDims.
Proof.
  split; [|intros [Ho Hr]; by apply addFactor_total].
  intros [b' H]. unfold addFactor in H.
  pose proof (reserveFactor_mappings b factorSize factorType isBlocked) as [Hom Hrm].
  destruct (reserveFactor b factorSize factorType isBlocked) as [idx b1]. simpl in *.
  destruct (mapDimsToFactor (operandMappings b1) operandDims idx factorSize)
    as [ops|] eqn:Hops; [|done]. simpl in H.
  destruct (mapDimsToFactor (resultMappings b1) resultDims idx factorSize)
    as [res|] eqn:Hres; [|done].
  rewrite Hom in Hops. rewrite Hrm in Hres.
  split; by eapply mapDimsToFactor_in_range.
Qed.

Lemma reserveFactor_eq b size ty blk :
  reserveFactor b size ty blk
  = (Z.of_nat (length (factorSizes b)),
     factorAdded b size ty blk (operandMappings b) (resultMappings b)).
Proof.
  unfold reserveFactor, factorAdded. destruct ty, blk; simpl; by rewrite ?app_nil_r.
Qed.

Lemma insert_as_alter {A : Type} (f : A → A) (l : list A) (i : nat) (x : A) :
  l !! i = Some x → <[i := f x]> l = alter f i l.
Proof.
  intros Hlk. apply list_eq. intros j.
  destruct (decide (i = j)) as [<-|Hne].
  - rewrite list_lookup_insert_eq by (by eapply lookup_lt_Some).
    by rewrite list_lookup_alter_eq, Hlk.
  - by rewrite list_lookup_insert_ne, list_lookup_alter_ne.
Qed.

Lemma mapSingleDimToFactor_Some d idx tm tm' :
  mapSingleDimToFactor d idx tm = Some tm'
  ↔ (tm = [] ∨ (Z.to_nat d < length tm)%nat) ∧ tm' = alter (push_back idx) (Z.to_nat d) tm.
Proof.
  unfold mapSingleDimToFactor. destruct tm as [|dm tm].
  { split; [intros [= <-]; split; [by left|done]|intros [_ ->]; done]. }
  destruct ((dm :: tm) !! Z.to_nat d) as [x|] eqn:Hlk.
  - rewrite (insert_as_alter (push_back idx) _ _ _ Hlk).
    split; [|by intros [_ ->]].
    intros [= <-]. split; [|done]. right. by eapply lookup_lt_Some.
  - apply lookup_ge_None in Hlk. split; [done|].
    intros [[|Hlt] _]; [done|lia].
Qed.

Lemma mapSingleDimOverAll_Some ms d idx ms' :
  mapSingleDimOverAllMappingsToFactor ms d idx = Some ms'
  ↔ dimFits d ms ∧ ms' = appendAtDim d idx ms.
Proof.
  unfold mapSingleDimOverAllMappingsToFactor, dimFits, appendAtDim.
  destruct (decide (d < 0)) as [Hneg|Hpos].
  { split; [done|]. intros [[? _] _]. lia. }
  rewrite mapM_Some. split.
  - intros H. induction H as [|tm tm' ms ms' Hone _ IH].
    + split; [split; [lia|constructor]|done].
    + apply mapSingleDimToFactor_Some in Hone as [Hfit ->].
      destruct IH as [[_ Hall] ->]. split; [split; [lia|by constructor]|done].
  - intros [[_ Hall] ->]. induction Hall as [|tm ms Hfit _ IH]; [constructor|].
    rewrite fmap_cons. constructor; [|done]. by apply mapSingleDimToFactor_Some.
Qed.

Lemma addFactorDim_Some b dim size ty blk b' :
  addFactorDim b dim size ty blk = Some b'
  ↔ dimFits dim (operandMappings b) ∧ dimFits dim (resultMappings b)
    ∧ b' = factorAdded b size ty blk
             (appendAtDim dim (Z.of_nat (length (factorSizes b))) (operandMappings b))
             (appendAtDim dim (Z.of_nat (length (factorSizes b))) (resultMappings b)).
Proof.
  unfold addFactorDim. rewrite reserveFactor_eq. simpl.
  set (idx := Z.of_nat (length (factorSizes b))).
  destruct (mapSingleDimOverAllMappingsToFactor (operandMappings b) dim idx) as [ops|] eqn:Ho;
    simpl.
  - apply mapSingleDimOverAll_Some in Ho as [Hfo ->].
    destruct (mapSingleDimOverAllMappingsToFactor (resultMappings b) dim idx) as [res|] eqn:Hr;
      simpl.
    + apply mapSingleDimOverAll_Some in Hr as [Hfr ->].
      split; [intros [= <-]; done|intros (_ & _ & ->); done].
    + split; [done|]. intros (_ & Hfr & _).
      assert (mapSingleDimOverAllMappingsToFactor (resultMappings b) dim idx
              = Some (appendAtDim dim idx (resultMappings b))) as Heq
        by (by apply mapSingleDimOverAll_Some).
      congruence.
  - split; [done|]. intros (Hfo & _ & _).
    assert (mapSingleDimOverAllMappingsToFactor (operandMappings b) dim idx
            = Some (appendAtDim dim idx (operandMappings b))) as Heq
      by (by apply mapSingleDimOverAll_Some).
    congruence.
Qed.

Lemma addFactorSameForAllOperands_Some b dim size ty blk b' :
  addFactorSameForAllOperands b dim size ty blk = Some b'
  ↔ dimFits dim (operandMappings b)
    ∧ b' = factorAdded b size ty blk
             (appendAtDim dim (Z.of_nat (length (factorSizes b))) (operandMappings b))
             (resultMappings b).
Proof.
  unfold addFactorSameForAllOperands. rewrite reserveFactor_eq. simpl.
  set (idx := Z.of_nat (length (factorSizes b))).
  destruct (mapSingleDimOverAllMappingsToFactor (operandMappings b) dim idx) as [ops|] eqn:Ho;
    simpl.
  - apply mapSingleDimOverAll_Some in Ho as [Hfo ->].
    split; [intros [= <-]; done|intros (_ & ->); done].
  - split; [done|]. intros (Hfo & _).
    assert (mapSingleDimOverAllMappingsToFactor (operandMappings b) dim idx
            = Some (appendAtDim dim idx (operandMappings b))) as Heq
      by (by apply mapSingleDimOverAll_Some).
    congruence.
Qed.

Lemma addFactorSameForAllResults_Some b dim size ty blk b' :
  addFactorSameForAllResults b dim size ty blk = Some b'
  ↔ dimFits dim (resultMappings b)
    ∧ b' = factorAdded b size ty blk (operandMappings b)
             (appendAtDim dim (Z.of_nat (length (factorSizes b))) (resultMappings b)).
Proof.
  unfold addFactorSameForAllResults. rewrite reserveFactor_eq. simpl.
  set (idx := Z.of_nat (length (factorSizes b))).
  destruct (mapSingleDimOverAllMappingsToFactor (resultMappings b) dim idx) as [res|] eqn:Hr;
    simpl.
  - apply mapSingleDimOverAll_Some in Hr as [Hfr ->].
    split; [intros [= <-]; done|intros (_ & ->); done].
  - split; [done|]. intros (Hfr & _).
    assert (mapSingleDimOverAllMappingsToFactor (resultMappings b) dim idx
            = Some (appendAtDim dim idx (resultMappings b))) as Heq
      by (by apply mapSingleDimOverAll_Some).
    congruence.
Qed.

Lemma appendAtDim_lookup d idx ms i tm :
  ms !! i = Some tm →
  appendAtDim d idx ms !! i = Some (alter (push_back idx) (Z.to_nat d) tm).
Proof. intros H. unfold appendAtDim. by rewrite list_lookup_fmap, H. Qed.

(** X2.  [addFactor(dim, factorSize, ...)] appends the new factor's index to
    dimension [dim] of every operand and result that has this dimension,
    whatever the factor's size and whatever the dimension already holds;
    the other dimensions stay as they are. *)
Theorem addFactor_single_dim_ignores_factor_size
    (b b' : OpShardingRuleBuilder) (dim factorSize : Z) (factorType : FactorType)
    (isBlocked : bool) (i : nat) (tm : TensorMapping) (dm : DimMapping) :
  addFactorDim b dim factorSize factorType isBlocked = Some b' →
  (operandMappings b ++ resultMappings b) !! i = Some tm →
  tm !! Z.to_nat dim = Some dm →
  ∃ tm' : TensorMapping,
    (operandMappings b' ++ resultMappings b') !! i = Some tm'
    ∧ tm' !! Z.to_nat dim = Some (push_back (Z.of_nat (length (factorSizes b))) dm)
    ∧ ∀ j : nat, j ≠ Z.to_nat dim → tm' !! j = tm !! j.
Proof.
  intros Hadd Hi Hd. apply addFactorDim_Some in Hadd as (_ & _ & ->). simpl.
  set (idx := Z.of_nat (length (factorSizes b))).
  exists (alter (push_back idx) (Z.to_nat dim) tm). split; [|split].
  - unfold appendAtDim. rewrite <- fmap_app. by rewrite list_lookup_fmap, Hi.
  - by rewrite list_lookup_alter_eq, Hd.
  - intros j Hj. by rewrite list_lookup_alter_ne.
Qed.

Lemma addFactor_single_dim_ignores_factor_size_witness :
  ∃ tm' : TensorMapping,
    (operandMappings (factorAdded builder_1x1_mapped 1 kPassThrough false
                        [[mkDimMapping [0; 1]]] [[mkDimMapping [0; 1]]])
     ++ resultMappings (factorAdded builder_1x1_mapped 1 kPassThrough false
                          [[mkDimMapping [0; 1]]] [[mkDimMapping [0; 1]]])) !! 0%nat
    = Some tm'
    ∧ tm' !! Z.to_nat 0 = Some (push_back 1 (mkDimMapping [0]))
    ∧ ∀ j : nat, j ≠ Z.to_nat 0 → tm' !! j = [mkDimMapping [0]] !! j.
Proof.
  exact (addFactor_single_dim_ignores_factor_size builder_1x1_mapped _ 0 1 kPassThrough
           false 0%nat [mkDimMapping [0]] (mkDimMapping [0]) eq_refl eq_refl eq_refl).
Defined.

(** X3.  The single-dimension methods succeed exactly when the dimension is
    not negative and lies inside every tensor of rank at least one on the
    side they map (tensors of rank 0 are skipped and never make them
    fail).  The builder after the call, in closed form: one
    factor is reserved (its size appended, its index recorded under its type
    and, if blocked, among the blocked factors) and the index is appended at
    the dimension of every tensor on the side the method maps;
    [addFactorSameForAllOperands] leaves the result mappings as they are and
    [addFactorSameForAllResults] the operand mappings. *)
Theorem single_dim_methods_closed_form
    (b b' : OpShardingRuleBuilder) (dim factorSize : Z) (factorType : FactorType)
    (isBlocked : bool) :
  let idx := Z.of_nat (length (factorSizes b)) in
  (addFactorDim b dim factorSize factorType isBlocked = Some b'
   ↔ dimFits dim (operandMappings b) ∧ dimFits dim (resultMappings b)
     ∧ b' = factorAdded b factorSize factorType isBlocked
              (appendAtDim dim idx (operandMappings b))
              (appendAtDim dim idx (resultMappings b)))
  ∧ (addFactorSameForAllOperands b dim factorSize factorType isBlocked = Some b'
     ↔ dimFits dim (operandMappings b)
       ∧ b' = factorAdded b factorSize factorType isBlocked
                (appendAtDim dim idx (operandMappings b)) (resultMappings b))
  ∧ (addFactorSameForAllResults b dim factorSize factorType isBlocked = Some b'
     ↔ dimFits dim (resultMappings b)
       ∧ b' = factorAdded b factorSize factorType isBlocked
                (operandMappings b) (appendAtDim dim idx (resultMappings b))).
Proof.
  intros idx. split; [|split].
  - apply addFactorDim_Some.
  - apply addFactorSameForAllOperands_Some.
  - apply addFactorSameForAllResults_Some.
Qed.

End RuleBuilderMoreFacts.

(* ===================================================================== *)
(** ** The pointwise methods of the rule builder *)
(* ===================================================================== *)

Section PointwiseFacts.
Import Attrs Enums RuleBuilder RuleBuilderMore BuilderSpec BuilderMoreSpec.

Lemma pointwiseAfter_zero k0 n0 tm : pointwiseAfter k0 n0 0 tm = tm.
Proof.
  unfold pointwiseAfter. apply list_eq. intros j. rewrite list_lookup_imap.
  destruct (tm !! j); simpl; [|done]. by rewrite decide_False by lia.
Qed.

Lemma pointwiseAfter_step k0 n0 len tm :
  pointwiseAfter (S k0) (S n0) len (alter (push_back (Z.of_nat n0)) k0 tm)
  = pointwiseAfter k0 n0 (S len) tm.
Proof.
  unfold pointwiseAfter. apply list_eq. intros j. rewrite !list_lookup_imap.
  destruct (decide (k0 = j)) as [<-|Hne].
  - rewrite list_lookup_alter_eq. destruct (tm !! k0); simpl; [|done].
    rewrite decide_False by lia. rewrite decide_True by lia.
    by rewrite Nat.sub_diag, Nat.add_0_r.
  - rewrite list_lookup_alter_ne by done. destruct (tm !! j); [|done].
    cbn -[Nat.add Nat.sub].
    destruct (decide (S k0 ≤ j < S k0 + len)%nat).
    + rewrite decide_True by lia.
      by replace (S n0 + (j - S k0))%nat with (n0 + (j - k0))%nat by lia.
    + by rewrite decide_False by lia.
Qed.

Lemma newFactorsWhere_zero P k0 n0 : newFactorsWhere P k0 n0 0 = [].
Proof. reflexivity. Qed.

Lemma newFactorsWhere_step P k0 n0 len :
  newFactorsWhere P k0 n0 (S len)
  = (if P (Z.of_nat k0) then [Z.of_nat n0] else [])
    ++ newFactorsWhere P (S k0) (S n0) len.
Proof.
  unfold newFactorsWhere. cbn [seq]. rewrite <- fmap_S_seq.
  assert (∀ l : list nat,
    (λ i : nat, Z.of_nat (n0 + i)) <$> filter (λ i, P (Z.of_nat (k0 + i)) = true) (S <$> l)
    = (λ i : nat, Z.of_nat (S n0 + i))
        <$> filter (λ i, P (Z.of_nat (S k0 + i)) = true) l) as Htail.
  { induction l as [|a l IH]; [done|].
    rewrite fmap_cons, !filter_cons.
    replace (k0 + S a)%nat with (S k0 + a)%nat by lia.
    destruct (decide (P (Z.of_nat (S k0 + a)) = true)).
    - rewrite !fmap_cons, IH. f_equal. f_equal. lia.
    - apply IH. }
  rewrite filter_cons, Nat.add_0_r.
  destruct (decide (P (Z.of_nat k0) = true)) as [Hp|Hp].
  - rewrite Hp, fmap_cons, Htail, Nat.add_0_r. done.
  - apply not_true_is_false in Hp. rewrite Hp. apply Htail.
Qed.

Lemma shapeFits_zero k0 ms : shapeFits k0 0 ms.
Proof. unfold shapeFits. apply Forall_forall. intros tm _. right. by left. Qed.

Lemma shapeFits_step k0 len idx ms :
  shapeFits k0 (S len) ms
  ↔ dimFits (Z.of_nat k0) ms ∧ shapeFits (S k0) len (appendAtDim (Z.of_nat k0) idx ms).
Proof.
  unfold shapeFits, dimFits, appendAtDim. rewrite Nat2Z.id, Forall_fmap.
  split.
  - intros H. split; [split; [lia|]|]; eapply Forall_impl; try exact H; simpl;
      intros tm Htm.
    + destruct Htm as [->|[?|?]]; [by left|lia|right; lia].
    + rewrite length_alter. destruct Htm as [->|[?|?]]; [by left|lia|].
      destruct len; [right; by left|right; right; lia].
  - intros [[_ H1] H2]. rewrite Forall_forall in H1, H2. apply Forall_forall.
    intros tm Hin. pose proof (H1 tm Hin) as Hfit. pose proof (H2 tm Hin) as Hrest.
    simpl in Hrest. rewrite length_alter in Hrest.
    destruct Hfit as [->|Hfit]; [by left|]. right. right.
    destruct Hrest as [Hrest|[->|?]]; [|lia|lia].
    destruct tm; [simpl in Hfit; lia|]. destruct k0; simpl in Hrest; discriminate.
Qed.

Lemma pointwiseAddedAt_nil b k0 tyAt blkAt : pointwiseAddedAt b k0 [] tyAt blkAt = b.
Proof.
  unfold pointwiseAddedAt. simpl. rewrite !newFactorsWhere_zero, !app_nil_r.
  rewrite !(list_fmap_ext (pointwiseAfter k0 (length (factorSizes b)) 0) id)
    by (intros; apply pointwiseAfter_zero).
  rewrite !list_fmap_id. by destruct b.
Qed.

Lemma pointwiseAddedAt_cons b k0 size shape tyAt blkAt :
  pointwiseAddedAt
    (factorAdded b size (tyAt (Z.of_nat k0)) (blkAt (Z.of_nat k0))
       (appendAtDim (Z.of_nat k0) (Z.of_nat (length (factorSizes b))) (operandMappings b))
       (appendAtDim (Z.of_nat k0) (Z.of_nat (length (factorSizes b))) (resultMappings b)))
    (S k0) shape tyAt blkAt
  = pointwiseAddedAt b k0 (size :: shape) tyAt blkAt.
Proof.
  unfold pointwiseAddedAt, factorAdded, appendAtDim. simpl.
  rewrite !length_app, !Nat2Z.id. simpl. rewrite !Nat.add_1_r.
  rewrite <- !list_fmap_compose.
  rewrite !(list_fmap_ext (pointwiseAfter (S k0) (S (length (factorSizes b))) (length shape)
                            ∘ alter (push_back (Z.of_nat (length (factorSizes b)))) k0)
                          (pointwiseAfter k0 (length (factorSizes b)) (S (length shape))))
    by (intros; apply pointwiseAfter_step).
  rewrite !(newFactorsWhere_step _ k0), <- !app_assoc.
  f_equal; f_equal;
    match goal with
    | |- context [decide (?P)] =>
        destruct (decide P); [by rewrite bool_decide_eq_true_2|by rewrite bool_decide_eq_false_2]
    | _ => done
    end.
Qed.

Lemma addFactorDim_fits b k0 size ty blk :
  dimFits (Z.of_nat k0) (operandMappings b) → dimFits (Z.of_nat k0) (resultMappings b) →
  addFactorDim b (Z.of_nat k0) size ty blk
  = Some (factorAdded b size ty blk
            (appendAtDim (Z.of_nat k0) (Z.of_nat (length (factorSizes b))) (operandMappings b))
            (appendAtDim (Z.of_nat k0) (Z.of_nat (length (factorSizes b))) (resultMappings b))).
Proof. intros Ho Hr. by apply addFactorDim_Some. Qed.

Lemma addPointwiseFrom_Some shape : ∀ b k0 getFactorType getIsBlocked b',
  addPointwiseFrom b (Z.of_nat k0) shape getFactorType getIsBlocked = Some b'
  ↔ shapeFits k0 (length shape) (operandMappings b)
    ∧ shapeFits k0 (length shape) (resultMappings b)
    ∧ b' = pointwiseAdded b k0 shape getFactorType getIsBlocked.
Proof.
  unfold pointwiseAdded.
  induction shape as [|size shape IH]; intros b k0 gft gib b'.
  { simpl. rewrite pointwiseAddedAt_nil. split.
    - intros [= <-]. split; [apply shapeFits_zero|]. split; [apply shapeFits_zero|done].
    - by intros (_ & _ & ->). }
  cbn [addPointwiseFrom length].
  rewrite <- (pointwiseAddedAt_cons b k0 size shape gft (λ d, gib (gft d))).
  rewrite (shapeFits_step k0 _ (Z.of_nat (length (factorSizes b))) (operandMappings b)).
  rewrite (shapeFits_step k0 _ (Z.of_nat (length (factorSizes b))) (resultMappings b)).
  destruct (addFactorDim b (Z.of_nat k0) size (gft (Z.of_nat k0)) (gib (gft (Z.of_nat k0))))
    as [b1|] eqn:Hadd; simpl.
  - apply addFactorDim_Some in Hadd as (Ho & Hr & ->).
    replace (Z.of_nat k0 + 1) with (Z.of_nat (S k0)) by lia.
    rewrite IH. simpl. tauto.
  - split; [done|]. intros ([Ho _] & [Hr _] & _).
    rewrite addFactorDim_fits in Hadd by done. done.
Qed.

(** X4.  [addPointwise] over a shape of [n] dimensions succeeds exactly when
    every operand and result is of rank 0 or has at least [n] dimensions
    (or [n] is 0).  The builder it leaves, in closed form: the shape is
    appended to the factor sizes, dimension [i] of every tensor of rank at
    least one gets the factor [i] positions after the builder's old factors,
    and each new factor is recorded under the type [getFactorType] gives its
    dimension and as blocked when [getIsBlocked] of this type holds. *)
Theorem addPointwise_closed_form
    (b b' : OpShardingRuleBuilder) (shape : list Z) (getFactorType : Z → FactorType)
    (getIsBlocked : FactorType → bool) :
  addPointwise b shape getFactorType getIsBlocked = Some b'
  ↔ shapeFits 0 (length shape) (operandMappings b)
    ∧ shapeFits 0 (length shape) (resultMappings b)
    ∧ b' = pointwiseAdded b 0 shape getFactorType getIsBlocked.
Proof. apply (addPointwiseFrom_Some shape b 0%nat). Qed.

Lemma addPointwiseWithDiffTypeForMismatchFrom_lengths inShape :
  ∀ outShape b dim ty blk,
  length inShape ≠ length outShape →
  addPointwiseWithDiffTypeForMismatchFrom b dim inShape outShape ty blk = None.
Proof.
  induction inShape as [|x inShape IH]; intros [|y outShape] b dim ty blk Hlen;
    simpl in *; try done.
  destruct (if decide (x = y) then _ else _) as [b1|]; simpl; [|done].
  apply IH. lia.
Qed.

Lemma addPointwiseWithDiffTypeForMismatchFrom_Some inShape :
  ∀ outShape b k0 tyAt blkAt ty blk b',
  length inShape = length outShape →
  (∀ (i : nat) (x y : Z), inShape !! i = Some x → outShape !! i = Some y →
     tyAt (Z.of_nat (k0 + i)) = (if decide (x = y) then kPassThrough else ty)
     ∧ blkAt (Z.of_nat (k0 + i)) = (if decide (x = y) then false else blk)) →
  addPointwiseWithDiffTypeForMismatchFrom b (Z.of_nat k0) inShape outShape ty blk = Some b'
  ↔ shapeFits k0 (length inShape) (operandMappings b)
    ∧ shapeFits k0 (length inShape) (resultMappings b)
    ∧ b' = pointwiseAddedAt b k0 inShape tyAt blkAt.
Proof.
  induction inShape as [|x inShape IH]; intros [|y outShape] b k0 tyAt blkAt ty blk b' Hlen Hat;
    try discriminate.
  { simpl. rewrite pointwiseAddedAt_nil. split.
    - intros [= <-]. split; [apply shapeFits_zero|]. split; [apply shapeFits_zero|done].
    - by intros (_ & _ & ->). }
  cbn [addPointwiseWithDiffTypeForMismatchFrom length].
  rewrite <- (pointwiseAddedAt_cons b k0 x inShape tyAt blkAt).
  rewrite (shapeFits_step k0 _ (Z.of_nat (length (factorSizes b))) (operandMappings b)).
  rewrite (shapeFits_step k0 _ (Z.of_nat (length (factorSizes b))) (resultMappings b)).
  destruct (Hat 0%nat x y eq_refl eq_refl) as [Hty Hblk]. rewrite Nat.add_0_r in Hty, Hblk.
  assert ((if decide (x = y)
           then addFactorDim b (Z.of_nat k0) x kPassThrough false
           else addFactorDim b (Z.of_nat k0) x ty blk)
          = addFactorDim b (Z.of_nat k0) x (tyAt (Z.of_nat k0)) (blkAt (Z.of_nat k0))) as ->.
  { rewrite Hty, Hblk. by destruct (decide (x = y)). }
  destruct (addFactorDim b (Z.of_nat k0) x (tyAt (Z.of_nat k0)) (blkAt (Z.of_nat k0)))
    as [b1|] eqn:Hadd; simpl.
  - apply addFactorDim_Some in Hadd as (Ho & Hr & ->).
    replace (Z.of_nat k0 + 1) with (Z.of_nat (S k0)) by lia.
    rewrite (IH outShape _ (S k0) tyAt blkAt).
    + simpl. tauto.
    + simpl in Hlen. lia.
    + intros i x' y' Hx Hy. replace (S k0 + i)%nat with (k0 + S i)%nat by lia.
      by apply Hat.
  - split; [done|]. intros ([Ho _] & [Hr _] & _).
    rewrite addFactorDim_fits in Hadd by done. done.
Qed.

Lemma sizesDiffer_at inShape outShape (i : nat) (x y : Z) :
  inShape !! i = Some x → outShape !! i = Some y →
  sizesDiffer inShape outShape (Z.of_nat i) = (if decide (x = y) then false else true).
Proof.
  intros Hx Hy. unfold sizesDiffer. rewrite Nat2Z.id, Hx, Hy.
  destruct (decide (x = y)) as [->|Hne].
  - by apply bool_decide_eq_false_2; intros H.
  - apply bool_decide_eq_true_2. congruence.
Qed.

(** X5.  [addPointwiseWithDiffTypeForMismatch] succeeds exactly when the two
    shapes have the same number of dimensions and every operand and result
    is of rank 0 or has that many dimensions.  It then is a pointwise pass
    over the input shape in which the factor of a dimension whose sizes
    agree is pass-through and not blocked, and the factor of a dimension
    whose sizes differ has the mismatch type and is blocked as asked; the
    factor's size is always the input size. *)
Theorem addPointwiseWithDiffTypeForMismatch_closed_form
    (b b' : OpShardingRuleBuilder) (inShape outShape : list Z)
    (mismatchFactorType : FactorType) (mismatchFactorIsBlocked : bool) :
  addPointwiseWithDiffTypeForMismatch b inShape outShape
    mismatchFactorType mismatchFactorIsBlocked = Some b'
  ↔ length inShape = length outShape
    ∧ shapeFits 0 (length inShape) (operandMappings b)
    ∧ shapeFits 0 (length inShape) (resultMappings b)
    ∧ b' = pointwiseAddedAt b 0 inShape
             (λ d, if sizesDiffer inShape outShape d then mismatchFactorType
                   else kPassThrough)
             (λ d, sizesDiffer inShape outShape d && mismatchFactorIsBlocked).
Proof.
  unfold addPointwiseWithDiffTypeForMismatch.
  destruct (decide (length inShape = length outShape)) as [Hlen|Hlen].
  - change 0 with (Z.of_nat 0).
    rewrite (addPointwiseWithDiffTypeForMismatchFrom_Some inShape outShape b 0%nat
               (λ d, if sizesDiffer inShape outShape d then mismatchFactorType
                     else kPassThrough)
               (λ d, sizesDiffer inShape outShape d && mismatchFactorIsBlocked)); [tauto|done|].
    intros i x y Hx Hy. simpl. rewrite (sizesDiffer_at _ _ i x y Hx Hy).
    by destruct (decide (x = y)).
  - rewrite addPointwiseWithDiffTypeForMismatchFrom_lengths by done.
    split; [done|]. by intros [? _].
Qed.

(** X6.  On two equal shapes [addPointwiseWithDiffTypeForMismatch] is
    [addPointwise] with pass-through factors that are not blocked: the
    mismatch type and the mismatch blocking are not used. *)
Theorem addPointwiseWithDiffTypeForMismatch_equal_shapes
    (b : OpShardingRuleBuilder) (shape : list Z)
    (mismatchFactorType : FactorType) (mismatchFactorIsBlocked : bool) :
  addPointwiseWithDiffTypeForMismatch b shape shape
    mismatchFactorType mismatchFactorIsBlocked
  = addPointwise b shape (λ _, kPassThrough) (λ _, false).
Proof.
  apply option_eq. intros b'.
  unfold addPointwiseWithDiffTypeForMismatch, addPointwise.
  change 0 with (Z.of_nat 0).
  rewrite (addPointwiseWithDiffTypeForMismatchFrom_Some shape shape b 0%nat
             (λ _, kPassThrough) (λ _, false)); [|done|].
  - by rewrite addPointwiseFrom_Some.
  - intros i x y Hx Hy. assert (x = y) as -> by congruence.
    by destruct (decide (y = y)).
Qed.

End PointwiseFacts.

(* ===================================================================== *)
(** ** Rules without padding: identity and pointwise rules *)
(* ===================================================================== *)

Section IdentityRuleFacts.
Import Attrs Enums RuleBuilder RuleBuilderMore BuilderSpec BuilderMoreSpec.

Lemma buildDimMappingAttrs_mapped tm fs :
  Forall (λ dm, factorIndices dm ≠ []) tm →
  buildDimMappingAttrs tm fs = (dimAttr <$> tm, fs).
Proof.
  induction 1 as [|dm tm Hdm _ IH]; [done|].
  cbn [buildDimMappingAttrs]. rewrite IH.
  rewrite fmap_cons. change (dimAttr dm) with (mkDimMappingAttr (factorIndices dm)).
  destruct (factorIndices dm); done.
Qed.

Lemma buildTensorMappingAttrList_mapped ms fs :
  Forall (Forall (λ dm, factorIndices dm ≠ [])) ms →
  buildTensorMappingAttrList ms fs = (tensorAttr <$> ms, fs).
Proof.
  induction 1 as [|tm ms Htm _ IH]; [done|].
  cbn [buildTensorMappingAttrList].
  by rewrite (buildDimMappingAttrs_mapped tm fs Htm), IH.
Qed.

Lemma build_mapped b : fullyMapped b → build b = (ruleOf b, b).
Proof.
  unfold fullyMapped. rewrite Forall_app. intros [Ho Hr].
  rewrite (surjective_pairing (build b)), build_restores_builder. f_equal.
  unfold build.
  rewrite (buildTensorMappingAttrList_mapped _ _ Ho).
  by rewrite (buildTensorMappingAttrList_mapped _ _ Hr).
Qed.

Lemma Forall2_diag_inv {A : Type} (Q : A → A → Prop) (l : list A) :
  Forall2 Q l l → Forall (λ x, Q x x) l.
Proof.
  induction l as [|x l IH]; intros H; [constructor|].
  inversion H; subst. constructor; auto.
Qed.

Lemma tensorPadded_mapped ms :
  Forall2 tensorPadded ms (tensorAttr <$> ms) →
  Forall (Forall (λ dm, factorIndices dm ≠ [])) ms.
Proof.
  rewrite Forall2_fmap_r. intros H. apply Forall2_diag_inv in H.
  eapply Forall_impl; [exact H|]. simpl. intros tm Htm.
  unfold tensorPadded, tensorAttr in Htm. simpl in Htm.
  rewrite Forall2_fmap_r in Htm. apply Forall2_diag_inv in Htm.
  eapply Forall_impl; [exact Htm|]. simpl. intros dm Hdm.
  unfold dimPadded, dimAttr in Hdm. simpl in Hdm.
  destruct (factorIndices dm); [by destruct Hdm|done].
Qed.

(** X7.  [build] returns exactly the builder's data as a rule, adding no
    factor, if and only if every dimension of every operand and result
    already has a factor. *)
Theorem build_adds_nothing_iff_fully_mapped (b : OpShardingRuleBuilder) :
  build b = (ruleOf b, b) ↔ fullyMapped b.
Proof.
  split; [|apply build_mapped].
  intros H. unfold fullyMapped. apply Forall_app.
  pose proof (buildTensorMappingAttrList_spec (operandMappings b) (factorSizes b))
    as [Hops (n1 & Hfs1 & _)].
  unfold build in H.
  destruct (buildTensorMappingAttrList (operandMappings b) (factorSizes b)) as [oattrs fs1].
  simpl in Hops, Hfs1.
  pose proof (buildTensorMappingAttrList_spec (resultMappings b) fs1) as [Hres _].
  destruct (buildTensorMappingAttrList (resultMappings b) fs1) as [rattrs fs2].
  simpl in Hres. injection H as Hsz Ho Hr _. subst oattrs rattrs.
  split; by apply tensorPadded_mapped.
Qed.

Lemma pointwiseAfter_fresh len :
  pointwiseAfter 0 0 len (emptyTensorMapping len)
  = (λ i : nat, mkDimMapping [Z.of_nat i]) <$> seq 0 len.
Proof.
  unfold pointwiseAfter, emptyTensorMapping. apply list_eq. intros j.
  rewrite list_lookup_imap, list_lookup_fmap.
  destruct (decide (j < len)%nat) as [Hlt|Hge].
  - rewrite lookup_replicate_2, lookup_seq_lt by done. cbn -[Nat.add Nat.sub].
    rewrite decide_True by lia. by rewrite Nat.sub_0_r.
  - rewrite (proj1 (lookup_replicate_None _ _ _)) by lia.
    by rewrite lookup_seq_ge by lia.
Qed.

Lemma pushOwnIndex_fresh len :
  pushOwnIndex (emptyTensorMapping len)
  = (λ i : nat, mkDimMapping [Z.of_nat i]) <$> seq 0 len.
Proof.
  unfold pushOwnIndex, emptyTensorMapping. apply list_eq. intros j.
  rewrite list_lookup_imap, list_lookup_fmap.
  destruct (decide (j < len)%nat) as [Hlt|Hge].
  - by rewrite lookup_replicate_2, lookup_seq_lt by done.
  - rewrite (proj1 (lookup_replicate_None _ _ _)) by lia.
    by rewrite lookup_seq_ge by lia.
Qed.

Lemma tensorAttr_identity len :
  tensorAttr ((λ i : nat, mkDimMapping [Z.of_nat i]) <$> seq 0 len) = identityMapping len.
Proof. unfold tensorAttr, identityMapping. by rewrite <- list_fmap_compose. Qed.

Lemma identity_dims_mapped len :
  Forall (λ dm, factorIndices dm ≠ []) ((λ i : nat, mkDimMapping [Z.of_nat i]) <$> seq 0 len).
Proof. apply Forall_fmap, Forall_forall. by intros i _. Qed.

Lemma newFactorsWhere_false P k0 n0 len :
  (∀ d, P d = false) → newFactorsWhere P k0 n0 len = [].
Proof.
  intros HP. revert k0 n0. induction len as [|len IH]; intros k0 n0; [done|].
  by rewrite newFactorsWhere_step, HP, IH.
Qed.

Lemma shapeFits_fresh len n : shapeFits 0 len (emptyTensorMapping <$> replicate n len).
Proof.
  unfold shapeFits. rewrite fmap_replicate. apply Forall_replicate.
  right. right. unfold emptyTensorMapping. rewrite length_replicate. lia.
Qed.

Lemma createIdentityShardingRule_eq (shape : list Z) (numOperands numResults : nat) :
  createIdentityShardingRule shape numOperands numResults
  = Some (identityRule shape numOperands numResults).
Proof.
  unfold createIdentityShardingRule.
  set (b := newBuilder _ _).
  assert (addPointwise b shape (λ _, kPassThrough) (λ _, false)
          = Some (pointwiseAdded b 0 shape (λ _, kPassThrough) (λ _, false))) as ->.
  { apply addPointwiseFrom_Some with (k0 := 0%nat).
    split; [apply shapeFits_fresh|]. split; [apply shapeFits_fresh|done]. }
  simpl. f_equal. rewrite build_mapped.
  - unfold ruleOf, pointwiseAdded, pointwiseAddedAt, identityRule, b. simpl.
    rewrite !newFactorsWhere_false by done.
    rewrite !fmap_replicate, pointwiseAfter_fresh, tensorAttr_identity. done.
  - unfold fullyMapped, pointwiseAdded, pointwiseAddedAt, b. simpl.
    rewrite !fmap_replicate, pointwiseAfter_fresh, <- replicate_add.
    apply Forall_replicate, identity_dims_mapped.
Qed.

(** X8.  [createIdentityShardingRule] never fails and returns the identity
    rule: the factor sizes are the shape, every operand and result maps
    dimension [i] to factor [i], no factor has a special type or is blocked,
    and no size-1 factor is added.  For a rank-0 type the rule has no factor
    and empty mappings. *)
Theorem createIdentityShardingRule_closed_form
    (shape : list Z) (numOperands numResults : nat) :
  createIdentityShardingRule shape numOperands numResults
  = Some (identityRule shape numOperands numResults).
Proof. apply createIdentityShardingRule_eq. Qed.

Lemma pushOwnIndex_ranks (shapes : list (list Z)) :
  pushOwnIndex <$> (emptyTensorMapping <$> (length <$> shapes))
  = (λ s : list Z, (λ i : nat, mkDimMapping [Z.of_nat i]) <$> seq 0 (length s)) <$> shapes.
Proof.
  rewrite <- !list_fmap_compose. apply list_fmap_ext. intros _ s _. simpl.
  apply pushOwnIndex_fresh.
Qed.

Lemma buildPointwise_cons (operandShapes resultShapes : list (list Z)) (shape : list Z) :
  buildPointwise operandShapes (shape :: resultShapes)
  = Some (pointwiseRule operandShapes (shape :: resultShapes) shape).
Proof.
  unfold buildPointwise. f_equal.
  rewrite build_mapped.
  - unfold ruleOf, pointwiseRule. cbn [fst factorSizes operandMappings resultMappings
      reductionFactors needReplicationFactors permutationFactors blockedPropagationFactors
      newBuilder].
    rewrite !pushOwnIndex_ranks, <- !list_fmap_compose. f_equal.
    + apply list_fmap_ext. intros _ s _. apply tensorAttr_identity.
    + apply list_fmap_ext. intros _ s _. apply tensorAttr_identity.
  - unfold fullyMapped. cbn [operandMappings resultMappings newBuilder].
    rewrite !pushOwnIndex_ranks, <- fmap_app. apply Forall_fmap, Forall_forall.
    intros s _. apply identity_dims_mapped.
Qed.

(** X9.  [buildPointwise] fails on an operation without results; otherwise
    it returns the rule whose factor sizes are the first result's shape and
    in which every operand and result maps its dimension [i] to factor [i],
    whatever the other shapes are; no factor is added, typed or blocked. *)
Theorem buildPointwise_closed_form
    (operandShapes resultShapes : list (list Z)) (shape : list Z) :
  buildPointwise operandShapes [] = None
  ∧ buildPointwise operandShapes (shape :: resultShapes)
    = Some (pointwiseRule operandShapes (shape :: resultShapes) shape).
Proof. split; [done|apply buildPointwise_cons]. Qed.

(** X10.  On an operation whose operands and results all have one shape,
    [buildPointwise] returns the rule of [createIdentityShardingRule] for
    this shape and these numbers of operands and results. *)
Theorem buildPointwise_is_identity_rule_on_equal_shapes
    (shape : list Z) (numOperands numResults : nat) :
  buildPointwise (replicate numOperands shape) (replicate (S numResults) shape)
  = createIdentityShardingRule shape numOperands (S numResults).
Proof.
  rewrite createIdentityShardingRule_eq. cbn [replicate].
  rewrite buildPointwise_cons. f_equal.
  unfold pointwiseRule, identityRule.
  by rewrite fmap_cons, !fmap_replicate.
Qed.

End IdentityRuleFacts.

(* ===================================================================== *)
(** ** The invariant of the rule builder *)
(* ===================================================================== *)

Section BuilderInvariant.
Import Attrs Enums RuleBuilder RuleBuilderMore BuilderSpec BuilderMoreSpec.

Lemma indicesOk_mono (n m : nat) (l : list Z) :
  (n ≤ m)%nat → indicesOk n l → indicesOk m l.
Proof.
  intros Hle [Hnd Hall]. split; [done|].
  eapply Forall_impl; [exact Hall|]. simpl. lia.
Qed.

Lemma indicesOk_insert (n : nat) (l1 l2 : list Z) :
  indicesOk n (l1 ++ l2) → indicesOk (S n) (l1 ++ [Z.of_nat n] ++ l2).
Proof.
  intros [Hnd Hall]. split.
  - simpl. rewrite <- Permutation_middle. apply NoDup_cons. split; [|done].
    intros Hin. rewrite Forall_forall in Hall. specialize (Hall _ Hin). lia.
  - apply Forall_app in Hall as [H1 H2]. apply Forall_app. split.
    + eapply Forall_impl; [exact H1|]. simpl. lia.
    + constructor; [lia|]. eapply Forall_impl; [exact H2|]. simpl. lia.
Qed.

Lemma indicesOk_snoc (n : nat) (l : list Z) :
  indicesOk n l → indicesOk (S n) (l ++ [Z.of_nat n]).
Proof.
  intros H. rewrite <- (app_nil_r l) in H. apply indicesOk_insert in H. done.
Qed.

Lemma indicesOk_push (n : nat) (dm : DimMapping) :
  indicesOk n (factorIndices dm) →
  indicesOk (S n) (factorIndices (push_back (Z.of_nat n) dm)).
Proof. apply indicesOk_snoc. Qed.

Lemma dimsOk_alter (n : nat) (i : nat) (tm : TensorMapping) :
  Forall (λ dm, indicesOk n (factorIndices dm)) tm →
  Forall (λ dm, indicesOk (S n) (factorIndices dm)) (alter (push_back (Z.of_nat n)) i tm).
Proof.
  intros H. apply Forall_lookup. intros j dm' Hlk.
  destruct (decide (i = j)) as [<-|Hne].
  - rewrite list_lookup_alter_eq in Hlk. apply fmap_Some in Hlk as (dm & Hdm & ->).
    apply indicesOk_push. by eapply (Forall_lookup_1 _ _ _ _ H).
  - rewrite list_lookup_alter_ne in Hlk by done.
    eapply indicesOk_mono; [|by eapply (Forall_lookup_1 _ _ _ _ H)]. lia.
Qed.

Lemma dimsOk_appendAtDim (n : nat) (d : Z) (ms : list TensorMapping) :
  Forall (Forall (λ dm, indicesOk n (factorIndices dm))) ms →
  Forall (Forall (λ dm, indicesOk (S n) (factorIndices dm))) (appendAtDim d (Z.of_nat n) ms).
Proof.
  intros H. unfold appendAtDim. apply Forall_fmap.
  eapply Forall_impl; [exact H|]. simpl. intros tm. apply dimsOk_alter.
Qed.

Lemma dimsOk_mono (n m : nat) (ms : list TensorMapping) :
  (n ≤ m)%nat →
  Forall (Forall (λ dm, indicesOk n (factorIndices dm))) ms →
  Forall (Forall (λ dm, indicesOk m (factorIndices dm))) ms.
Proof.
  intros Hle H. eapply Forall_impl; [exact H|]. simpl. intros tm Htm.
  eapply Forall_impl; [exact Htm|]. simpl. intros dm. by apply indicesOk_mono.
Qed.

Lemma dimsOk_mapDimToFactor (n : nat) tm d size tm' :
  Forall (λ dm, indicesOk n (factorIndices dm)) tm →
  mapDimToFactor tm d (Z.of_nat n) size = Some tm' →
  Forall (λ dm, indicesOk (S n) (factorIndices dm)) tm'.
Proof.
  intros H Hmap. unfold mapDimToFactor in Hmap.
  assert (Forall (λ dm, indicesOk (S n) (factorIndices dm)) tm) as Hmono.
  { eapply Forall_impl; [exact H|]. simpl. intros dm. apply indicesOk_mono. lia. }
  destruct (decide (d = kNullDim)); [by injection Hmap as <-|].
  destruct (decide (d < 0)); [done|].
  destruct (tm !! Z.to_nat d) as [dm|] eqn:Hlk; [|done].
  destruct (decide (size = 1 ∧ factorIndices dm ≠ [])); injection Hmap as <-; [done|].
  apply Forall_insert; [done|]. apply indicesOk_push.
  by eapply (Forall_lookup_1 _ _ _ _ H).
Qed.

Lemma dimsOk_mapDimsToFactor (n : nat) ms : ∀ dims size ms',
  Forall (Forall (λ dm, indicesOk n (factorIndices dm))) ms →
  mapDimsToFactor ms dims (Z.of_nat n) size = Some ms' →
  Forall (Forall (λ dm, indicesOk (S n) (factorIndices dm))) ms'.
Proof.
  induction ms as [|tm ms IH]; intros [|d dims] size ms' H Hmap; simpl in Hmap;
    try discriminate.
  { injection Hmap as <-. constructor. }
  destruct (mapDimToFactor tm d (Z.of_nat n) size) as [tm1|] eqn:Hone; [|done].
  simpl in Hmap.
  destruct (mapDimsToFactor ms dims (Z.of_nat n) size) as [rest|] eqn:Hrest; [|done].
  injection Hmap as <-. inversion H; subst. constructor.
  - by eapply dimsOk_mapDimToFactor.
  - by eapply IH.
Qed.

Lemma wfBuilder_factorAdded b size ty blk ops res :
  wfBuilder b →
  Forall (Forall (λ dm, indicesOk (S (length (factorSizes b))) (factorIndices dm))) ops →
  Forall (Forall (λ dm, indicesOk (S (length (factorSizes b))) (factorIndices dm))) res →
  wfBuilder (factorAdded b size ty blk ops res).
Proof.
  intros (_ & _ & Hty & Hblk) Hops Hres.
  unfold wfBuilder, factorAdded. simpl. rewrite length_app, Nat.add_1_r. simpl.
  split; [done|]. split; [done|]. split.
  - destruct ty; simpl; rewrite ?app_nil_r.
    + eapply indicesOk_mono; [|exact Hty]. lia.
    + rewrite <- app_assoc. by apply indicesOk_insert.
    + rewrite <- (app_assoc (needReplicationFactors b)), (app_assoc (reductionFactors b)).
      apply (indicesOk_insert _ (_ ++ _)). by rewrite <- app_assoc.
    + rewrite !app_assoc. apply indicesOk_snoc. by rewrite <- !app_assoc.
  - destruct blk; rewrite ?app_nil_r.
    + by apply indicesOk_snoc.
    + eapply indicesOk_mono; [|exact Hblk]. lia.
Qed.

Lemma wfBuilder_new operandRanks resultRanks : wfBuilder (newBuilder operandRanks resultRanks).
Proof.
  assert (∀ ranks, Forall (Forall (λ dm, indicesOk 0 (factorIndices dm)))
                     (emptyTensorMapping <$> ranks)) as Hempty.
  { intros ranks. apply Forall_fmap, Forall_forall. intros r _. simpl.
    apply Forall_replicate. split; [constructor|constructor]. }
  unfold wfBuilder. simpl. repeat split; try apply Hempty; constructor.
Qed.

Lemma wfBuilder_addFactor b operandDims resultDims size ty blk b' :
  wfBuilder b → addFactor b operandDims resultDims size ty blk = Some b' → wfBuilder b'.
Proof.
  intros Hwf Hadd. unfold addFactor in Hadd. rewrite reserveFactor_eq in Hadd.
  simpl in Hadd.
  destruct (mapDimsToFactor (operandMappings b) operandDims _ size) as [ops|] eqn:Hops;
    [|done].
  simpl in Hadd.
  destruct (mapDimsToFactor (resultMappings b) resultDims _ size) as [res|] eqn:Hres;
    [|done].
  injection Hadd as <-.
  change (wfBuilder (factorAdded b size ty blk ops res)).
  pose proof Hwf as (Ho & Hr & _).
  apply wfBuilder_factorAdded; [done| |].
  - eapply dimsOk_mapDimsToFactor; [exact Ho|exact Hops].
  - eapply dimsOk_mapDimsToFactor; [exact Hr|exact Hres].
Qed.

Lemma wfBuilder_addFactorDim b dim size ty blk b' :
  wfBuilder b → addFactorDim b dim size ty blk = Some b' → wfBuilder b'.
Proof.
  intros Hwf Hadd. apply addFactorDim_Some in Hadd as (_ & _ & ->).
  pose proof Hwf as (Ho & Hr & _).
  apply wfBuilder_factorAdded; [done| |]; by apply dimsOk_appendAtDim.
Qed.

Lemma wfBuilder_addFactorSameForAllOperands b dim size ty blk b' :
  wfBuilder b → addFactorSameForAllOperands b dim size ty blk = Some b' → wfBuilder b'.
Proof.
  intros Hwf Hadd. apply addFactorSameForAllOperands_Some in Hadd as (_ & ->).
  pose proof Hwf as (Ho & Hr & _).
  apply wfBuilder_factorAdded; [done|by apply dimsOk_appendAtDim|].
  eapply dimsOk_mono; [|exact Hr]. lia.
Qed.

Lemma wfBuilder_addFactorSameForAllResults b dim size ty blk b' :
  wfBuilder b → addFactorSameForAllResults b dim size ty blk = Some b' → wfBuilder b'.
Proof.
  intros Hwf Hadd. apply addFactorSameForAllResults_Some in Hadd as (_ & ->).
  pose proof Hwf as (Ho & Hr & _).
  apply wfBuilder_factorAdded; [done| |by apply dimsOk_appendAtDim].
  eapply dimsOk_mono; [|exact Ho]. lia.
Qed.

Lemma wfBuilder_addPointwiseFrom shape : ∀ b dim getFactorType getIsBlocked b',
  wfBuilder b → addPointwiseFrom b dim shape getFactorType getIsBlocked = Some b' →
  wfBuilder b'.
Proof.
  induction shape as [|size shape IH]; intros b dim gft gib b' Hwf Hadd; simpl in Hadd.
  { by injection Hadd as <-. }
  destruct (addFactorDim b dim size (gft dim) (gib (gft dim))) as [b1|] eqn:Hone; [|done].
  simpl in Hadd. eapply IH; [|exact Hadd]. by eapply wfBuilder_addFactorDim.
Qed.

Lemma wfBuilder_addPointwiseIfFrom shape : ∀ b dim pred getFactorType b',
  wfBuilder b → addPointwiseIfFrom b dim shape pred getFactorType = Some b' →
  wfBuilder b'.
Proof.
  induction shape as [|size shape IH]; intros b dim pred gft b' Hwf Hadd; simpl in Hadd.
  { by injection Hadd as <-. }
  destruct (pred dim).
  - destruct (addFactorDim b dim size (gft dim) false) as [b1|] eqn:Hone; [|done].
    simpl in Hadd. eapply IH; [|exact Hadd]. by eapply wfBuilder_addFactorDim.
  - simpl in Hadd. by eapply IH.
Qed.

Lemma wfBuilder_addPointwiseWithDiffTypeForMismatchFrom inShape :
  ∀ outShape b dim ty blk b',
  wfBuilder b →
  addPointwiseWithDiffTypeForMismatchFrom b dim inShape outShape ty blk = Some b' →
  wfBuilder b'.
Proof.
  induction inShape as [|x inShape IH]; intros [|y outShape] b dim ty blk b' Hwf Hadd;
    simpl in Hadd; try discriminate.
  { by injection Hadd as <-. }
  destruct (if decide (x = y) then _ else _) as [b1|] eqn:Hone; [|done].
  simpl in Hadd. eapply IH; [|exact Hadd].
  destruct (decide (x = y)); by eapply wfBuilder_addFactorDim.
Qed.

Lemma Built_wfBuilder b : Built b → wfBuilder b.
Proof.
  induction 1.
  - apply wfBuilder_new.
  - by eapply wfBuilder_addFactor.
  - by eapply wfBuilder_addFactorDim.
  - by eapply wfBuilder_addFactorSameForAllOperands.
  - by eapply wfBuilder_addFactorSameForAllResults.
  - by eapply wfBuilder_addPointwiseFrom.
  - by eapply wfBuilder_addPointwiseIfFrom.
  - by eapply wfBuilder_addPointwiseWithDiffTypeForMismatchFrom.
Qed.

Lemma buildDimMappingAttrs_wf (m : nat) tm : ∀ fs,
  Forall (λ dm, indicesOk m (factorIndices dm)) tm → (m ≤ length fs)%nat →
  (length fs ≤ length (buildDimMappingAttrs tm fs).2)%nat
  ∧ ∀ N : nat, (length (buildDimMappingAttrs tm fs).2 ≤ N)%nat →
      Forall (λ da, factor_indices da ≠ [] ∧ indicesOk N (factor_indices da))
        (buildDimMappingAttrs tm fs).1.
Proof.
  induction tm as [|dm tm IH]; intros fs Hall Hm.
  { simpl. split; [done|]. constructor. }
  inversion Hall as [|? ? Hdm Htm]; subst. cbn [buildDimMappingAttrs].
  destruct (factorIndices dm) as [|k ks] eqn:Hk.
  - destruct (IH (fs ++ [1]) Htm) as [Hlen Hok]; [rewrite length_app; lia|].
    destruct (buildDimMappingAttrs tm (fs ++ [1])) as [attrs fs1]. simpl in *.
    rewrite length_app in Hlen. simpl in Hlen. split; [lia|].
    intros N HN. constructor; [|by apply Hok]. simpl. split; [done|].
    split; [apply NoDup_singleton|]. constructor; [lia|constructor].
  - destruct (IH fs Htm Hm) as [Hlen Hok].
    destruct (buildDimMappingAttrs tm fs) as [attrs fs1]. simpl in *.
    split; [done|]. intros N HN. constructor; [|by apply Hok]. simpl.
    split; [done|]. eapply indicesOk_mono; [|exact Hdm]. lia.
Qed.

Lemma buildTensorMappingAttrList_wf (m : nat) ms : ∀ fs,
  Forall (Forall (λ dm, indicesOk m (factorIndices dm))) ms → (m ≤ length fs)%nat →
  (length fs ≤ length (buildTensorMappingAttrList ms fs).2)%nat
  ∧ ∀ N : nat, (length (buildTensorMappingAttrList ms fs).2 ≤ N)%nat →
      Forall (λ t, Forall (λ da, factor_indices da ≠ [] ∧ indicesOk N (factor_indices da))
                     (dim_mappings t))
        (buildTensorMappingAttrList ms fs).1.
Proof.
  induction ms as [|tm ms IH]; intros fs Hall Hm.
  { simpl. split; [done|]. constructor. }
  inversion Hall as [|? ? Htm Hms]; subst. cbn [buildTensorMappingAttrList].
  destruct (buildDimMappingAttrs_wf m tm fs Htm Hm) as [Hlen1 Hok1].
  destruct (buildDimMappingAttrs tm fs) as [dims fs1]. simpl in Hlen1, Hok1.
  destruct (IH fs1 Hms) as [Hlen2 Hok2]; [lia|].
  destruct (buildTensorMappingAttrList ms fs1) as [attrs fs2]. simpl in *.
  split; [lia|]. intros N HN. constructor; [|by apply Hok2]. simpl. apply Hok1. lia.
Qed.

Lemma wfBuilder_build b : wfBuilder b → wfRule (build b).1.
Proof.
  intros (Ho & Hr & Hty & Hblk). unfold build.
  destruct (buildTensorMappingAttrList_wf _ _ (factorSizes b) Ho) as [Hlen1 Hok1]; [done|].
  destruct (buildTensorMappingAttrList (operandMappings b) (factorSizes b)) as [oattrs fs1].
  simpl in Hlen1, Hok1.
  destruct (buildTensorMappingAttrList_wf _ _ fs1 Hr) as [Hlen2 Hok2]; [done|].
  destruct (buildTensorMappingAttrList (resultMappings b) fs1) as [rattrs fs2].
  simpl in Hlen2, Hok2. unfold wfRule. simpl.
  split; [apply Hok1; lia|]. split; [by apply Hok2|].
  split; (eapply indicesOk_mono; [|eassumption]); lia.
Qed.

(** X11.  Every builder obtained from the constructor by the mutating
    methods keeps its invariant (factor indices on dimensions and in the
    typed and blocked lists exist and do not repeat, and no factor has two
    types), and the rule [build] makes of it is well formed: every dimension
    of every operand and result has at least one factor, every factor index
    is that of a factor size of the rule, no index repeats on a dimension,
    among the reduction, need-replication and permutation factors, or among
    the blocked factors. *)
Theorem built_rule_well_formed (b : OpShardingRuleBuilder) :
  Built b → wfBuilder b ∧ wfRule (build b).1.
Proof.
  intros H. apply Built_wfBuilder in H. split; [done|]. by apply wfBuilder_build.
Qed.

Lemma built_rule_well_formed_witness :
  wfBuilder builder_1x1_mapped ∧ wfRule (build builder_1x1_mapped).1.
Proof.
  exact (built_rule_well_formed builder_1x1_mapped
           (built_addFactor builder_1x1 [0] [0] 4 kPassThrough false builder_1x1_mapped
              (built_new [1%nat] [1%nat]) eq_refl)).
Defined.

End BuilderInvariant.

(* ===================================================================== *)
(** ** [addPointwiseIf] *)
(* ===================================================================== *)

Section PointwiseIfFacts.
Import Attrs Enums RuleBuilder RuleBuilderMore BuilderSpec BuilderMoreSpec.

Lemma addPointwiseIfFrom_all shape : ∀ b dim getFactorType,
  addPointwiseIfFrom b dim shape (λ _, true) getFactorType
  = addPointwiseFrom b dim shape getFactorType (λ _, false).
Proof.
  induction shape as [|size shape IH]; intros b dim gft; [done|]. simpl.
  destruct (addFactorDim b dim size (gft dim) false); simpl; [apply IH|done].
Qed.

Lemma addPointwiseIfFrom_none shape : ∀ b dim getFactorType,
  addPointwiseIfFrom b dim shape (λ _, false) getFactorType = Some b.
Proof.
  induction shape as [|size shape IH]; intros b dim gft; [done|]. simpl. apply IH.
Qed.

Lemma selectedBefore_self pred k0 : selectedBefore pred k0 k0 = 0%nat.
Proof. unfold selectedBefore. by rewrite Nat.sub_diag. Qed.

Lemma selectedBefore_step pred k0 j :
  (k0 < j)%nat →
  selectedBefore pred k0 j
  = ((if pred (Z.of_nat k0) then 1 else 0) + selectedBefore pred (S k0) j)%nat.
Proof.
  intros Hlt. unfold selectedBefore.
  replace (j - k0)%nat with (S (j - S k0)) by lia. cbn [seq].
  rewrite filter_cons.
  destruct (decide (pred (Z.of_nat k0) = true)) as [Hp|Hp].
  - by rewrite Hp.
  - apply not_true_is_false in Hp. by rewrite Hp.
Qed.

Lemma pointwiseIfAfter_zero pred k0 n0 tm : pointwiseIfAfter pred k0 n0 0 tm = tm.
Proof.
  unfold pointwiseIfAfter. apply list_eq. intros j. rewrite list_lookup_imap.
  destruct (tm !! j); simpl; [|done]. by rewrite decide_False by lia.
Qed.

Lemma pointwiseIfAfter_selected pred k0 n0 len tm :
  pred (Z.of_nat k0) = true →
  pointwiseIfAfter pred (S k0) (S n0) len (alter (push_back (Z.of_nat n0)) k0 tm)
  = pointwiseIfAfter pred k0 n0 (S len) tm.
Proof.
  intros Hp. unfold pointwiseIfAfter. apply list_eq. intros j. rewrite !list_lookup_imap.
  destruct (decide (k0 = j)) as [<-|Hne].
  - rewrite list_lookup_alter_eq. destruct (tm !! k0); [|done]. cbn -[Nat.add Nat.sub].
    rewrite decide_False by lia. rewrite decide_True by (split; [lia|done]).
    by rewrite selectedBefore_self, Nat.add_0_r.
  - rewrite list_lookup_alter_ne by done. destruct (tm !! j); [|done].
    cbn -[Nat.add Nat.sub].
    destruct (decide ((S k0 ≤ j < S k0 + len)%nat ∧ pred (Z.of_nat j) = true)) as [[? ?]|Hn].
    + rewrite decide_True by (split; [lia|done]).
      rewrite (selectedBefore_step pred k0 j) by lia. rewrite Hp.
      by replace (S n0 + selectedBefore pred (S k0) j)%nat
        with (n0 + (1 + selectedBefore pred (S k0) j))%nat by lia.
    + rewrite decide_False; [done|]. intros [? ?]. apply Hn. split; [lia|done].
Qed.

Lemma pointwiseIfAfter_skipped pred k0 n0 len tm :
  pred (Z.of_nat k0) = false →
  pointwiseIfAfter pred (S k0) n0 len tm = pointwiseIfAfter pred k0 n0 (S len) tm.
Proof.
  intros Hp. unfold pointwiseIfAfter. apply list_eq. intros j. rewrite !list_lookup_imap.
  destruct (tm !! j); [|done]. cbn -[Nat.add Nat.sub].
  destruct (decide ((S k0 ≤ j < S k0 + len)%nat ∧ pred (Z.of_nat j) = true)) as [[? ?]|Hn].
  - rewrite decide_True by (split; [lia|done]).
    rewrite (selectedBefore_step pred k0 j) by lia. by rewrite Hp.
  - rewrite decide_False; [done|]. intros [? Hj]. apply Hn. split; [|done].
    destruct (decide (j = k0)) as [->|?]; [congruence|lia].
Qed.

Lemma selectedSizes_step pred k0 size shape :
  selectedSizes pred k0 (size :: shape)
  = (if pred (Z.of_nat k0) then [size] else []) ++ selectedSizes pred (S k0) shape.
Proof.
  unfold selectedSizes. cbn [length seq zip zip_with]. rewrite filter_cons. simpl.
  destruct (decide (pred (Z.of_nat k0) = true)) as [Hp|Hp].
  - by rewrite Hp.
  - apply not_true_is_false in Hp. by rewrite Hp.
Qed.

Lemma selectedFactorsWhere_step pred P k0 n0 len :
  selectedFactorsWhere pred P k0 n0 (S len)
  = (if pred (Z.of_nat k0) && P (Z.of_nat k0) then [Z.of_nat n0] else [])
    ++ selectedFactorsWhere pred P (S k0) (if pred (Z.of_nat k0) then S n0 else n0) len.
Proof.
  unfold selectedFactorsWhere. cbn [seq]. rewrite filter_cons.
  assert ((λ j : nat, Z.of_nat (n0 + selectedBefore pred k0 j))
            <$> filter (λ j : nat, pred (Z.of_nat j) = true ∧ P (Z.of_nat j) = true)
                  (seq (S k0) len)
          = (λ j : nat, Z.of_nat ((if pred (Z.of_nat k0) then S n0 else n0)
                                  + selectedBefore pred (S k0) j))
              <$> filter (λ j : nat, pred (Z.of_nat j) = true ∧ P (Z.of_nat j) = true)
                    (seq (S k0) len)) as Htail.
  { apply list_fmap_ext. intros i j Hj. apply list_elem_of_lookup_2 in Hj.
    apply list_elem_of_filter in Hj as [_ Hj]. apply elem_of_seq in Hj.
    rewrite (selectedBefore_step pred k0 j) by lia.
    destruct (pred (Z.of_nat k0)); f_equal; lia. }
  destruct (decide (pred (Z.of_nat k0) = true ∧ P (Z.of_nat k0) = true)) as [[Hp HP]|Hn].
  - rewrite fmap_cons, Htail, Hp, HP, selectedBefore_self, Nat.add_0_r. done.
  - rewrite Htail.
    destruct (pred (Z.of_nat k0)) eqn:Hp, (P (Z.of_nat k0)) eqn:HP; simpl; try done.
    by destruct Hn.
Qed.

Lemma shapeFitsIf_zero pred k0 ms : shapeFitsIf pred k0 0 ms.
Proof.
  unfold shapeFitsIf. apply Forall_forall. intros tm _. right. intros j ?. lia.
Qed.

Lemma shapeFitsIf_selected pred k0 len idx ms :
  pred (Z.of_nat k0) = true →
  shapeFitsIf pred k0 (S len) ms
  ↔ dimFits (Z.of_nat k0) ms
    ∧ shapeFitsIf pred (S k0) len (appendAtDim (Z.of_nat k0) idx ms).
Proof.
  intros Hp. unfold shapeFitsIf, dimFits, appendAtDim. rewrite Nat2Z.id, Forall_fmap.
  split.
  - intros H. split; [split; [lia|]|]; eapply Forall_impl; try exact H; simpl;
      intros tm Htm.
    + destruct Htm as [->|Htm]; [by left|]. right. apply Htm; [lia|done].
    + rewrite length_alter. destruct Htm as [->|Htm]; [by left|]. right.
      intros j Hj Hpj. apply Htm; [lia|done].
  - intros [[_ H1] H2]. rewrite Forall_forall in H1, H2. apply Forall_forall.
    intros tm Hin. pose proof (H1 tm Hin) as Hfit. pose proof (H2 tm Hin) as Hrest.
    simpl in Hrest. rewrite length_alter in Hrest.
    destruct Hfit as [->|Hfit]; [by left|]. right. intros j Hj Hpj.
    destruct (decide (j = k0)) as [->|Hne]; [done|].
    destruct Hrest as [Hrest|Hrest]; [|apply Hrest; [lia|done]].
    destruct tm; [simpl in Hfit; lia|]. destruct k0; simpl in Hrest; discriminate.
Qed.

Lemma shapeFitsIf_skipped pred k0 len ms :
  pred (Z.of_nat k0) = false →
  shapeFitsIf pred k0 (S len) ms ↔ shapeFitsIf pred (S k0) len ms.
Proof.
  intros Hp. unfold shapeFitsIf. apply Forall_iff. intros tm. split.
  - intros [->|H]; [by left|]. right. intros j Hj Hpj. apply H; [lia|done].
  - intros [->|H]; [by left|]. right. intros j Hj Hpj.
    destruct (decide (j = k0)) as [->|Hne]; [congruence|]. apply H; [lia|done].
Qed.

Lemma pointwiseIfAdded_nil b k0 pred getFactorType :
  pointwiseIfAdded b k0 [] pred getFactorType = b.
Proof.
  unfold pointwiseIfAdded, selectedSizes, selectedFactorsWhere. simpl.
  rewrite !app_nil_r.
  rewrite !(list_fmap_ext (pointwiseIfAfter pred k0 (length (factorSizes b)) 0) id)
    by (intros; apply pointwiseIfAfter_zero).
  rewrite !list_fmap_id. by destruct b.
Qed.

Lemma pointwiseIfAdded_selected b k0 size shape pred getFactorType :
  pred (Z.of_nat k0) = true →
  pointwiseIfAdded
    (factorAdded b size (getFactorType (Z.of_nat k0)) false
       (appendAtDim (Z.of_nat k0) (Z.of_nat (length (factorSizes b))) (operandMappings b))
       (appendAtDim (Z.of_nat k0) (Z.of_nat (length (factorSizes b))) (resultMappings b)))
    (S k0) shape pred getFactorType
  = pointwiseIfAdded b k0 (size :: shape) pred getFactorType.
Proof.
  intros Hp. unfold pointwiseIfAdded, factorAdded, appendAtDim. simpl.
  rewrite !length_app, !Nat2Z.id. simpl. rewrite !Nat.add_1_r.
  rewrite <- !list_fmap_compose.
  rewrite !(list_fmap_ext
              (pointwiseIfAfter pred (S k0) (S (length (factorSizes b))) (length shape)
               ∘ alter (push_back (Z.of_nat (length (factorSizes b)))) k0)
              (pointwiseIfAfter pred k0 (length (factorSizes b)) (S (length shape))))
    by (intros; by apply pointwiseIfAfter_selected).
  rewrite selectedSizes_step, !(selectedFactorsWhere_step pred _ k0), Hp, <- !app_assoc.
  rewrite app_nil_r. simpl.
  f_equal; f_equal;
    match goal with
    | |- context [decide (?P)] =>
        destruct (decide P); [by rewrite bool_decide_eq_true_2|by rewrite bool_decide_eq_false_2]
    | _ => done
    end.
Qed.

Lemma pointwiseIfAdded_skipped b k0 size shape pred getFactorType :
  pred (Z.of_nat k0) = false →
  pointwiseIfAdded b (S k0) shape pred getFactorType
  = pointwiseIfAdded b k0 (size :: shape) pred getFactorType.
Proof.
  intros Hp. unfold pointwiseIfAdded. simpl.
  rewrite !(list_fmap_ext
              (pointwiseIfAfter pred (S k0) (length (factorSizes b)) (length shape))
              (pointwiseIfAfter pred k0 (length (factorSizes b)) (S (length shape))))
    by (intros; by apply pointwiseIfAfter_skipped).
  by rewrite selectedSizes_step, !(selectedFactorsWhere_step pred _ k0), Hp.
Qed.

Lemma addPointwiseIfFrom_Some shape : ∀ b k0 pred getFactorType b',
  addPointwiseIfFrom b (Z.of_nat k0) shape pred getFactorType = Some b'
  ↔ shapeFitsIf pred k0 (length shape) (operandMappings b)
    ∧ shapeFitsIf pred k0 (length shape) (resultMappings b)
    ∧ b' = pointwiseIfAdded b k0 shape pred getFactorType.
Proof.
  induction shape as [|size shape IH]; intros b k0 pred gft b'.
  { simpl. rewrite pointwiseIfAdded_nil. split.
    - intros [= <-]. split; [apply shapeFitsIf_zero|]. split; [apply shapeFitsIf_zero|done].
    - by intros (_ & _ & ->). }
  cbn [addPointwiseIfFrom length].
  destruct (pred (Z.of_nat k0)) eqn:Hp.
  - rewrite <- (pointwiseIfAdded_selected b k0 size shape pred gft Hp).
    rewrite (shapeFitsIf_selected pred k0 _ (Z.of_nat (length (factorSizes b)))
               (operandMappings b) Hp).
    rewrite (shapeFitsIf_selected pred k0 _ (Z.of_nat (length (factorSizes b)))
               (resultMappings b) Hp).
    destruct (addFactorDim b (Z.of_nat k0) size (gft (Z.of_nat k0)) false)
      as [b1|] eqn:Hadd; simpl.
    + apply addFactorDim_Some in Hadd as (Ho & Hr & ->).
      replace (Z.of_nat k0 + 1) with (Z.of_nat (S k0)) by lia.
      rewrite IH. simpl. tauto.
    + split; [done|]. intros ([Ho _] & [Hr _] & _).
      rewrite addFactorDim_fits in Hadd by done. done.
  - simpl. replace (Z.of_nat k0 + 1) with (Z.of_nat (S k0)) by lia.
    rewrite IH, <- (pointwiseIfAdded_skipped b k0 size shape pred gft Hp).
    rewrite (shapeFitsIf_skipped pred k0 _ (operandMappings b) Hp).
    by rewrite (shapeFitsIf_skipped pred k0 _ (resultMappings b) Hp).
Qed.

(** X12.  [addPointwiseIf] succeeds exactly when every operand and result is
    of rank 0 or has each dimension of the shape that [pred] selects.  The
    builder it leaves, in closed form: the sizes of the selected dimensions
    are appended to the factor sizes in order, a selected dimension of every
    tensor of rank at least one gets the new factor that counts the selected
    dimensions before it, a dimension that is not selected keeps its
    factors, the new factors are recorded under the types of their
    dimensions, and none is blocked. *)
Theorem addPointwiseIf_closed_form
    (b b' : OpShardingRuleBuilder) (shape : list Z) (pred : Z → bool)
    (getFactorType : Z → FactorType) :
  addPointwiseIf b shape pred getFactorType = Some b'
  ↔ shapeFitsIf pred 0 (length shape) (operandMappings b)
    ∧ shapeFitsIf pred 0 (length shape) (resultMappings b)
    ∧ b' = pointwiseIfAdded b 0 shape pred getFactorType.
Proof. apply (addPointwiseIfFrom_Some shape b 0%nat). Qed.

(** X13.  With a predicate that selects every dimension [addPointwiseIf] is
    [addPointwise] with no factor blocked; with a predicate that selects no
    dimension it returns the builder as it is, whatever the shape and the
    ranks of the tensors. *)
Theorem addPointwiseIf_all_and_none
    (b : OpShardingRuleBuilder) (shape : list Z) (getFactorType : Z → FactorType) :
  addPointwiseIf b shape (λ _, true) getFactorType
  = addPointwise b shape getFactorType (λ _, false)
  ∧ addPointwiseIf b shape (λ _, false) getFactorType = Some b.
Proof.
  split; [apply addPointwiseIfFrom_all|apply addPointwiseIfFrom_none].
Qed.

End PointwiseIfFacts.

(* ===================================================================== *)
(** ** More on the canonicalization patterns *)
(* ===================================================================== *)

Section CanonicalizationMoreFacts.
Import Attrs Canonicalization ReshardExpectations CanonSpec CanonMoreSpec.

Lemma reshard_of_reshard_guard f root inner tensor inner_sharding outer_sharding :
  body f !! root = Some (ReshardOp inner outer_sharding) →
  definingOp f inner = Some (ReshardOp tensor inner_sharding) →
  hasOneUse f inner = false →
  ReshardOfReshardPattern f root = None.
Proof.
  intros Hroot Hdef Hone. unfold ReshardOfReshardPattern. by rewrite Hroot, Hdef, Hone.
Qed.

(** X14.  A reshard whose operand is defined by another reshard that has
    this one use is replaced by one reshard of the inner operand to the
    outer sharding; the inner sharding plays no part.  After the rewrite
    the inner reshard is without use and every other operation is as
    before.  When the inner reshard has another use the pattern does not
    apply. *)
Theorem reshard_of_reshard_collapses
    (f : Func) (root : nat) (inner tensor : Value)
    (inner_sharding outer_sharding : TensorShardingAttr) :
  body f !! root = Some (ReshardOp inner outer_sharding) →
  definingOp f inner = Some (ReshardOp tensor inner_sharding) →
  tensor ≠ inner →
  let f' := applyRewrite f root (ReplaceWithOp (ReshardOp tensor outer_sharding)) in
  (hasOneUse f inner = true →
     ReshardOfReshardPattern f root = Some (ReplaceWithOp (ReshardOp tensor outer_sharding))
     ∧ body f' !! root = Some (ReshardOp tensor outer_sharding)
     ∧ hasNoUse f' inner = true
     ∧ ∀ j : nat, j ≠ root → body f' !! j = body f !! j)
  ∧ (hasOneUse f inner = false → ReshardOfReshardPattern f root = None).
Proof.
  intros Hroot Hdef Hne f'. split; [|by eapply reshard_of_reshard_guard].
  intros Hone.
  assert (root < length (body f))%nat as Hlt by (by eapply lookup_lt_Some).
  split.
  { unfold ReshardOfReshardPattern. by rewrite Hroot, Hdef, Hone. }
  split; [by apply list_lookup_insert_eq|].
  split.
  - apply bool_decide_eq_true_2. apply bool_decide_eq_true_1 in Hone.
    rewrite numUses_usesIn in *. subst f'. simpl.
    pose proof (usesIn_insert inner (body f) root _ (ReshardOp tensor outer_sharding) Hroot)
      as Hins.
    rewrite !usesIn_singleton in Hins. simpl in Hins.
    rewrite filter_cons_True in Hins by done.
    rewrite filter_cons_False in Hins by done. simpl in Hins. lia.
  - intros j Hj. subst f'. simpl. by rewrite list_lookup_insert_ne.
Qed.

Lemma reshard_of_reshard_collapses_witness :
  ReshardOfReshardPattern twoReshards 1%nat
  = Some (ReplaceWithOp (ReshardOp (BlockArg 0) (sh "mesh2d" [closed []; closed [ax "y"]]))).
Proof.
  exact (proj1 (proj1 (reshard_of_reshard_collapses twoReshards 1%nat (OpResult 0)
                         (BlockArg 0) _ _ eq_refl eq_refl ltac:(discriminate))
                  eq_refl)).
Defined.

Lemma replaceValue_other old new v : v ≠ old → replaceValue old new v = v.
Proof. intros Hne. unfold replaceValue. by rewrite decide_False. Qed.

Lemma no_use_filter v (l : list Value) :
  length (filter (λ u, u = v) l) = 0%nat → Forall (λ u, u ≠ v) l.
Proof.
  induction l as [|x l IH]; [constructor|]. rewrite filter_cons.
  destruct (decide (x = v)); simpl; [done|]. intros H. constructor; auto.
Qed.

Lemma replaceUsesInOp_unused old new op :
  Forall (λ u, u ≠ old) (operandsOf op) → replaceUsesInOp old new op = op.
Proof.
  intros H. destruct op; simpl in *; try (inversion H; subst; by rewrite replaceValue_other).
  - f_equal. induction H as [|x l Hx _ IH]; [done|].
    rewrite fmap_cons, IH. by rewrite replaceValue_other.
  - done.
Qed.

Lemma replaceUses_unused old new ops :
  usesIn old ops = 0%nat → replaceUsesInOp old new <$> ops = ops.
Proof.
  induction ops as [|op ops IH]; [done|]. rewrite usesIn_cons. intros H.
  rewrite fmap_cons, IH by lia. f_equal.
  apply replaceUsesInOp_unused, no_use_filter. lia.
Qed.

(** X15.  [AllToAllNoUsePattern] applies to an all-to-all exactly when its
    result has no use, whatever its parameters and sharding; the rewrite
    then only erases the all-to-all: no other operation of the body
    changes. *)
Theorem all_to_all_no_use_only_erases
    (f : Func) (root : nat) (tensor : Value) (params : AllToAllParamListAttr)
    (sharding : TensorShardingAttr) :
  body f !! root = Some (AllToAllOp tensor params sharding) →
  (AllToAllNoUsePattern f root = Some (ReplaceWithValue tensor)
   ↔ numUses f (OpResult root) = 0%nat)
  ∧ (AllToAllNoUsePattern f root = None ↔ numUses f (OpResult root) ≠ 0%nat)
  ∧ (numUses f (OpResult root) = 0%nat →
     body (applyRewrite f root (ReplaceWithValue tensor)) = <[root := Erased]> (body f)).
Proof.
  intros Hroot. unfold AllToAllNoUsePattern, hasNoUse. rewrite Hroot.
  split; [|split].
  - case_bool_decide; split; done.
  - case_bool_decide; split; done.
  - intros Hno. simpl. rewrite numUses_usesIn in Hno. by rewrite replaceUses_unused.
Qed.

Lemma all_to_all_no_use_only_erases_witness :
  body (applyRewrite unusedAllToAll 0%nat (ReplaceWithValue (BlockArg 0)))
  = <[0%nat := Erased]> (body unusedAllToAll).
Proof.
  exact (proj2 (proj2 (all_to_all_no_use_only_erases unusedAllToAll 0%nat (BlockArg 0)
                         _ _ eq_refl)) eq_refl).
Defined.

Lemma pattern_forwards_only overlaps combineAndSort p f root rw :
  In p (patterns overlaps combineAndSort) → p f root = Some rw →
  ∃ (op : Op) (v : Value),
    body f !! root = Some op ∧ operandsOf op = [v] ∧ opSharding op ≠ None
    ∧ forwardsOnly f op v rw.
Proof.
  intros Hin Hp. simpl in Hin.
  repeat (destruct Hin as [<-|Hin]); [..|done];
    unfold ReshardOfReshardPattern, AllGatherNoopPattern, AllSliceNoopPattern,
      AllReduceNoopPattern, CollectivePermuteNoopPattern, AllSliceOfAllGatherPattern,
      AllToAllNoUsePattern, AllToAllFusionPattern in Hp;
    repeat case_match; simplify_eq;
    eexists _, _; (split; [done|]); (split; [done|]); (split; [done|]); simpl;
    try (by left); try (right; eexists; by split).
  - split; [done|]. split; [done|]. eexists. by repeat split.
  - split; [done|]. split; [done|]. eexists. repeat split; try done.
    match goal with H : _ && _ = true |- _ => by apply andb_true_iff in H as [? _] end.
Qed.

(** X16.  No pattern of the file invents a value.  A pattern applies only
    to an operation of the dialect with one operand.
    When it replaces the root by a value, the value is the root's operand
    or the operand of the operation that defines the root's operand.  When
    it replaces the root by an operation, the new operation has the root's
    name and the root's sharding, and takes the operand of the operation
    that defines the root's operand; that operation has the root's name
    and the root is its only user. *)
Theorem patterns_forward_existing_values
    (overlaps : AllToAllParamListAttr → AllToAllParamListAttr → bool)
    (combineAndSort : AllToAllParamListAttr → AllToAllParamListAttr → AllToAllParamListAttr)
    (p : Pattern) (f : Func) (root : nat) (rw : Rewrite) :
  In p (patterns overlaps combineAndSort) → p f root = Some rw →
  ∃ (op : Op) (v : Value),
    body f !! root = Some op ∧ operandsOf op = [v] ∧ opSharding op ≠ None
    ∧ forwardsOnly f op v rw.
Proof. apply pattern_forwards_only. Qed.

Lemma patterns_forward_existing_values_witness :
  ∃ (op : Op) (v : Value),
    body emptyAllGather !! 0%nat = Some op ∧ operandsOf op = [v] ∧ opSharding op ≠ None
    ∧ forwardsOnly emptyAllGather op v (ReplaceWithValue (BlockArg 0)).
Proof.
  exact (patterns_forward_existing_values ParamLists.overlaps ParamLists.combineAndSort
           AllGatherNoopPattern emptyAllGather 0%nat (ReplaceWithValue (BlockArg 0))
           (or_intror (or_introl eq_refl)) eq_refl).
Defined.

End CanonicalizationMoreFacts.

(* ===================================================================== *)
(** ** More on the bytecode records *)
(* ===================================================================== *)

Section BytecodeMoreFacts.
Import Attrs Bytecode BytecodeMore.

Lemma tag_lookup k : SdyDialectTypes !! tagOf k = Some k.
Proof. by destruct k. Qed.

Lemma lookup_tag i k : SdyDialectTypes !! i = Some k → tagOf k = i.
Proof.
  do 17 (destruct i as [|i]; [by intros [= <-]|]). done.
Qed.

(** X17.  The marker codes identify the records: the record at the position
    of a record's marker code is that record, two records with the same
    marker code are the same record, and there is a record for exactly the
    codes 0 to 16. *)
Theorem marker_codes_identify_records :
  (∀ k : BcKind, SdyDialectTypes !! tagOf k = Some k)
  ∧ (∀ k1 k2 : BcKind, tagOf k1 = tagOf k2 → k1 = k2)
  ∧ (∀ (i : nat) (k : BcKind), SdyDialectTypes !! i = Some k → tagOf k = i)
  ∧ (∀ i : nat, is_Some (SdyDialectTypes !! i) ↔ (i < 17)%nat).
Proof.
  split; [apply tag_lookup|]. split; [|split; [apply lookup_tag|]].
  - intros k1 k2 Heq. pose proof (tag_lookup k1) as H1. rewrite Heq, tag_lookup in H1.
    by injection H1.
  - intros i. by rewrite lookup_lt_is_Some.
Qed.

Lemma mapM_read_inv {A : Type} (w : A → BcValue) (r : BcValue → option A)
    (l : list BcValue) (xs : list A) :
  (∀ v x, r v = Some x → v = w x) → mapM r l = Some xs → l = w <$> xs.
Proof.
  intros Hinv H. apply mapM_Some in H.
  induction H as [|v x l xs Hv _ IH]; [done|].
  rewrite fmap_cons, <- IH. f_equal. by apply Hinv.
Qed.

Lemma readVarInt_inv v z : readVarInt v = Some z → v = BcVarInt z.
Proof. destruct v; simpl; congruence. Qed.

Lemma readString_inv v s : readString v = Some s → v = BcString s.
Proof. destruct v; simpl; congruence. Qed.

Lemma read_write_string s : readString (BcString s) = Some s.
Proof. reflexivity. Qed.

Lemma readSubAxisInfo_inv v i : readSubAxisInfo v = Some i → v = writeSubAxisInfo i.
Proof.
  unfold readSubAxisInfo. intros H. repeat case_match; simplify_eq. reflexivity.
Qed.

Lemma readAxisRef_inv v a : readAxisRef v = Some a → v = writeAxisRef a.
Proof.
  unfold readAxisRef. intros H. repeat case_match; simplify_eq.
  - match goal with
    | H : _ ≫= _ = Some _ |- _ => apply bind_Some in H as (info & Hinfo & [= <-])
    end.
    apply readSubAxisInfo_inv in Hinfo as ->. reflexivity.
  - reflexivity.
Qed.

Lemma readManualAxes_iff v axs : readManualAxes v = Some axs ↔ v = writeManualAxes axs.
Proof.
  split.
  - unfold readManualAxes. intros H. repeat case_match; simplify_eq.
    unfold writeManualAxes. simpl. do 3 f_equal. eapply mapM_read_inv; [apply readString_inv|done].
  - intros ->. unfold writeManualAxes, readManualAxes. simpl.
    by apply mapM_fmap_Some.
Qed.

Lemma readDimMapping_iff v d : readDimMapping v = Some d ↔ v = writeDimMapping d.
Proof.
  split.
  - unfold readDimMapping. intros H. repeat case_match; simplify_eq.
    apply fmap_Some in H as (ids & Hids & ->).
    unfold writeDimMapping. simpl. do 3 f_equal. eapply mapM_read_inv; [apply readVarInt_inv|done].
  - intros ->. destruct d as [ids]. unfold writeDimMapping, readDimMapping. simpl.
    by rewrite (mapM_read_write _ _ _ read_write_varint).
Qed.

Lemma readTensorMapping_iff v t : readTensorMapping v = Some t ↔ v = writeTensorMapping t.
Proof.
  split.
  - unfold readTensorMapping. intros H. repeat case_match; simplify_eq.
    apply fmap_Some in H as (dims & Hdims & ->).
    unfold writeTensorMapping. simpl. do 3 f_equal.
    eapply mapM_read_inv; [|done]. intros. by apply readDimMapping_iff.
  - intros ->. destruct t as [dims]. unfold writeTensorMapping, readTensorMapping. simpl.
    rewrite (mapM_read_write writeDimMapping readDimMapping); [done|].
    intros. by apply readDimMapping_iff.
Qed.

Lemma readOpShardingRule_iff v r : readOpShardingRule v = Some r ↔ v = writeOpShardingRule r.
Proof.
  split.
  - unfold readOpShardingRule. intros H. repeat case_match; simplify_eq.
    repeat match goal with
           | H : _ ≫= _ = Some _ |- _ => apply bind_Some in H as (? & ? & H)
           end.
    simplify_eq. unfold writeOpShardingRule. simpl.
    repeat match goal with
           | H : mapM readVarInt _ = Some _ |- _ =>
               apply (mapM_read_inv BcVarInt) in H; [subst|apply readVarInt_inv]
           | H : mapM readTensorMapping _ = Some _ |- _ =>
               apply (mapM_read_inv writeTensorMapping) in H;
               [subst|intros; by apply readTensorMapping_iff]
           end.
    reflexivity.
  - intros ->. destruct r. unfold writeOpShardingRule, readOpShardingRule. simpl.
    rewrite !(mapM_read_write _ _ _ read_write_varint). simpl.
    rewrite !(mapM_read_write writeTensorMapping readTensorMapping)
      by (intros; by apply readTensorMapping_iff).
    done.
Qed.

Lemma readAxisRefList_iff v l : readAxisRefList v = Some l ↔ v = writeAxisRefList l.
Proof.
  split.
  - unfold readAxisRefList. intros H. repeat case_match; simplify_eq.
    unfold writeAxisRefList. simpl. do 3 f_equal. eapply mapM_read_inv; [apply readAxisRef_inv|done].
  - intros ->. unfold writeAxisRefList, readAxisRefList. simpl.
    by rewrite (mapM_read_write _ _ _ read_write_axis_ref).
Qed.

Lemma readListOfAxisRefLists_iff v l :
  readListOfAxisRefLists v = Some l ↔ v = writeListOfAxisRefLists l.
Proof.
  split.
  - unfold readListOfAxisRefLists. intros H. repeat case_match; simplify_eq.
    unfold writeListOfAxisRefLists. simpl. do 3 f_equal.
    eapply mapM_read_inv; [|done]. intros. by apply readAxisRefList_iff.
  - intros ->. unfold writeListOfAxisRefLists, readListOfAxisRefLists. simpl.
    rewrite (mapM_read_write writeAxisRefList readAxisRefList); [done|].
    intros. by apply readAxisRefList_iff.
Qed.

Lemma readAllToAllParam_iff v p : readAllToAllParam v = Some p ↔ v = writeAllToAllParam p.
Proof.
  split.
  - unfold readAllToAllParam. intros H. repeat case_match; simplify_eq.
    apply bind_Some in H as (a & Ha & [= <-]).
    unfold writeAllToAllParam. simpl. do 3 f_equal.
    eapply mapM_read_inv; [apply readAxisRef_inv|done].
  - intros ->. destruct p. unfold writeAllToAllParam, readAllToAllParam. simpl.
    by rewrite (mapM_read_write _ _ _ read_write_axis_ref).
Qed.

Lemma readAllToAllParamList_iff v l :
  readAllToAllParamList v = Some l ↔ v = writeAllToAllParamList l.
Proof.
  split.
  - unfold readAllToAllParamList. intros H. repeat case_match; simplify_eq.
    unfold writeAllToAllParamList. simpl. do 3 f_equal.
    eapply mapM_read_inv; [|done]. intros. by apply readAllToAllParam_iff.
  - intros ->. unfold writeAllToAllParamList, readAllToAllParamList. simpl.
    rewrite (mapM_read_write writeAllToAllParam readAllToAllParam); [done|].
    intros. by apply readAllToAllParam_iff.
Qed.

(** X18.  The record of an op sharding rule reads back as the rule, and the
    reader accepts no other value: a value reads as a rule exactly when it
    is the record the writer makes of that rule (marker 10, the seven
    arrays in the order of the record and the flag).  The same holds for
    the records of its dimension and tensor mappings. *)
Theorem op_sharding_rule_record_round_trip :
  (∀ (v : BcValue) (r : OpShardingRuleAttr),
     readOpShardingRule v = Some r ↔ v = writeOpShardingRule r)
  ∧ (∀ (v : BcValue) (t : TensorMappingAttr),
       readTensorMapping v = Some t ↔ v = writeTensorMapping t)
  ∧ (∀ (v : BcValue) (d : DimMappingAttr),
       readDimMapping v = Some d ↔ v = writeDimMapping d).
Proof.
  split; [apply readOpShardingRule_iff|].
  split; [apply readTensorMapping_iff|apply readDimMapping_iff].
Qed.

(** X19.  The records of manual axes, axis lists, lists of axis lists and
    all-to-all parameters read back as what was written, and their readers
    accept no other value. *)
Theorem list_records_round_trip :
  (∀ (v : BcValue) (axs : list string), readManualAxes v = Some axs ↔ v = writeManualAxes axs)
  ∧ (∀ (v : BcValue) (l : AxisRefListAttr),
       readAxisRefList v = Some l ↔ v = writeAxisRefList l)
  ∧ (∀ (v : BcValue) (l : ListOfAxisRefListsAttr),
       readListOfAxisRefLists v = Some l ↔ v = writeListOfAxisRefLists l)
  ∧ (∀ (v : BcValue) (p : AllToAllParamAttr),
       readAllToAllParam v = Some p ↔ v = writeAllToAllParam p)
  ∧ (∀ (v : BcValue) (l : AllToAllParamListAttr),
       readAllToAllParamList v = Some l ↔ v = writeAllToAllParamList l).
Proof.
  split; [apply readManualAxes_iff|]. split; [apply readAxisRefList_iff|].
  split; [apply readListOfAxisRefLists_iff|].
  split; [apply readAllToAllParam_iff|apply readAllToAllParamList_iff].
Qed.

(** X20.  The reader of tensor shardings accepts a V2 record whose array of
    unreduced axes is empty, but the writer never makes one: the sharding
    such a record reads as is written as a V1 record, so reading and
    writing again turns the V2 record into a V1 record of the same
    sharding. *)
Theorem v2_record_without_unreduced_axes_is_rewritten_as_v1 (s : TensorShardingAttr) :
  unreduced_axes s = [] →
  readTensorSharding (writeTensorShardingV2 s) = Some s
  ∧ writeTensorSharding s = Some (writeTensorShardingV1 s)
  ∧ writeTensorShardingV1 s ≠ writeTensorShardingV2 s
  ∧ readTensorSharding (writeTensorShardingV1 s) = Some s.
Proof.
  intros Hu. split; [apply read_write_tensor_sharding_v2|]. split; [|split].
  - unfold writeTensorSharding, printerPredicateV1. by rewrite bool_decide_eq_true_2.
  - discriminate.
  - rewrite read_write_tensor_sharding_v1. destruct s; simpl in *. by subst.
Qed.

Lemma v2_record_without_unreduced_axes_is_rewritten_as_v1_witness :
  readTensorSharding (writeTensorShardingV2 (mkTensorSharding (MeshRef "mesh") [] [] []))
  = Some (mkTensorSharding (MeshRef "mesh") [] [] [])
  ∧ writeTensorSharding (mkTensorSharding (MeshRef "mesh") [] [] [])
    = Some (writeTensorShardingV1 (mkTensorSharding (MeshRef "mesh") [] [] [])).
Proof.
  exact (conj
           (proj1 (v2_record_without_unreduced_axes_is_rewritten_as_v1
                     (mkTensorSharding (MeshRef "mesh") [] [] []) eq_refl))
           (proj1 (proj2 (v2_record_without_unreduced_axes_is_rewritten_as_v1
                            (mkTensorSharding (MeshRef "mesh") [] [] []) eq_refl)))).
Defined.

End BytecodeMoreFacts.

(* ===================================================================== *)
(** ** The integers of the propagation directions *)
(* ===================================================================== *)

Section EnumFacts.
Import Enums.

Lemma symbolizeDirection_inv z d : symbolizeDirection z = Some d → z = directionValue d.
Proof.
  unfold symbolizeDirection. intros H. repeat case_match; simplify_eq; reflexivity.
Qed.

(** X23.  The integers of the propagation directions: an integer is that of
    a direction exactly when the direction is its case, the integers with a
    case are 0 to 3, two directions with the same integer are the same,
    [NONE] has the smallest and [BOTH] the largest integer, and [FORWARD]
    comes before [BACKWARD]. *)
Theorem direction_integers :
  (∀ (z : Z) (d : PropagationDirection),
     symbolizeDirection z = Some d ↔ z = directionValue d)
  ∧ (∀ z : Z, is_Some (symbolizeDirection z) ↔ 0 ≤ z ≤ 3)
  ∧ (∀ d1 d2 : PropagationDirection, directionValue d1 = directionValue d2 → d1 = d2)
  ∧ (∀ d : PropagationDirection,
       directionValue NONE ≤ directionValue d ≤ directionValue BOTH)
  ∧ directionValue FORWARD < directionValue BACKWARD.
Proof.
  split; [|split; [|split; [|split]]].
  - intros z d. split; [apply symbolizeDirection_inv|]. intros ->. by destruct d.
  - intros z. split.
    + intros [d H]. apply symbolizeDirection_inv in H as ->. destruct d; simpl; lia.
    + intros Hz. assert (z = 0 ∨ z = 1 ∨ z = 2 ∨ z = 3) as [-> | [-> | [-> | ->]]] by lia;
        by eexists.
  - intros [] []; simpl; intros H; try done; lia.
  - intros []; simpl; lia.
  - simpl. lia.
Qed.

End EnumFacts.

(* ===================================================================== *)
(** ** Well-formedness of identity and pointwise rules *)
(* ===================================================================== *)

Section RuleShapeFacts.
Import Attrs Enums RuleBuilder RuleBuilderMore BuilderSpec BuilderMoreSpec.

Lemma indicesOk_nil n : indicesOk n [].
Proof. split; constructor. Qed.

Lemma identityMapping_ok (n r : nat) :
  Forall (λ da, factor_indices da ≠ [] ∧ indicesOk n (factor_indices da))
    (dim_mappings (identityMapping r))
  ↔ (r ≤ n)%nat.
Proof.
  unfold identityMapping. simpl. rewrite Forall_fmap, Forall_seq. split.
  - intros H. destruct r as [|r]; [lia|].
    destruct (H r) as (_ & _ & Hr); [lia|]. simpl in Hr.
    apply Forall_cons in Hr as [Hr _]. lia.
  - intros Hle j Hj. simpl. split; [done|]. split; [apply NoDup_singleton|].
    constructor; [lia|constructor].
Qed.

Lemma identityMappings_ok (n : nat) (shapes : list (list Z)) :
  Forall (λ t, Forall (λ da, factor_indices da ≠ [] ∧ indicesOk n (factor_indices da))
                 (dim_mappings t))
    ((λ s : list Z, identityMapping (length s)) <$> shapes)
  ↔ Forall (λ s : list Z, (length s ≤ n)%nat) shapes.
Proof.
  rewrite Forall_fmap. apply Forall_iff. intros s. apply identityMapping_ok.
Qed.

(** X24.  The identity rule is well formed for every shape and every number
    of operands and results.  The rule of [buildPointwise] is well formed
    exactly when no operand and no result has more dimensions than the first
    result: [buildPointwise] does not look at the other shapes, and a tensor
    of higher rank gets factor indices that have no factor size. *)
Theorem identity_and_pointwise_rules_well_formed :
  (∀ (shape : list Z) (numOperands numResults : nat),
     wfRule (identityRule shape numOperands numResults))
  ∧ (∀ (operandShapes resultShapes : list (list Z)) (shape : list Z),
       wfRule (pointwiseRule operandShapes (shape :: resultShapes) shape)
       ↔ Forall (λ s : list Z, (length s ≤ length shape)%nat)
           (operandShapes ++ resultShapes)).
Proof.
  split.
  - intros shape nO nR. unfold wfRule, identityRule. simpl.
    split; [|split; [|split; apply indicesOk_nil]];
      apply Forall_replicate; by apply identityMapping_ok.
  - intros ops res shape. unfold wfRule, pointwiseRule.
    cbn [factor_sizes operand_mappings result_mappings reduction_factors
         need_replication_factors permutation_factors blocked_propagation_factors].
    rewrite !identityMappings_ok, Forall_app, Forall_cons. simpl.
    pose proof (indicesOk_nil (length shape)).
    pose proof (Nat.le_refl (length shape)). tauto.
Qed.

End RuleShapeFacts.
